(** * The streaming relay and the YouTube edge proxy: a shallow embedding

    The development follows the layout of the repository:
    - [JS]        the fragment of the JavaScript string and RegExp
                  semantics the two route handlers rely on;
    - [Constants] [ai-recommend-constants.ts]: model classes and token limits;
    - [Relay]     the chat relay route: dispatcher, SSE transcoder,
                  extraction engine and enrichment fan-out;
    - [Proxy]     the YouTube proxy route: mirror discovery and the
                  pass-through of media bytes.

    A JavaScript string is a sequence of UTF-16 code units, and this is
    how strings are represented here; regular expressions without the [u]
    flag work on code units as well.  A JavaScript number is an IEEE 754
    binary64 value, in the representation of [SpecFloat]. *)

From Stdlib Require Import ZArith NArith List Bool Lia String Ascii.
From Stdlib Require Import SpecFloat.
From stdpp Require Import base option list gmap.

Set Warnings "-register-all".
Open Scope N_scope.

(* ===================================================================== *)
(** * JavaScript strings and regular expressions                          *)
(* ===================================================================== *)

Module JS.

(** A string is its list of UTF-16 code units. *)
Definition jsstring := list N.

(** String literals of this file are written in UTF-8; [utf16] converts the
    bytes of a literal into code units (one unit for every character of
    the basic plane, a surrogate pair above it). *)
Fixpoint utf16 (bs : list N) : jsstring :=
  match bs with
  | [] => []
  | b :: r =>
    if b <? 0x80 then b :: utf16 r
    else if b <? 0xE0 then
      match r with
      | b2 :: r' =>
        N.lor (N.shiftl (N.land b 0x1F) 6) (N.land b2 0x3F) :: utf16 r'
      | _ => []
      end
    else if b <? 0xF0 then
      match r with
      | b2 :: b3 :: r' =>
        N.lor (N.shiftl (N.land b 0x0F) 12)
          (N.lor (N.shiftl (N.land b2 0x3F) 6) (N.land b3 0x3F)) :: utf16 r'
      | _ => []
      end
    else
      match r with
      | b2 :: b3 :: b4 :: r' =>
        let cp :=
          N.lor (N.shiftl (N.land b 0x07) 18)
            (N.lor (N.shiftl (N.land b2 0x3F) 12)
               (N.lor (N.shiftl (N.land b3 0x3F) 6) (N.land b4 0x3F))) in
        let v := cp - 0x10000 in
        (0xD800 + N.shiftr v 10) :: (0xDC00 + N.land v 0x3FF) :: utf16 r'
      | _ => []
      end
  end.

Definition js (s : string) : jsstring :=
  utf16 (map N_of_ascii (list_ascii_of_string s)).

(** ** String methods *)

(** [s.startsWith(p)] *)
Fixpoint startsWith (p s : jsstring) : bool :=
  match p, s with
  | [], _ => true
  | _ :: _, [] => false
  | a :: p', b :: s' => (a =? b) && startsWith p' s'
  end.

(** [s.includes(p)] *)
Fixpoint includes (p s : jsstring) : bool :=
  startsWith p s ||
  match s with
  | [] => false
  | _ :: s' => includes p s'
  end.

(** [s.endsWith(p)] *)
Definition endsWith (p s : jsstring) : bool :=
  startsWith (rev p) (rev s).

(** WhiteSpace and LineTerminator code units: what [String.prototype.trim]
    strips and what the class [\s] matches. *)
Definition is_space (c : N) : bool :=
  ((0x09 <=? c) && (c <=? 0x0D)) || (c =? 0x20) || (c =? 0xA0) ||
  (c =? 0x1680) || ((0x2000 <=? c) && (c <=? 0x200A)) ||
  (c =? 0x2028) || (c =? 0x2029) || (c =? 0x202F) || (c =? 0x205F) ||
  (c =? 0x3000) || (c =? 0xFEFF).

Fixpoint trimStart (s : jsstring) : jsstring :=
  match s with
  | c :: s' => if is_space c then trimStart s' else s
  | [] => []
  end.

Definition trimEnd (s : jsstring) : jsstring := rev (trimStart (rev s)).

(** [s.trim()] *)
Definition trim (s : jsstring) : jsstring := trimEnd (trimStart s).

(** [s.split(sep)] for a separator of one code unit.  The result is never
    empty: its last element is the text after the last separator. *)
Fixpoint split (sep : N) (s : jsstring) : list jsstring :=
  match s with
  | [] => [[]]
  | c :: s' =>
    if c =? sep then [] :: split sep s'
    else
      match split sep s' with
      | l :: ls => (c :: l) :: ls
      | [] => [[c]]
      end
  end.

Definition LF : N := 0x0A.

(** [s.slice(n)] for [0 <= n]. *)
Definition slice (n : nat) (s : jsstring) : jsstring := drop n s.

(** Truthiness of a string: the empty string is falsy. *)
Definition nonempty (s : jsstring) : bool :=
  match s with [] => false | _ => true end.

(** [a || b] on strings. *)
Definition or_else (a b : jsstring) : jsstring :=
  if nonempty a then a else b.

(** [a || b] where [a] may be [undefined] or [null]. *)
Definition str_or_default (a : option jsstring) (b : jsstring) : jsstring :=
  match a with
  | Some s => or_else s b
  | None => b
  end.

(** ** Regular expressions

    The fragment used by the routes: literals and classes of code units,
    sequence, alternation, greedy [?], greedy [*] over a class, numbered
    capture groups and the two anchors.  Matching is the backtracking
    search of the language specification, written in continuation-passing
    style: the continuation is the rest of the pattern, and an alternative
    is tried only when everything after the earlier one has failed. *)

Inductive regex :=
| Eps
| Cls (p : N -> bool)
| Seq (r1 r2 : regex)
| Alt (r1 r2 : regex)
| Opt (r : regex)
| Star (p : N -> bool)
| Grp (i : nat) (r : regex)
| Bol
| Eol.

(** The captures recorded so far, the most recent first. *)
Definition caps := list (nat * jsstring).

Fixpoint capture (i : nat) (c : caps) : option jsstring :=
  match c with
  | [] => None
  | (j, s) :: c' => if Nat.eqb i j then Some s else capture i c'
  end.

(** The text between two positions, each given by what remains to be read. *)
Definition consumed (s s' : jsstring) : jsstring :=
  take (length s - length s') s.

Section Matcher.
Context {R : Type}.
(** The whole input, for the start anchor. *)
Variable inp : jsstring.

Fixpoint star (p : N -> bool) (k : jsstring -> option R) (s : jsstring)
  : option R :=
  match s with
  | x :: s' =>
    if p x then
      match star p k s' with
      | Some r => Some r
      | None => k s
      end
    else k s
  | [] => k s
  end.

Fixpoint rmatch (r : regex) (s : jsstring) (c : caps)
    (k : jsstring -> caps -> option R) : option R :=
  match r with
  | Eps => k s c
  | Cls p =>
    match s with
    | x :: s' => if p x then k s' c else None
    | [] => None
    end
  | Seq r1 r2 => rmatch r1 s c (fun s' c' => rmatch r2 s' c' k)
  | Alt r1 r2 =>
    match rmatch r1 s c k with
    | Some x => Some x
    | None => rmatch r2 s c k
    end
  | Opt r1 =>
    match rmatch r1 s c k with
    | Some x => Some x
    | None => k s c
    end
  | Star p => star p (fun s' => k s' c) s
  | Grp i r1 => rmatch r1 s c (fun s' c' => k s' ((i, consumed s s') :: c'))
  | Bol => if Nat.eqb (length s) (length inp) then k s c else None
  | Eol => match s with [] => k s c | _ :: _ => None end
  end.

End Matcher.

(** The reading of a pattern as a relation: [den inp r s c s' c'] says that
    [r] can match the text between the positions [s] and [s'] of [inp],
    taking the captures from [c] to [c'].  The matcher only ever returns
    matches of this relation ([rmatch_sound] below). *)
Inductive den (inp : jsstring)
  : regex -> jsstring -> caps -> jsstring -> caps -> Prop :=
| den_eps s c : den inp Eps s c s c
| den_cls p x s c : p x = true -> den inp (Cls p) (x :: s) c s c
| den_seq r1 r2 s c s1 c1 s2 c2 :
    den inp r1 s c s1 c1 -> den inp r2 s1 c1 s2 c2 ->
    den inp (Seq r1 r2) s c s2 c2
| den_alt_l r1 r2 s c s' c' :
    den inp r1 s c s' c' -> den inp (Alt r1 r2) s c s' c'
| den_alt_r r1 r2 s c s' c' :
    den inp r2 s c s' c' -> den inp (Alt r1 r2) s c s' c'
| den_opt_some r s c s' c' :
    den inp r s c s' c' -> den inp (Opt r) s c s' c'
| den_opt_none r s c : den inp (Opt r) s c s c
| den_star_nil p s c : den inp (Star p) s c s c
| den_star_cons p x s c s' :
    p x = true -> den inp (Star p) s c s' c ->
    den inp (Star p) (x :: s) c s' c
| den_grp i r s c s' c' :
    den inp r s c s' c' ->
    den inp (Grp i r) s c s' ((i, consumed s s') :: c')
| den_bol s c : length s = length inp -> den inp Bol s c s c
| den_eol c : den inp Eol [] c [] c.

(** Patterns without groups, which leave the captures alone. *)
Fixpoint groupless (r : regex) : bool :=
  match r with
  | Seq r1 r2 | Alt r1 r2 => groupless r1 && groupless r2
  | Opt r1 => groupless r1
  | Grp _ _ => false
  | _ => true
  end.

(** The result of a successful match: [index] code units before it,
    the matched text [m0] (element 0 of the match array), the captures,
    and the text after the match. *)
Record rmatch_result := {
  m_index : nat;
  m0 : jsstring;
  m_caps : caps;
  m_rest : jsstring
}.

(** Group [i] of a match array; an unset group reads as the empty
    string here (the patterns below set every group they read). *)
Definition group (i : nat) (m : rmatch_result) : jsstring :=
  default [] (capture i (m_caps m)).

(** A match starting exactly where [s] starts. *)
Definition match_here (r : regex) (inp s : jsstring)
  : option (jsstring * caps) :=
  rmatch inp r s [] (fun s' c => Some (s', c)).

(** The leftmost match at or after the position where [s] starts: the
    search of [RegExp.prototype.exec]. *)
Fixpoint search (r : regex) (inp s : jsstring) : option rmatch_result :=
  match match_here r inp s with
  | Some (s', c) =>
    Some {| m_index := length inp - length s; m0 := consumed s s';
            m_caps := c; m_rest := s' |}
  | None =>
    match s with
    | [] => None
    | _ :: s' => search r inp s'
    end
  end.

(** [s.match(r)] and [r.exec(s)] for a pattern without the [g] flag. *)
Definition exec (r : regex) (s : jsstring) : option rmatch_result :=
  search r s s.

(** [r.test(s)] *)
Definition test (r : regex) (s : jsstring) : bool :=
  match exec r s with Some _ => true | None => false end.

(** ** Pattern syntax *)

Definition chr (c : N) : regex := Cls (N.eqb c).

(** A literal text. *)
Fixpoint lit (s : jsstring) : regex :=
  match s with
  | [] => Eps
  | c :: s' => Seq (chr c) (lit s')
  end.

(** [[class]+] *)
Definition plus (p : N -> bool) : regex := Seq (Cls p) (Star p).

(** [r{n}] *)
Fixpoint rep (n : nat) (r : regex) : regex :=
  match n with
  | O => Eps
  | S n' => Seq r (rep n' r)
  end.

(** [\d] *)
Definition is_digit (c : N) : bool := (0x30 <=? c) && (c <=? 0x39).

(** [[a-zA-Z0-9_-]] *)
Definition is_id_char (c : N) : bool :=
  ((0x61 <=? c) && (c <=? 0x7A)) || ((0x41 <=? c) && (c <=? 0x5A)) ||
  is_digit c || (c =? 0x5F) || (c =? 0x2D).

(** [.] without the [s] flag: anything but a line terminator. *)
Definition is_dot (c : N) : bool :=
  negb ((c =? 0x0A) || (c =? 0x0D) || (c =? 0x2028) || (c =? 0x2029)).

(** [[^c]] *)
Definition is_not (c : N) (x : N) : bool := negb (x =? c).

Declare Scope regex_scope.
Delimit Scope regex_scope with re.
Infix ">>" := Seq (at level 60, right associativity) : regex_scope.
Infix "<|>" := Alt (at level 65, right associativity) : regex_scope.

(** The first code unit of a literal. *)
Definition code (s : string) : N := hd 0 (js s).

(** ** Numbers

    A number is a binary64 value: a zero or an infinity with its sign,
    [NaN], or a finite value [(-1)^s * m * 2^e].  [JSON.parse] gives the
    value nearest to the text it reads, which is [Infinity] for a text
    such as [1e400]; it never gives [NaN]. *)
Definition double := spec_float.

(** The value nearest to an integer. *)
Definition num (z : Z) : double := binary_normalize 53 1024 z 0 false.

(** The truthiness of a number: [0], [-0] and [NaN] are falsy. *)
Definition num_truthy (x : double) : bool :=
  match x with
  | S754_zero _ | S754_nan => false
  | _ => true
  end.

(** [a <= b] *)
Definition num_leb (a b : double) : bool := SFleb a b.

(** [Math.max(a, b)]: [NaN] when either is; of the two zeros [+0] is the
    larger. *)
Definition Math_max (a b : double) : double :=
  match SFcompare a b with
  | None => S754_nan
  | Some Lt => b
  | Some Gt => a
  | Some Eq =>
    match a, b with
    | S754_zero true, S754_zero false => b
    | _, _ => a
    end
  end.

(** [Math.min(a, b)] *)
Definition Math_min (a b : double) : double :=
  match SFcompare a b with
  | None => S754_nan
  | Some Lt => a
  | Some Gt => b
  | Some Eq =>
    match a, b with
    | S754_zero false, S754_zero true => b
    | _, _ => a
    end
  end.

(** A positive finite number. *)
Definition positive_finite (x : double) : Prop :=
  exists m e, x = S754_finite false m e.

(** What [JSON.stringify] writes for a number: [null] for [NaN] and the
    infinities, and [0] for [-0]. *)
Inductive json_number :=
| JsonNull
| JsonNumber (x : double).

Definition stringify_number (x : double) : json_number :=
  match x with
  | S754_nan | S754_infinity _ => JsonNull
  | S754_zero _ => JsonNumber (S754_zero false)
  | S754_finite _ _ _ => JsonNumber x
  end.

End JS.

(* ===================================================================== *)
(** * [ai-recommend-constants.ts]                                          *)
(* ===================================================================== *)

Module Constants.
Import JS.

Definition REASONING_MODEL_PREFIXES : list jsstring :=
  [js "o1"; js "o3"; js "o4"].

Definition isReasoningModel (modelName : jsstring) : bool :=
  existsb (fun prefix => startsWith prefix modelName)
    REASONING_MODEL_PREFIXES
  || includes (js "gpt-5") modelName.

Module TOKEN_LIMITS.
Definition GPT5_MIN : double := num 2000.
Definition GPT5_MAX : double := num 128000.
Definition O3_O4_MIN : double := num 1500.
Definition O3_O4_MAX : double := num 100000.
Definition REASONING_MIN : double := num 1000.
Definition NORMAL_MIN : double := num 500.
Definition GPT4_MAX : double := num 32768.
End TOKEN_LIMITS.

End Constants.

(* ===================================================================== *)
(** * The chat relay route                                                 *)
(* ===================================================================== *)

Module Relay.
Import JS Constants.

(** ** Upstream dispatcher *)

Inductive role := user | assistant | system.

Record OpenAIMessage := {
  msg_role : role;
  msg_content : jsstring
}.

Section Dispatcher.
(** The temperature is a floating-point number that the route only passes
    on; its type is left open. *)
Variable Temp : Type.

(** The fields of the body of the request, with the types the route
    declares for them; [undefined] and [null] are [None].  A token limit
    is whatever number the JSON text of the request gave. *)
Record ChatRequest := {
  messages : list OpenAIMessage;
  model : option jsstring;
  temperature : option Temp;
  max_tokens : option double;
  max_completion_tokens : option double;
  streamMode : option bool
}.

Record AIConfig := {
  cfg_model : jsstring;
  cfg_maxTokens : double;
  cfg_temperature : Temp;
  cfg_streamMode : option bool
}.

(** The object that is passed to [JSON.stringify]; a property that is
    not set is [None]. *)
Record RequestBody := {
  rb_model : jsstring;
  rb_messages : list OpenAIMessage;
  rb_stream : bool;
  rb_temperature : option Temp;
  rb_max_tokens : option double;
  rb_max_completion_tokens : option double
}.

(** [a || b] where [a] is an optional number: [undefined], [0] and [NaN]
    are falsy. *)
Definition num_or (a : option double) (b : double) : double :=
  match a with
  | Some n => if num_truthy n then n else b
  | None => b
  end.

(** [a ?? b] *)
Definition nullish {A} (a : option A) (b : A) : A := default b a.

(** The adjustment of the token limit to the class of the model. *)
Definition clampTokenLimit (requestModel : jsstring) (tokenLimit : double)
  : double :=
  if isReasoningModel requestModel then
    if includes (js "gpt-5") requestModel then
      let tokenLimit := Math_max tokenLimit TOKEN_LIMITS.GPT5_MIN in
      Math_min tokenLimit TOKEN_LIMITS.GPT5_MAX
    else if startsWith (js "o3") requestModel
            || startsWith (js "o4") requestModel then
      let tokenLimit := Math_max tokenLimit TOKEN_LIMITS.O3_O4_MIN in
      Math_min tokenLimit TOKEN_LIMITS.O3_O4_MAX
    else
      Math_max tokenLimit TOKEN_LIMITS.REASONING_MIN
  else
    let tokenLimit := Math_max tokenLimit TOKEN_LIMITS.NORMAL_MIN in
    if includes (js "gpt-4") requestModel then
      Math_min tokenLimit TOKEN_LIMITS.GPT4_MAX
    else tokenLimit.

(** [max_tokens || max_completion_tokens || aiConfig.maxTokens] *)
Definition requestedLimit (aiConfig : AIConfig) (req : ChatRequest)
  : double :=
  num_or (max_tokens req)
    (num_or (max_completion_tokens req) (cfg_maxTokens aiConfig)).

(** The body sent upstream; [systemPrompt] is the generated prompt. *)
Definition buildRequestBody (aiConfig : AIConfig) (req : ChatRequest)
    (systemPrompt : jsstring) : RequestBody :=
  let chatMessages :=
    {| msg_role := system; msg_content := systemPrompt |} :: messages req in
  let requestModel := str_or_default (model req) (cfg_model aiConfig) in
  let tokenLimit := requestedLimit aiConfig req in
  let useMaxCompletionTokens := isReasoningModel requestModel in
  let tokenLimit := clampTokenLimit requestModel tokenLimit in
  let useStream :=
    nullish (streamMode req) (nullish (cfg_streamMode aiConfig) true) in
  {| rb_model := requestModel;
     rb_messages := chatMessages;
     rb_stream := useStream;
     rb_temperature :=
       if negb useMaxCompletionTokens
       then Some (nullish (temperature req) (cfg_temperature aiConfig))
       else None;
     rb_max_tokens :=
       if useMaxCompletionTokens then None else Some tokenLimit;
     rb_max_completion_tokens :=
       if useMaxCompletionTokens then Some tokenLimit else None |}.

(** The endpoint the body is posted to. *)
Definition buildEndpoint (apiUrl : jsstring) : jsstring :=
  if endsWith (js "/chat/completions") apiUrl then apiUrl
  else
    (if endsWith (js "/") apiUrl then removelast apiUrl else apiUrl)
      ++ js "/chat/completions".

(** The four classes of models the limits are documented for, in the
    order the rules are tried. *)
Inductive model_class := Gpt5Class | O3O4Class | OtherReasoning | Standard.

Definition classify (modelName : jsstring) : model_class :=
  if includes (js "gpt-5") modelName then Gpt5Class
  else if startsWith (js "o3") modelName || startsWith (js "o4") modelName
  then O3O4Class
  else if startsWith (js "o1") modelName then OtherReasoning
  else Standard.

(** The limit that [JSON.stringify] writes for a body, in whichever of
    the two fields; [None] when it has neither. *)
Definition transmitted_limit (body : RequestBody) : option json_number :=
  match rb_max_completion_tokens body with
  | Some t => Some (stringify_number t)
  | None => stringify_number <$> rb_max_tokens body
  end.

(** A limit that is sent as a number within [lo, hi]. *)
Definition sent_within (lo hi : Z) (t : double) : Prop :=
  num_leb (num lo) t = true /\ num_leb t (num hi) = true /\
  stringify_number t = JsonNumber t.

(** A limit of at least [lo], sent as a number unless it is infinite. *)
Definition sent_from (lo : Z) (t : double) : Prop :=
  num_leb (num lo) t = true /\
  stringify_number t =
    match t with
    | S754_infinity _ => JsonNull
    | _ => JsonNumber t
    end.

End Dispatcher.

Arguments messages {Temp} _.
Arguments model {Temp} _.
Arguments temperature {Temp} _.
Arguments max_tokens {Temp} _.
Arguments max_completion_tokens {Temp} _.
Arguments streamMode {Temp} _.
Arguments cfg_model {Temp} _.
Arguments cfg_maxTokens {Temp} _.
Arguments cfg_temperature {Temp} _.
Arguments cfg_streamMode {Temp} _.
Arguments rb_model {Temp} _.
Arguments rb_messages {Temp} _.
Arguments rb_stream {Temp} _.
Arguments rb_temperature {Temp} _.
Arguments rb_max_tokens {Temp} _.
Arguments rb_max_completion_tokens {Temp} _.
Arguments requestedLimit {Temp} aiConfig req.
Arguments buildRequestBody {Temp} aiConfig req systemPrompt.
Arguments transmitted_limit {Temp} body.

(** ** Content extraction engine *)

Record VideoLink := {
  originalUrl : jsstring;
  videoId : jsstring;
  fullMatch : jsstring
}.

Definition youtubePattern : regex :=
  (Opt (lit (js "http") >> Opt (chr (code "s")) >> lit (js "://")) >>
   Opt (lit (js "www.")) >>
   (lit (js "youtube.com/watch?v=") <|> lit (js "youtu.be/") <|>
    lit (js "youtube.com/embed/") <|> lit (js "youtube.com/v/")) >>
   Grp 1 (plus is_id_char))%re.

(** The loop [while ((match = youtubePattern.exec(content)) !== null)].
    Between two calls the pattern object remembers [lastIndex], the end of
    the previous match; [s] is the text of [content] from there on.  Every
    match consumes at least one code unit, so [length content] rounds and
    the last failing call are all the loop can make. *)
Fixpoint detect_loop (fuel : nat) (content s : jsstring) : list VideoLink :=
  match fuel with
  | O => []
  | S fuel' =>
    match search youtubePattern content s with
    | None => []
    | Some m =>
      {| originalUrl := m0 m; videoId := group 1 m; fullMatch := m0 m |}
        :: detect_loop fuel' content (m_rest m)
    end
  end.

Definition detectVideoLinks (content : jsstring) : list VideoLink :=
  detect_loop (S (length content)) content content.

Definition videoPattern : regex :=
  (lit (js "【") >> Grp 1 (plus (is_not (code "】"))) >> lit (js "】"))%re.

(** [while ((match = videoPattern.exec(content)) !== null &&
           keywords.length < 4)] *)
Fixpoint keywords_loop (fuel : nat) (content s : jsstring)
    (keywords : list jsstring) : list jsstring :=
  match fuel with
  | O => keywords
  | S fuel' =>
    match search videoPattern content s with
    | None => keywords
    | Some m =>
      if Nat.ltb (length keywords) 4 then
        keywords_loop fuel' content (m_rest m)
          (keywords ++ [trim (group 1 m)])
      else keywords
    end
  end.

Definition extractYouTubeSearchKeywords (content : jsstring)
  : list jsstring :=
  keywords_loop (S (length content)) content content [].

Record MovieRecommendation := {
  title : jsstring;
  year : jsstring;
  genre : jsstring;
  description : jsstring
}.

Definition moviePattern : regex :=
  (lit (js "《") >> Grp 1 (plus (is_not (code "》"))) >> lit (js "》") >>
   Star is_space >>
   lit (js "(") >> Grp 2 (rep 4 (Cls is_digit)) >> lit (js ")") >>
   Star is_space >>
   lit (js "[") >> Grp 3 (plus (is_not (code "]"))) >> lit (js "]") >>
   Star is_space >> lit (js "-") >> Star is_space >>
   Grp 4 (Star is_dot))%re.

Definition PLACEHOLDER : jsstring := js "AI推荐影片".

(** The body of the loop over the lines. *)
Fixpoint recommend_loop (lines : list jsstring)
    (recommendations : list MovieRecommendation)
  : list MovieRecommendation :=
  match lines with
  | [] => recommendations
  | line :: lines' =>
    if Nat.leb 4 (length recommendations) then recommendations
    else
      match exec moviePattern line with
      | Some m =>
        recommend_loop lines'
          (recommendations ++
             [{| title := trim (group 1 m);
                 year := trim (group 2 m);
                 genre := trim (group 3 m);
                 description := or_else (trim (group 4 m)) PLACEHOLDER |}])
      | None => recommend_loop lines' recommendations
      end
  end.

Definition extractRecommendations (content : jsstring)
  : list MovieRecommendation :=
  recommend_loop (split LF content) [].

(** *** The vocabulary of the statements about extraction *)

(** A non-empty text of id characters. *)
Definition id_like (v : jsstring) : Prop :=
  v <> [] /\ forallb is_id_char v = true.



(** ** Enrichment fan-out

    The network is the part of the world the route talks to.  What it
    answers may depend on everything the request has asked before, so an
    answer is a function of the requests issued so far and of the new one;
    the route's own state is the list of the requests it has issued. *)

Inductive request :=
| OembedRequest (url : jsstring)
| SearchRequest (key keyword : jsstring).

Definition history := list request.

(** What the loop of [handleVideoLinkParsing] observes of one lookup. *)
Inductive oembed_outcome :=
| OembedRejects
  (** [fetch] rejects (a network error), or the body of a 2xx answer is
      not JSON: control reaches the [catch] block *)
| OembedNotOk
  (** an answer outside 2xx *)
| OembedOk (title author_name : option jsstring)
  (** a 2xx answer; [videoInfo?.title] and [videoInfo?.author_name],
      [None] where the field is absent *).

Record YoutubeVideoResult := {
  yv_id : jsstring;
  yv_title : jsstring;
  yv_description : jsstring;
  yv_thumbnail : jsstring;
  yv_channelTitle : jsstring;
  yv_publishedAt : jsstring
}.

(** What the loop of [searchYouTubeVideos] observes of one query. *)
Inductive search_outcome :=
| SearchRejects
  (** [fetch] rejects, the body is not JSON, or the first item lacks the
      fields that are read: control reaches the [catch] block *)
| SearchNotOk
  (** an answer outside 2xx *)
| SearchEmpty
  (** a 2xx answer without items *)
| SearchItem (video : YoutubeVideoResult)
  (** a 2xx answer; the six fields copied from its first item *).

Record VideoLinkResult := {
  vr_videoId : jsstring;
  vr_originalUrl : jsstring;
  vr_title : jsstring;
  vr_channelName : option jsstring;
  vr_thumbnail : option jsstring;
  vr_playable : bool;
  vr_embedUrl : option jsstring;
  vr_error : option jsstring
}.

Record YouTubeConfig := {
  yt_enabled : bool;
  (** the empty string when no key is configured *)
  yt_apiKey : jsstring
}.

Definition oembedUrl (videoId : jsstring) : jsstring :=
  js "https://www.youtube.com/oembed?url=https://www.youtube.com/watch?v="
    ++ videoId ++ js "&format=json".

Definition thumbnailUrl (videoId : jsstring) : jsstring :=
  js "https://img.youtube.com/vi/" ++ videoId ++ js "/mqdefault.jpg".

Definition embedUrl (videoId : jsstring) : jsstring :=
  js "https://www.youtube.com/embed/" ++ videoId ++ js "?autoplay=1&rel=0".

(** The two services the fan-out asks: the oEmbed endpoint, by URL, and
    the video search, by key and keyword. *)
Class Services := {
  oembed : history -> jsstring -> oembed_outcome;
  youtube_search : history -> jsstring -> jsstring -> search_outcome
}.

Section Enrichment.
Context `{Services}.

(** The entry pushed for one link, by the outcome of its lookup. *)
Definition parsedVideo (link : VideoLink) (o : oembed_outcome)
  : VideoLinkResult :=
  match o with
  | OembedOk videoTitle author_name =>
    {| vr_videoId := videoId link;
       vr_originalUrl := originalUrl link;
       vr_title := str_or_default videoTitle (js "直接播放的YouTube视频");
       vr_channelName := Some (str_or_default author_name (js "未知频道"));
       vr_thumbnail := Some (thumbnailUrl (videoId link));
       vr_playable := true;
       vr_embedUrl := Some (embedUrl (videoId link));
       vr_error := None |}
  | OembedNotOk =>
    {| vr_videoId := videoId link;
       vr_originalUrl := originalUrl link;
       vr_title := js "直接播放的YouTube视频";
       vr_channelName := Some (js "未知频道");
       vr_thumbnail := Some (thumbnailUrl (videoId link));
       vr_playable := true;
       vr_embedUrl := Some (embedUrl (videoId link));
       vr_error := None |}
  | OembedRejects =>
    {| vr_videoId := videoId link;
       vr_originalUrl := originalUrl link;
       vr_title := js "解析失败的视频";
       vr_channelName := None;
       vr_thumbnail := None;
       vr_playable := false;
       vr_embedUrl := None;
       vr_error := Some (js "无法获取视频信息") |}
  end.

Fixpoint handleVideoLinkParsing (videoLinks : list VideoLink) (h : history)
  : list VideoLinkResult * history :=
  match videoLinks with
  | [] => ([], h)
  | link :: rest =>
    let url := oembedUrl (videoId link) in
    let entry := parsedVideo link (oembed h url) in
    let (parsedVideos, h') :=
      handleVideoLinkParsing rest (h ++ [OembedRequest url]) in
    (entry :: parsedVideos, h')
  end.

Fixpoint search_loop (key : jsstring) (keywords : list jsstring)
    (videos : list YoutubeVideoResult) (h : history)
  : list YoutubeVideoResult * history :=
  match keywords with
  | [] => (videos, h)
  | keyword :: rest =>
    if Nat.leb 4 (length videos) then (videos, h)
    else
      let videos' :=
        match youtube_search h key keyword with
        | SearchItem video => videos ++ [video]
        | _ => videos
        end in
      search_loop key rest videos' (h ++ [SearchRequest key keyword])
  end.

(** [None] is the exception thrown when no key is configured. *)
Definition searchYouTubeVideos (keywords : list jsstring)
    (youtubeConfig : YouTubeConfig) (h : history)
  : option (list YoutubeVideoResult) * history :=
  if negb (nonempty (yt_apiKey youtubeConfig)) then (None, h)
  else
    let (videos, h') := search_loop (yt_apiKey youtubeConfig) keywords [] h in
    (Some videos, h').

(** [youtubeEnabled && youtubeConfig.apiKey && content.includes('【') &&
     content.includes('】')] *)
Definition isYouTubeRecommendation (youtubeConfig : YouTubeConfig)
    (content : jsstring) : bool :=
  yt_enabled youtubeConfig && nonempty (yt_apiKey youtubeConfig) &&
  includes (js "【") content && includes (js "】") content.

(** ** The answer without streaming *)

(** The fields of the JSON object that depend on the classification; [id],
    [object], [created], [model], [choices] and [usage] are copied from
    the upstream answer in all three objects. *)
Record Completion := {
  c_videoLinks : option (list VideoLinkResult);
  c_youtubeVideos : option (list YoutubeVideoResult);
  c_recommendations : option (list MovieRecommendation);
  c_type : option jsstring
}.

(** How many of the three payload fields an object carries. *)
Definition carried {A} (field : option A) : nat :=
  match field with Some _ => 1 | None => 0 end.

Definition payload_count (c : Completion) : nat :=
  carried (c_videoLinks c) + carried (c_youtubeVideos c)
  + carried (c_recommendations c).

Inductive response :=
| ErrorResponse (status : Z) (error : jsstring)
| CompletionResponse (c : Completion).

(** The upstream answer: without a first choice carrying a message, or
    with the content of that message ([None] when there is none). *)
Inductive ai_result :=
| NoMessage
| Message (content : option jsstring).

Definition nonStreaming (userMessage : jsstring)
    (youtubeConfig : YouTubeConfig) (aiResult : ai_result) (h : history)
  : response * history :=
  let videoLinks := detectVideoLinks userMessage in
  let hasVideoLinks := Nat.ltb 0 (length videoLinks) in
  match aiResult with
  | NoMessage =>
    (ErrorResponse 500 (js "AI服务响应格式异常，请稍后重试"), h)
  | Message content =>
    let aiContent := default [] content in
    if negb (nonempty aiContent) || negb (nonempty (trim aiContent)) then
      (ErrorResponse 500 (js "AI返回了空回复"), h)
    else if hasVideoLinks then
      let (parsedVideos, h') := handleVideoLinkParsing videoLinks h in
      (CompletionResponse
         {| c_videoLinks := Some parsedVideos;
            c_youtubeVideos := None;
            c_recommendations := None;
            c_type := Some (js "video_link_parse") |}, h')
    else
      let fallback h' :=
        (CompletionResponse
           {| c_videoLinks := None;
              c_youtubeVideos := None;
              c_recommendations := Some (extractRecommendations aiContent);
              c_type := None |}, h') in
      if isYouTubeRecommendation youtubeConfig aiContent then
        let searchKeywords := extractYouTubeSearchKeywords aiContent in
        match searchYouTubeVideos searchKeywords youtubeConfig h with
        | (Some youtubeVideos, h') =>
          (CompletionResponse
             {| c_videoLinks := None;
                c_youtubeVideos := Some youtubeVideos;
                c_recommendations := None;
                c_type := Some (js "youtube_recommend") |}, h')
        | (None, h') => fallback h'
        end
      else fallback h
  end.

(** The lookups made for a list of links, in order. *)
Definition lookups (links : list VideoLink) : history :=
  map (fun l => OembedRequest (oembedUrl (videoId l))) links.

End Enrichment.

(** ** SSE stream transcoder *)

(** A value of the language, as [JSON.parse] yields it or as a property
    access reads it.  Numbers are floating-point and stay abstract. *)
Inductive jsval (number : Type) :=
| JUndefined
| JNull
| JBool (b : bool)
| JNum (n : number)
| JStr (s : jsstring)
| JArr (l : list (jsval number))
| JObj (fields : list (jsstring * jsval number)).

Arguments JUndefined {number}.
Arguments JNull {number}.
Arguments JBool {number} b.
Arguments JNum {number} n.
Arguments JStr {number} s.
Arguments JArr {number} l.
Arguments JObj {number} fields.

(** What the transcoder takes from the runtime. *)
Class Runtime := {
  number : Type;
  (** all the route asks of a number is whether it is truthy *)
  number_truthy : number -> bool;
  (** [JSON.parse]; [None] is the [SyntaxError] *)
  JSON_parse : jsstring -> option (jsval number);
  (** the conversion to a string of a value that is not a string, as done
      by [fullContent += content] *)
  ToString_other : jsval number -> jsstring;
  (** [JSON.stringify] of [{ type: 'content', content }] *)
  stringify_content : jsval number -> jsstring;
  (** [JSON.stringify] of the three final objects [{ type, data }] *)
  stringify_recommendations : list MovieRecommendation -> jsstring;
  stringify_youtube_videos : list YoutubeVideoResult -> jsstring;
  stringify_video_links : list VideoLinkResult -> jsstring;
  (** [TextDecoder] in streaming mode: a state machine that reads one byte
      at a time and may hold back the bytes of an unfinished character *)
  dstate : Type;
  dstep : dstate -> N -> dstate * jsstring
}.

Section Transcoder.
Context `{Runtime} `{Services}.

Abbreviation jsvalue := (jsval number).

Fixpoint str_eqb (a b : jsstring) : bool :=
  match a, b with
  | [], [] => true
  | x :: a', y :: b' => (x =? y) && str_eqb a' b'
  | _, _ => false
  end.

(** The own property [name] of an object. *)
Fixpoint field (name : jsstring) (fields : list (jsstring * jsvalue)) : jsvalue :=
  match fields with
  | [] => JUndefined
  | (k, v) :: fields' => if str_eqb name k then v else field name fields'
  end.

(** [v.name], for a name that no prototype defines; [None] is the
    [TypeError] of reading a property of [undefined] or [null]. *)
Definition get (name : jsstring) (v : jsvalue) : option jsvalue :=
  match v with
  | JUndefined | JNull => None
  | JObj fields => Some (field name fields)
  | _ => Some JUndefined
  end.

(** [v?.name], for a name that no prototype defines. *)
Definition get_opt (name : jsstring) (v : jsvalue) : jsvalue :=
  match v with
  | JObj fields => field name fields
  | _ => JUndefined
  end.

(** [v?.[0]] *)
Definition index0_opt (v : jsvalue) : jsvalue :=
  match v with
  | JArr (x :: _) => x
  | JStr (c :: _) => JStr [c]
  | JObj fields => field (js "0") fields
  | _ => JUndefined
  end.

(** [parsed.choices?.[0]?.delta?.content] *)
Definition delta_content (parsed : jsvalue) : option jsvalue :=
  match get (js "choices") parsed with
  | None => None
  | Some choices =>
    Some (get_opt (js "content") (get_opt (js "delta") (index0_opt choices)))
  end.

Definition truthy (v : jsvalue) : bool :=
  match v with
  | JUndefined | JNull => false
  | JBool b => b
  | JNum n => number_truthy n
  | JStr s => nonempty s
  | JArr _ | JObj _ => true
  end.

Definition ToString (v : jsvalue) : jsstring :=
  match v with
  | JStr s => s
  | _ => ToString_other v
  end.

Inductive SSEEvent :=
| ContentDelta (content : jsvalue)
| Recommendations (data : list MovieRecommendation)
| YoutubeVideos (data : list YoutubeVideoResult)
| VideoLinks (data : list VideoLinkResult)
| Done.

(** The text handed to [controller.enqueue] for an event. *)
Definition wire (e : SSEEvent) : jsstring :=
  match e with
  | ContentDelta content =>
    js "data: " ++ stringify_content content ++ [LF; LF]
  | Recommendations data =>
    js "data: " ++ stringify_recommendations data ++ [LF; LF]
  | YoutubeVideos data =>
    js "data: " ++ stringify_youtube_videos data ++ [LF; LF]
  | VideoLinks data =>
    js "data: " ++ stringify_video_links data ++ [LF; LF]
  | Done => js "data: [DONE]" ++ [LF; LF]
  end.

(** [decoder.decode(value, { stream: true })] *)
Fixpoint decode (d : dstate) (value : list N) : dstate * jsstring :=
  match value with
  | [] => (d, [])
  | b :: value' =>
    let (d1, t1) := dstep d b in
    let (d2, t2) := decode d1 value' in
    (d2, t1 ++ t2)
  end.

(** The variables of [start] that live across reads, and the events
    enqueued so far. *)
Record tstate := {
  decoder : dstate;
  buffer : jsstring;
  fullContent : jsstring;
  sent : list SSEEvent
}.

(** The body of [for (const line of lines)], on the accumulator and the
    events. *)
Definition process_line (acc : jsstring * list SSEEvent) (line : jsstring)
  : jsstring * list SSEEvent :=
  let trimmedLine := trim line in
  if negb (nonempty trimmedLine) || str_eqb trimmedLine (js "data: [DONE]")
  then acc
  else if startsWith (js "data: ") trimmedLine then
    let jsonStr := slice 6 trimmedLine in
    match JSON_parse jsonStr with
    | None => acc
    | Some parsed =>
      match delta_content parsed with
      | None => acc
      | Some content =>
        if truthy content then
          (fst acc ++ ToString content, snd acc ++ [ContentDelta content])
        else acc
      end
    end
  else acc.

(** One round of the loop for a read that delivers [value]. *)
Definition on_chunk (st : tstate) (value : list N) : tstate :=
  let (d, text) := decode (decoder st) value in
  let buffer := buffer st ++ text in
  let lines := split LF buffer in
  let buffer := List.last lines [] in
  let lines := removelast lines in
  let (fullContent, sent) :=
    fold_left process_line lines (fullContent st, sent st) in
  {| decoder := d; buffer := buffer;
     fullContent := fullContent; sent := sent |}.

(** The round of the loop for the read that reports the end. *)
Definition on_done (videoLinks : list VideoLink)
    (youtubeConfig : YouTubeConfig) (fullContent : jsstring) (h : history)
  : list SSEEvent * history :=
  let hasVideoLinks := Nat.ltb 0 (length videoLinks) in
  if nonempty fullContent then
    let (ev1, h1) :=
      if hasVideoLinks then
        let (parsedVideos, h') := handleVideoLinkParsing videoLinks h in
        ([VideoLinks parsedVideos], h')
      else ([], h) in
    let (ev2, h2) :=
      if isYouTubeRecommendation youtubeConfig fullContent then
        let searchKeywords := extractYouTubeSearchKeywords fullContent in
        match searchYouTubeVideos searchKeywords youtubeConfig h1 with
        | (Some youtubeVideos, h') => ([YoutubeVideos youtubeVideos], h')
        | (None, h') => ([], h')
        end
      else
        let recommendations := extractRecommendations fullContent in
        if Nat.ltb 0 (length recommendations)
        then ([Recommendations recommendations], h1)
        else ([], h1) in
    (ev1 ++ ev2 ++ [Done], h2)
  else ([Done], h).

(** The upstream body as the reads deliver it: chunks of bytes, then the
    end of the stream or a failing read. *)
Inductive upstream_end := EndOfStream | ReadFails.

Inductive upstream_body :=
| NoBody
| Body (chunks : list (list N)) (fin : upstream_end).

Inductive stream_status := Closed | Errored.

Record stream_result := {
  enqueued : list SSEEvent;
  status : stream_status;
  (** [fullContent] when the loop was left *)
  accumulated : jsstring;
  requests : history
}.

Fixpoint read_loop (videoLinks : list VideoLink)
    (youtubeConfig : YouTubeConfig) (chunks : list (list N))
    (fin : upstream_end) (st : tstate) (h : history) : stream_result :=
  match chunks with
  | value :: chunks' =>
    read_loop videoLinks youtubeConfig chunks' fin (on_chunk st value) h
  | [] =>
    match fin with
    | EndOfStream =>
      let (final, h') :=
        on_done videoLinks youtubeConfig (fullContent st) h in
      {| enqueued := sent st ++ final; status := Closed;
         accumulated := fullContent st; requests := h' |}
    | ReadFails =>
      {| enqueued := sent st; status := Errored;
         accumulated := fullContent st; requests := h |}
    end
  end.

(** [start(controller)] of the stream returned by the route; [d0] is the
    state of a fresh decoder. *)
Definition start (d0 : dstate) (userMessage : jsstring)
    (youtubeConfig : YouTubeConfig) (body : upstream_body) (h : history)
  : stream_result :=
  let videoLinks := detectVideoLinks userMessage in
  match body with
  | NoBody =>
    {| enqueued := []; status := Closed; accumulated := []; requests := h |}
  | Body chunks fin =>
    read_loop videoLinks youtubeConfig chunks fin
      {| decoder := d0; buffer := []; fullContent := []; sent := [] |} h
  end.

(** What the client receives. *)
Definition wire_stream (r : stream_result) : list jsstring :=
  map wire (enqueued r).

(** *** The vocabulary of the statements about streams *)

Definition is_content (e : SSEEvent) : bool :=
  match e with ContentDelta _ => true | _ => false end.

Definition structured (e : SSEEvent) : bool :=
  match e with
  | Recommendations _ | YoutubeVideos _ | VideoLinks _ => true
  | _ => false
  end.

Definition DONE_LINE : jsstring := js "data: [DONE]" ++ [LF; LF].

End Transcoder.

End Relay.

(* ===================================================================== *)
(** * The YouTube proxy route                                              *)
(* ===================================================================== *)

Module Proxy.
Import JS.

(** Invidious instances, in the order they are tried. *)
Definition INVIDIOUS_INSTANCES : list jsstring :=
  [js "https://inv.nadeko.net";
   js "https://invidious.nerdvpn.de";
   js "https://invidious.jing.rocks";
   js "https://invidious.privacyredirect.com";
   js "https://yt.artemislena.eu"].

(** ** Headers

    A [Headers] object ignores the case of a name: it keeps every name in
    lower case, and so does the map that represents it. *)
Definition lower (c : N) : N :=
  if (0x41 <=? c) && (c <=? 0x5A) then c + 0x20 else c.

Abbreviation headers := (gmap jsstring jsstring).

Definition hset (name value : jsstring) (hs : headers) : headers :=
  <[map lower name := value]> hs.

(** [hs.get(name)]; [None] is [null]. *)
Definition hget (name : jsstring) (hs : headers) : option jsstring :=
  hs !! map lower name.

(** HTTP whitespace: tab, line feed, carriage return and space. *)
Definition is_http_whitespace (c : N) : bool :=
  (c =? 0x09) || (c =? 0x0A) || (c =? 0x0D) || (c =? 0x20).

Fixpoint strip_start (s : jsstring) : jsstring :=
  match s with
  | c :: s' => if is_http_whitespace c then strip_start s' else s
  | [] => []
  end.

(** The normalization of a header value: without the HTTP whitespace at
    its start and at its end. *)
Definition normalize (v : jsstring) : jsstring :=
  rev (strip_start (rev (strip_start v))).

(** A code unit that a header value may hold: a byte other than NUL,
    line feed and carriage return. *)
Definition is_value_byte (c : N) : bool :=
  (c <=? 0xFF) && negb ((c =? 0x00) || (c =? 0x0A) || (c =? 0x0D)).

(** The value that [Headers.set] stores for [v]: the normalized value
    when [v] is a string of bytes and its normalization holds no NUL and
    no newline; [None] is the [TypeError] it throws otherwise. *)
Definition header_value (v : jsstring) : option jsstring :=
  if forallb (fun c => c <=? 0xFF) v then
    if forallb is_value_byte (normalize v) then Some (normalize v)
    else None
  else None.

(** A value as a [Headers] object returns it: normalized bytes. *)
Definition is_header_value (v : jsstring) : bool :=
  forallb is_value_byte v
  && match v with c :: _ => negb (is_http_whitespace c) | [] => true end
  && match rev v with c :: _ => negb (is_http_whitespace c) | [] => true end.

(** [hs.set(name, value)] for a valid name; [None] when it throws. *)
Definition Headers_set (name value : jsstring) (hs : headers)
  : option headers :=
  v ← header_value value; Some (hset name v hs).

(** A null body status. *)
Definition null_body_status (status : Z) : bool :=
  ((status =? 101) || (status =? 103) || (status =? 204)
   || (status =? 205) || (status =? 304))%Z.

(** Whether [NextResponse.json(body, { status })] makes a response: it
    throws for a status outside 200..599 and for a null body status. *)
Definition json_status (status : Z) : bool :=
  ((200 <=? status) && (status <=? 599))%Z && negb (null_body_status status).

(** ** The network *)

Record fetch_request := {
  rq_url : jsstring;
  rq_headers : headers
}.

(** The values of [rs_headers] are read with [get] from the [Headers] of
    the response; [rs_body] is what the reader of [response.body]
    delivers, which is nothing for a null body status. *)
Record fetch_response := {
  rs_status : Z;
  rs_headers : headers;
  rs_body : list N
}.

(** [response.ok] *)
Definition ok (r : fetch_response) : bool :=
  ((200 <=? rs_status r) && (rs_status r <=? 299))%Z.

(** A fetch rejects (no route to the host, or the time limit of its
    [AbortSignal] passes) or yields a response. *)
Inductive fetch_outcome :=
| Rejects
| Responds (r : fetch_response).

Definition history := list fetch_request.

(** ** The data of an instance *)

(** A property that may be absent or [null]; a value (a string or a
    number) is given by the text that [toString] and a template literal
    make of it. *)
Inductive property :=
| Undefined
| Null
| Value (text : jsstring).

Record Format := {
  f_itag : property;
  f_url : option jsstring;
  f_type : option jsstring;
  f_qualityLabel : option jsstring;
  f_audioQuality : option jsstring;
  f_bitrate : option jsstring
}.

Record VideoInfo := {
  vi_title : option jsstring;
  vi_author : option jsstring;
  (** [videoInfo.videoThumbnails?.[0]?.url] *)
  vi_thumbnail : option jsstring;
  (** [None] where the answer has no such list *)
  vi_adaptiveFormats : option (list Format);
  vi_formatStreams : option (list Format)
}.

Record GetRequest := {
  (** the query parameters; [None] is [null] *)
  q_v : option jsstring;
  q_type : option jsstring;
  q_itag : option jsstring;
  (** [request.headers.get('range')] *)
  h_range : option jsstring;
  (** [new URL(request.url).origin] *)
  origin : jsstring
}.

Record StreamEntry := {
  se_quality : option jsstring;
  se_url : jsstring;
  se_directUrl : option jsstring;
  se_type : option jsstring;
  se_bitrate : option jsstring
}.

Record InfoBody := {
  ib_videoId : jsstring;
  ib_title : option jsstring;
  ib_author : option jsstring;
  ib_thumbnail : option jsstring;
  ib_videoStreams : list StreamEntry;
  ib_audioStreams : list StreamEntry;
  ib_combinedStream : option StreamEntry;
  ib_instance : jsstring
}.

Inductive proxy_response :=
| JsonError (status : Z) (error : jsstring)
| JsonInfo (body : InfoBody)
| Stream (status : Z) (hs : headers) (body : list N).

(** The headers of a response of the route; a JSON response has the one
    header that [NextResponse.json] sets. *)
Definition response_headers (r : proxy_response) : headers :=
  match r with
  | Stream _ hs _ => hs
  | _ => hset (js "Content-Type") (js "application/json") ∅
  end.

Definition response_status (r : proxy_response) : Z :=
  match r with
  | JsonError status _ => status
  | JsonInfo _ => 200
  | Stream status _ _ => status
  end.

(** [/^[a-zA-Z0-9_-]{11}$/] *)
Definition videoIdPattern : regex :=
  (Bol >> rep 11 (Cls is_id_char) >> Eol)%re.

(** The test of an optional string for truthiness. *)
Definition present (o : option jsstring) : bool :=
  match o with
  | Some s => nonempty s
  | None => false
  end.

Definition USER_AGENT : jsstring :=
  js "Mozilla/5.0 (Windows NT 10.0; Win64; x64) AppleWebKit/537.36".

Class Network := {
  (** the answer to a fetch, given the fetches made before it *)
  net : history -> fetch_request -> fetch_outcome;
  (** [response.json()] on the answer to a video query; [None] when the
      body is not the JSON text of an object *)
  parse_video_info : list N -> option VideoInfo
}.

Section Route.
Context `{Network}.

Definition statsRequest (instance : jsstring) : fetch_request :=
  {| rq_url := instance ++ js "/api/v1/stats"; rq_headers := ∅ |}.

Definition videoRequest (instance videoId : jsstring) : fetch_request :=
  {| rq_url := instance ++ js "/api/v1/videos/" ++ videoId;
     rq_headers := ∅ |}.

(** The loop of [getWorkingInstance] over the instances still to try. *)
Fixpoint probe_instances (instances : list jsstring) (h : history)
  : option jsstring * history :=
  match instances with
  | [] => (None, h)
  | instance :: rest =>
    let rq := statsRequest instance in
    match net h rq with
    | Responds response =>
      if ok response then (Some instance, h ++ [rq])
      else probe_instances rest (h ++ [rq])
    | Rejects => probe_instances rest (h ++ [rq])
    end
  end.

Definition getWorkingInstance (h : history) : option jsstring * history :=
  probe_instances INVIDIOUS_INSTANCES h.

(** [None] is an exception: the fetch rejects, the status is outside 2xx,
    or the body is not JSON. *)
Definition getVideoInfo (videoId instance : jsstring) (h : history)
  : option VideoInfo * history :=
  let rq := videoRequest instance videoId in
  match net h rq with
  | Rejects => (None, h ++ [rq])
  | Responds response =>
    if negb (ok response) then (None, h ++ [rq])
    else (parse_video_info (rs_body response), h ++ [rq])
  end.

(** [`${x}`] *)
Definition template (x : property) : jsstring :=
  match x with
  | Undefined => js "undefined"
  | Null => js "null"
  | Value text => text
  end.

Definition proxyUrl (proxyBase videoId kind : jsstring) (f : Format)
  : jsstring :=
  proxyBase ++ js "/api/proxy/youtube?v=" ++ videoId ++ js "&type=" ++ kind
    ++ js "&itag=" ++ template (f_itag f).

(** [f.type?.includes(word)] *)
Definition type_includes (word : jsstring) (f : Format) : bool :=
  match f_type f with
  | Some t => includes word t
  | None => false
  end.

Definition infoBody (proxyBase videoId instance : jsstring)
    (videoInfo : VideoInfo) : InfoBody :=
  let adaptiveFormats := default [] (vi_adaptiveFormats videoInfo) in
  let formatStreams := default [] (vi_formatStreams videoInfo) in
  let videoStreams :=
    map (fun f =>
           {| se_quality := f_qualityLabel f;
              se_url := proxyUrl proxyBase videoId (js "video") f;
              se_directUrl := f_url f;
              se_type := f_type f;
              se_bitrate := None |})
      (List.filter (type_includes (js "video")) formatStreams) in
  let audioStreams :=
    map (fun f =>
           {| se_quality := f_audioQuality f;
              se_url := proxyUrl proxyBase videoId (js "audio") f;
              se_directUrl := f_url f;
              se_type := f_type f;
              se_bitrate := f_bitrate f |})
      (List.filter (type_includes (js "audio")) adaptiveFormats) in
  {| ib_videoId := videoId;
     ib_title := vi_title videoInfo;
     ib_author := vi_author videoInfo;
     ib_thumbnail := vi_thumbnail videoInfo;
     ib_videoStreams := videoStreams;
     ib_audioStreams := audioStreams;
     ib_combinedStream :=
       match formatStreams with
       | f :: _ =>
         Some {| se_quality := f_qualityLabel f;
                 se_url := proxyUrl proxyBase videoId (js "video") f;
                 se_directUrl := f_url f;
                 se_type := None;
                 se_bitrate := None |}
       | [] => None
       end;
     ib_instance := instance |}.

(** The headers of the request for the media bytes; [range] is read from
    the [Headers] of the inbound request. *)
Definition streamRequestHeaders (range : option jsstring) : headers :=
  let hs := hset (js "User-Agent") USER_AGENT ∅ in
  match range with
  | Some r => if nonempty r then hset (js "Range") r hs else hs
  | None => hs
  end.

(** [if (value) responseHeaders.set(name, value)] *)
Definition set_if_present (name : jsstring) (value : option jsstring)
    (hs : headers) : option headers :=
  match value with
  | Some v => if nonempty v then Headers_set name v hs else Some hs
  | None => Some hs
  end.

(** The headers of the response that carries the media bytes; [None]
    when a [set] throws. *)
Definition streamResponseHeaders (format : Format)
    (streamResponse : fetch_response) : option headers :=
  hs ← Headers_set (js "Content-Type")
         (str_or_default (f_type format) (js "video/mp4")) ∅;
  hs ← Headers_set (js "Access-Control-Allow-Origin") (js "*") hs;
  hs ← Headers_set (js "Access-Control-Allow-Methods")
         (js "GET, HEAD, OPTIONS") hs;
  hs ← Headers_set (js "Access-Control-Allow-Headers") (js "Range") hs;
  hs ← Headers_set (js "Accept-Ranges") (js "bytes") hs;
  let contentLength := hget (js "Content-Length") (rs_headers streamResponse) in
  hs ← set_if_present (js "Content-Length") contentLength hs;
  let contentRange := hget (js "Content-Range") (rs_headers streamResponse) in
  set_if_present (js "Content-Range") contentRange hs.

(** The part of [GET] that passes the media bytes through, from the
    format found for the [itag] on.  What throws is answered by the
    [catch] of the route. *)
Definition proxyStream (format : Format) (directUrl : jsstring)
    (range : option jsstring) (h : history) : proxy_response * history :=
  let rq := {| rq_url := directUrl;
               rq_headers := streamRequestHeaders range |} in
  let failed := JsonError 500 (js "Proxy failed") in
  match net h rq with
  | Rejects => (failed, h ++ [rq])
  | Responds streamResponse =>
    if negb (ok streamResponse) && negb (rs_status streamResponse =? 206)%Z
    then
      (if json_status (rs_status streamResponse)
       then JsonError (rs_status streamResponse) (js "Failed to fetch stream")
       else failed,
       h ++ [rq])
    else
      match streamResponseHeaders format streamResponse with
      | Some responseHeaders =>
        (Stream (rs_status streamResponse) responseHeaders
           (rs_body streamResponse), h ++ [rq])
      | None => (failed, h ++ [rq])
      end
  end.

(** [f.itag?.toString() === itag] *)
Definition has_itag (itag : jsstring) (f : Format) : bool :=
  match f_itag f with
  | Value text => bool_decide (text = itag)
  | _ => false
  end.

Definition GET (request : GetRequest) (h : history)
  : proxy_response * history :=
  let type := str_or_default (q_type request) (js "info") in
  match q_v request with
  | None => (JsonError 400 (js "Missing video ID"), h)
  | Some videoId =>
    if negb (nonempty videoId) then
      (JsonError 400 (js "Missing video ID"), h)
    else if negb (test videoIdPattern videoId) then
      (JsonError 400 (js "Invalid video ID format"), h)
    else
      match getWorkingInstance h with
      | (None, h1) => (JsonError 503 (js "No available proxy instance"), h1)
      | (Some instance, h1) =>
        if bool_decide (type = js "info") then
          match getVideoInfo videoId instance h1 with
          | (None, h2) => (JsonError 500 (js "Proxy failed"), h2)
          | (Some videoInfo, h2) =>
            (JsonInfo (infoBody (origin request) videoId instance videoInfo),
             h2)
          end
        else if negb (present (q_itag request)) then
          (JsonError 400 (js "Missing itag parameter"), h1)
        else
          let itag := default [] (q_itag request) in
          match getVideoInfo videoId instance h1 with
          | (None, h2) => (JsonError 500 (js "Proxy failed"), h2)
          | (Some videoInfo, h2) =>
            let allFormats :=
              default [] (vi_formatStreams videoInfo)
                ++ default [] (vi_adaptiveFormats videoInfo) in
            match List.find (has_itag itag) allFormats with
            | None => (JsonError 404 (js "Stream not found"), h2)
            | Some format =>
              if negb (present (f_url format)) then
                (JsonError 404 (js "Stream not found"), h2)
              else
                proxyStream format (default [] (f_url format))
                  (h_range request) h2
            end
          end
      end
  end.

(** *** The vocabulary of the statements about discovery *)

(** Whether the probe of [instance] succeeds when it is made after the
    fetches [h]. *)
Definition alive (h : history) (instance : jsstring) : bool :=
  match net h (statsRequest instance) with
  | Responds response => ok response
  | Rejects => false
  end.

(** The probes of a list of instances, in order. *)
Definition probes (instances : list jsstring) : history :=
  map statsRequest instances.

(** A header value read with [get] and tested for truthiness. *)
Definition truthy_header (o : option jsstring) : option jsstring :=
  match o with
  | Some v => if nonempty v then Some v else None
  | None => None
  end.

(** What a header holds that is set to a value when there is one: [None]
    when the [set] throws, [Some None] when there is nothing to set. *)
Definition stored (o : option jsstring) : option (option jsstring) :=
  match o with
  | Some v => Some <$> header_value v
  | None => Some None
  end.

End Route.

(** The answer to [OPTIONS]. *)
Definition OPTIONS : Z * headers :=
  (204%Z,
   hset (js "Access-Control-Allow-Origin") (js "*")
     (hset (js "Access-Control-Allow-Methods") (js "GET, HEAD, OPTIONS")
        (hset (js "Access-Control-Allow-Headers") (js "Range, Content-Type")
           (hset (js "Access-Control-Max-Age") (js "86400") ∅)))).

End Proxy.

(* ===================================================================== *)
(** * Worlds and inputs for the examples                                  *)
(* ===================================================================== *)

Module Fixtures.
Import JS Relay.

(** A text in double quotes. *)
Definition q (s : string) : jsstring := [0x22] ++ js s ++ [0x22].

(** The JSON text [{"choices":[{"delta":DELTA}]}]. *)
Definition chunk_json (delta : jsstring) : jsstring :=
  js "{" ++ q "choices" ++ js ":[{" ++ q "delta" ++ js ":" ++ delta
    ++ js "}]}".

(** The value of that text. *)
Definition chunk_value (fields : list (jsstring * jsval Z)) : jsval Z :=
  JObj [(js "choices", JArr [JObj [(js "delta", JObj fields)]])].

Definition json_hi : jsstring :=
  chunk_json (js "{" ++ q "content" ++ js ":" ++ q "Hi" ++ js "}").
Definition json_empty : jsstring :=
  chunk_json (js "{" ++ q "content" ++ js ":" ++ [0x22; 0x22] ++ js "}").
Definition json_absent : jsstring :=
  chunk_json (js "{" ++ q "role" ++ js ":" ++ q "assistant" ++ js "}").

(** [JSON.parse] on the texts above; any other text is taken for
    malformed. *)
Definition parse_table : list (jsstring * jsval Z) :=
  [(json_hi, chunk_value [(js "content", JStr (js "Hi"))]);
   (json_empty, chunk_value [(js "content", JStr [])]);
   (json_absent, chunk_value [(js "role", JStr (js "assistant"))])].

Definition table_parse (s : jsstring) : option (jsval Z) :=
  match List.find (fun kv => bool_decide (fst kv = s)) parse_table with
  | Some kv => Some (snd kv)
  | None => None
  end.

(** A runtime with integers for numbers, the table for [JSON.parse] and a
    decoder of one-byte characters. *)
Definition runtime : Runtime :=
  {| number := Z;
     number_truthy := fun n => negb (n =? 0)%Z;
     JSON_parse := table_parse;
     ToString_other := fun _ => [];
     stringify_content := fun _ => js "{}";
     stringify_recommendations := fun _ => js "{}";
     stringify_youtube_videos := fun _ => js "{}";
     stringify_video_links := fun _ => js "{}";
     dstate := unit;
     dstep := fun d b => (d, [b]) |}.

(** No service can be reached. *)
Definition offline : Services :=
  {| oembed := fun _ _ => OembedRejects;
     youtube_search := fun _ _ _ => SearchRejects |}.

(** The oEmbed endpoint knows no video. *)
Definition unknown_videos : Services :=
  {| oembed := fun _ _ => OembedNotOk;
     youtube_search := fun _ _ _ => SearchEmpty |}.

(** The first lookup of a request fails on the network, the second is
    answered 404, the others succeed. *)
Definition flaky : Services :=
  {| oembed := fun h _ =>
       match length h with
       | O => OembedRejects
       | S O => OembedNotOk
       | _ => OembedOk (Some (js "Never Gonna Give You Up")) None
       end;
     youtube_search := fun _ _ _ => SearchEmpty |}.

Definition youtube_off : YouTubeConfig :=
  {| yt_enabled := false; yt_apiKey := [] |}.

(** A configuration for a standard model, and a request whose
    [max_tokens] was written [1e400]. *)
Definition deepseek : AIConfig Z :=
  {| cfg_model := js "deepseek-chat"; cfg_maxTokens := num 4000;
     cfg_temperature := 1%Z; cfg_streamMode := None |}.

Definition unbounded_request : ChatRequest Z :=
  {| messages := [{| msg_role := user; msg_content := js "hi" |}];
     model := None; temperature := None;
     max_tokens := Some (S754_infinity false);
     max_completion_tokens := None; streamMode := None |}.

(** A request for a model of the gpt-5 class with a limit of 100. *)
Definition small_request : ChatRequest Z :=
  {| messages := [{| msg_role := user; msg_content := js "hi" |}];
     model := Some (js "gpt-5-mini"); temperature := None;
     max_tokens := Some (num 100);
     max_completion_tokens := None; streamMode := None |}.

Definition link_message : jsstring := js "https://youtu.be/dQw4w9WgXcQ".
Definition short_link_message : jsstring := js "https://youtu.be/abc".
Definition movie_reply : jsstring := js "《盗梦空间》 (2010) [科幻] - 梦境".

Import Proxy.

(** No instance can be reached. *)
Definition all_down : Network :=
  {| net := fun _ _ => Rejects; parse_video_info := fun _ => None |}.

Definition response_200 : fetch_response :=
  {| rs_status := 200; rs_headers := ∅; rs_body := [] |}.

(** Only the third instance answers its probe. *)
Definition third_alive : Network :=
  {| net := fun _ rq =>
       if bool_decide
            (rq_url rq = js "https://invidious.jing.rocks/api/v1/stats")
       then Responds response_200 else Rejects;
     parse_video_info := fun _ => None |}.

(** The answer of a media host to a range request. *)
Definition partial_content : fetch_response :=
  {| rs_status := 206;
     rs_headers :=
       hset (js "Content-Type") (js "audio/webm")
         (hset (js "Content-Length") (js "100")
            (hset (js "Content-Range") (js "bytes 100-199/1000")
               (hset (js "Accept-Ranges") (js "none") ∅)));
     rs_body := [1; 2; 3] |}.

Definition media_host : Network :=
  {| net := fun _ _ => Responds partial_content;
     parse_video_info := fun _ => None |}.

Definition mp4_format : Format :=
  {| f_itag := Value (js "18");
     f_url := Some (js "https://media.example/videoplayback");
     f_type := Some (js "video/mp4");
     f_qualityLabel := Some (js "360p");
     f_audioQuality := None;
     f_bitrate := None |}.

(** A media host that answers 304, and a format whose type holds code
    units that are no bytes. *)
Definition not_modified : Network :=
  {| net := fun _ _ =>
       Responds {| rs_status := 304; rs_headers := ∅; rs_body := [] |};
     parse_video_info := fun _ => None |}.

Definition labelled_format : Format :=
  {| f_itag := Null;
     f_url := Some (js "https://media.example/videoplayback");
     f_type := Some (js "video/mp4; 高清");
     f_qualityLabel := Some (js "360p");
     f_audioQuality := None;
     f_bitrate := None |}.

Definition info_request : GetRequest :=
  {| q_v := Some (js "dQw4w9WgXcQ");
     q_type := Some (js "info");
     q_itag := None;
     h_range := None;
     origin := js "https://tv.example" |}.

End Fixtures.

(* ===================================================================== *)
(** * The vocabulary of further statements                                 *)
(* ===================================================================== *)

Module RelayNotions.
Import JS Relay.

(** Texts and gaps in turn: [g1 ++ u1 ++ g2 ++ u2 ++ ...]. *)
Fixpoint weave (gaps urls : list jsstring) : jsstring :=
  match gaps, urls with
  | g :: gaps', u :: urls' => g ++ u ++ weave gaps' urls'
  | _, _ => []
  end.

Section Streams.
Context `{Runtime}.

(** The text a content event adds to the accumulator. *)
Definition fragment (e : SSEEvent) : jsstring :=
  match e with
  | ContentDelta content => ToString content
  | _ => []
  end.

Definition fragments (events : list SSEEvent) : jsstring :=
  concat (map fragment events).

(** The lines the loop passes over: blank lines, the upstream sentinel,
    lines that are not data lines, and data lines whose text is not JSON
    or is [null]. *)
Definition skipped (line : jsstring) : bool :=
  let trimmedLine := trim line in
  negb (nonempty trimmedLine) || str_eqb trimmedLine (js "data: [DONE]")
  || negb (startsWith (js "data: ") trimmedLine)
  || match JSON_parse (slice 6 trimmedLine) with
     | None => true
     | Some parsed =>
       match delta_content parsed with None => true | Some _ => false end
     end.

End Streams.

(** A title between full-width brackets somewhere in [content], with the
    keyword that is made of it. *)
Definition bracketed_in (content kw : jsstring) : Prop :=
  exists raw,
    kw = trim raw /\ raw <> [] /\
    forallb (is_not (code "】")) raw = true /\
    includes (js "【" ++ raw ++ js "】") content = true.


End RelayNotions.

(* ===================================================================== *)
(** * The chat relay route as a whole                                      *)
(* ===================================================================== *)

Module RelayRoute.
Import JS Constants Relay.

Section Route.
Context {Temp : Type} `{Runtime} `{Services}.

Record AIRecommendConfig := {
  enabled : bool;
  (** the empty string when unset *)
  apiKey : jsstring;
  apiUrl : jsstring;
  settings : AIConfig Temp
}.

(** The answer of the upstream API to the one request of a call. *)
Inductive upstream_answer :=
| UpTimeout
  (** the fetch is aborted after 60 seconds *)
| UpRejects (message : jsstring)
  (** the fetch fails otherwise, with an error of this message *)
| UpError (status : Z) (errorData : jsstring)
  (** an answer outside 2xx, with its body as text *)
| UpOk (json : jsstring + ai_result) (body : upstream_body)
  (** a 2xx answer: what [response.json()] gives (on the left the
      message of the error it throws) and what the reader of the body
      delivers *).

(** What the collaborators of the route answer during one call. *)
Record Call := {
  (** [authInfo.username]; [None] without authentication *)
  authUser : option jsstring;
  (** [hasSpecialFeaturePermission(username, 'ai-recommend', ...)] *)
  hasPermission : bool;
  (** [adminConfig.AIRecommendConfig] *)
  aiRecommendConfig : option AIRecommendConfig;
  (** [adminConfig.YouTubeConfig], disabled when absent *)
  youtubeConfig : YouTubeConfig;
  (** the body of the request *)
  chat : ChatRequest Temp;
  (** [db.getCache] for the key made of the content of a message *)
  getCache : jsstring -> jsval number;
  (** the prompt made by [generateSystemPrompt] *)
  systemPrompt : jsstring;
  upstream : jsstring -> jsstring -> RequestBody Temp -> upstream_answer;
  (** the state of a fresh [TextDecoder] *)
  decoder0 : dstate
}.

Inductive post_response :=
| JsonError (status : Z) (error : jsstring)
| UpstreamError (error : jsstring) (details : jsval number) (status : Z)
| Cached (value : jsval number)
| Answer (r : response)
| EventStream (r : stream_result).

(** The HTTP status of an answer. *)
Definition http_status (r : post_response) : Z :=
  match r with
  | JsonError status _ => status
  | UpstreamError _ _ _ => 500
  | Cached _ => 200
  | Answer (ErrorResponse status _) => status
  | Answer (CompletionResponse _) => 200
  | EventStream _ => 200
  end.

Record post_result := {
  answer : post_response;
  (** the request made to the upstream API: endpoint, key and body *)
  dispatched : option (jsstring * jsstring * RequestBody Temp);
  (** the lookups and searches made *)
  lookups : history
}.

(** The message of the answer to an upstream error, by its status. *)
Definition upstreamErrorMessage (status : Z) : jsstring :=
  if (status =? 401)%Z then js "API密钥无效，请联系管理员检查配置"
  else if (status =? 429)%Z then js "API请求频率限制，请稍后重试"
  else if (status =? 400)%Z then js "请求参数错误，请检查输入内容"
  else if (500 <=? status)%Z then js "AI服务器错误，请稍后重试"
  else js "AI服务暂时不可用，请稍后重试".

(** The details of that answer: the message of a JSON error body, or the
    first 200 code units of a body that is not JSON. *)
Definition upstreamErrorDetails (errorData : jsstring) : jsval number :=
  match JSON_parse errorData with
  | None => JStr (take 200 errorData)
  | Some parsedError =>
    match get (js "error") parsedError with
    | None => JStr (take 200 errorData)
    | Some error =>
      let message := get_opt (js "message") error in
      if truthy message then message else JStr []
    end
  end.

(** The last message, whose content is scanned for links. *)
Definition userMessageOf (messages : list OpenAIMessage) : jsstring :=
  match last messages with
  | Some m => msg_content m
  | None => []
  end.

(** Whether the cache is read: one short message of the user. *)
Definition cacheable (messages : list OpenAIMessage) : option jsstring :=
  match messages with
  | [m] =>
    match msg_role m with
    | user =>
      if Nat.ltb (length (msg_content m)) 50 then Some (msg_content m)
      else None
    | _ => None
    end
  | _ => None
  end.

(** The message of the answer made in the outermost [catch], by the
    message of the error caught. *)
Definition caughtErrorMessage (message : jsstring) : jsstring :=
  if includes (js "fetch") message then js "无法连接到AI服务，请检查网络连接"
  else if includes (js "timeout") message then
    js "AI服务响应超时，请稍后重试"
  else if includes (js "JSON") message then js "AI服务响应格式错误"
  else js "服务器内部错误".

(** The [try] block of the route, entered once the gates are passed and
    the cache gave nothing: one request to the upstream API, and the
    answer made from what comes back. *)
Definition forward (call : Call) (aiConfig : AIRecommendConfig)
    (h : history) : post_result :=
  let messages := messages (chat call) in
  let userMessage := userMessageOf messages in
  let requestBody :=
    buildRequestBody (settings aiConfig) (chat call) (systemPrompt call) in
  let endpoint := buildEndpoint (apiUrl aiConfig) in
  let sent := Some (endpoint, apiKey aiConfig, requestBody) in
  match upstream call endpoint (apiKey aiConfig) requestBody with
  | UpTimeout =>
    {| answer := JsonError 504 (js "AI服务响应超时（60秒）");
       dispatched := sent; lookups := h |}
  | UpRejects message =>
    {| answer := JsonError 500 (caughtErrorMessage message);
       dispatched := sent; lookups := h |}
  | UpError status errorData =>
    {| answer :=
         UpstreamError (upstreamErrorMessage status)
           (upstreamErrorDetails errorData) status;
       dispatched := sent; lookups := h |}
  | UpOk json body =>
    if negb (rb_stream requestBody) then
      match json with
      | inl message =>
        {| answer := JsonError 500 (caughtErrorMessage message);
           dispatched := sent; lookups := h |}
      | inr aiResult =>
        let (r, h') :=
          nonStreaming userMessage (youtubeConfig call) aiResult h in
        {| answer := Answer r; dispatched := sent; lookups := h' |}
      end
    else
      let r := start (decoder0 call) userMessage (youtubeConfig call)
                 body h in
      {| answer := EventStream r; dispatched := sent;
         lookups := requests r |}
  end.

Definition POST (call : Call) (h : history) : post_result :=
  let stop status error :=
    {| answer := JsonError status error; dispatched := None;
       lookups := h |} in
  if negb (JS.nonempty (default [] (authUser call))) then
    stop 401%Z (js "Unauthorized")
  else if negb (hasPermission call) then
    stop 403%Z (js "您无权使用AI推荐功能，请联系管理员开通权限")
  else
    match aiRecommendConfig call with
    | None => stop 403%Z (js "AI推荐功能未启用")
    | Some aiConfig =>
      if negb (enabled aiConfig) then stop 403%Z (js "AI推荐功能未启用")
      else if negb (nonempty (apiKey aiConfig))
              || negb (nonempty (apiUrl aiConfig)) then
        stop 500%Z (js "AI推荐功能配置不完整，请联系管理员")
      else
        match messages (chat call) with
        | [] => stop 400%Z (js "Invalid messages format")
        | _ :: _ =>
          let cachedResponse :=
            match cacheable (messages (chat call)) with
            | Some content => getCache call content
            | None => JNull
            end in
          if truthy cachedResponse then
            {| answer := Cached cachedResponse; dispatched := None;
               lookups := h |}
          else forward call aiConfig h
        end
    end.

End Route.

Arguments AIRecommendConfig : clear implicits.
Arguments upstream_answer : clear implicits.
Arguments Call Temp {_}.
Arguments post_result Temp {_}.

End RelayRoute.

(* ===================================================================== *)
(** * Calls for the examples                                               *)
(* ===================================================================== *)

Module RouteFixtures.
Import JS Relay RelayRoute.

Definition openai : AIRecommendConfig Z :=
  {| enabled := true;
     apiKey := js "sk-test";
     apiUrl := js "https://api.openai.com/v1/";
     settings :=
       {| cfg_model := js "gpt-4o"; cfg_maxTokens := num 100000;
          cfg_temperature := 1%Z; cfg_streamMode := None |} |}.

Definition hello : ChatRequest Z :=
  {| messages := [{| msg_role := user; msg_content := js "hi" |}];
     model := None; temperature := None; max_tokens := None;
     max_completion_tokens := None; streamMode := None |}.

(** A call of a user who may use the feature, with an upstream that
    answers every request with the same answer. *)
Definition call_with (answer : upstream_answer)
  : Call Z (H := Fixtures.runtime) :=
  {| authUser := Some (js "alice");
     hasPermission := true;
     aiRecommendConfig := Some openai;
     youtubeConfig := Fixtures.youtube_off;
     chat := hello;
     getCache := fun _ => (JNull : jsval (@number Fixtures.runtime));
     systemPrompt := js "You recommend films.";
     upstream := fun _ _ _ => answer;
     decoder0 := (tt : @dstate Fixtures.runtime) |}.

Definition rate_limited : upstream_answer :=
  UpError 429 (js "slow down").

(** The same call when the cache holds an answer to the question. *)
Definition cached_call : Call Z (H := Fixtures.runtime) :=
  {| authUser := Some (js "alice");
     hasPermission := true;
     aiRecommendConfig := Some openai;
     youtubeConfig := Fixtures.youtube_off;
     chat := hello;
     getCache :=
       fun _ => (JStr (js "cached") : jsval (@number Fixtures.runtime));
     systemPrompt := js "You recommend films.";
     upstream := fun _ _ _ => UpTimeout;
     decoder0 := (tt : @dstate Fixtures.runtime) |}.

End RouteFixtures.

(* ===================================================================== *)
(** * The registration route                                               *)
(* ===================================================================== *)

Module Register.
Import JS.

(** [NEXT_PUBLIC_STORAGE_TYPE], [localstorage] when unset. *)
Inductive StorageType := localstorage | redis | upstash | kvrocks.

Inductive Role := owner | admin | user.

(** An entry of [config.UserConfig.Users]; the route reads
    [registrationIp] and writes the other fields of a new entry. *)
Record User := {
  username : jsstring;
  role : Role;
  approved : option bool;
  createdAt : option Z;
  registrationIp : option jsstring;
  approvedAt : option Z
}.

Record UserSettings := {
  AllowRegister : option bool;
  RequireApproval : option bool;
  Users : list User
}.

Record AdminConfig := {
  UserConfig : option UserSettings
}.

(** The fields read from the body of the request; [None] stands for a
    field that is absent or not a string, which the route treats alike. *)
Record Body := {
  b_username : option jsstring;
  b_password : option jsstring;
  b_confirmPassword : option jsstring
}.

(** The calls that change something, in the order they are made; a call
    that throws is listed too. *)
Inductive call :=
| PushUser (newUser : User)
  (** [config.UserConfig.Users.push(newUser)] on the object [getConfig]
      returned *)
| RegisterUser (username password : jsstring)
| SaveAdminConfig (config : AdminConfig)
| ClearConfigCache.

Record Env := {
  STORAGE_TYPE : StorageType;
  (** [process.env.USERNAME] *)
  USERNAME : option jsstring;
  (** [process.env.NODE_ENV === 'production'] *)
  production : bool
}.

(** What the request holds and what the collaborators answer during one
    call; [None] and [false] stand for a call that throws. *)
Record Request := {
  req_headers : Proxy.headers;
  (** [req.json()], destructured *)
  req_json : option Body;
  (** [getConfig()], the first and the second time *)
  getConfig1 : option AdminConfig;
  getConfig2 : option AdminConfig;
  checkUserExist : jsstring -> option bool;
  registerUser : jsstring -> jsstring -> bool;
  saveAdminConfig : AdminConfig -> bool;
  (** [Date.now()], the first and the second time *)
  now1 : Z;
  now2 : Z;
  (** [generateAuthCookie(username, password, 'user')] *)
  generateAuthCookie : jsstring -> jsstring -> option jsstring
}.

Inductive register_response :=
| ErrorJson (status : Z) (error : jsstring)
| PendingJson
  (** 202, [{ ok: true, pending: true, message }] *)
| LoggedInJson (setCookie : jsstring)
  (** 200, [{ ok: true, pending: false, message }] with the cookie *).

Definition status_of (r : register_response) : Z :=
  match r with
  | ErrorJson status _ => status
  | PendingJson => 202
  | LoggedInJson _ => 200
  end.

Record register_result := {
  response : register_response;
  calls : list call
}.

Definition COMMA : N := 0x2C.

Definition getClientIp (hs : Proxy.headers) : jsstring :=
  let forwarded := Proxy.hget (js "x-forwarded-for") hs in
  let realIp := Proxy.hget (js "x-real-ip") hs in
  let cfConnectingIp := Proxy.hget (js "cf-connecting-ip") hs in
  match Proxy.truthy_header cfConnectingIp with
  | Some cfConnectingIp => cfConnectingIp
  | None =>
    match Proxy.truthy_header forwarded with
    | Some forwarded => trim (hd [] (split COMMA forwarded))
    | None =>
      match Proxy.truthy_header realIp with
      | Some realIp => realIp
      | None => js "unknown"
      end
    end
  end.

(** [[a-zA-Z0-9_]] *)
Definition is_word (c : N) : bool :=
  ((0x61 <=? c) && (c <=? 0x7A)) || ((0x41 <=? c) && (c <=? 0x5A)) ||
  is_digit c || (c =? 0x5F).

(** [r{0,n}], greedy *)
Fixpoint upto (n : nat) (r : regex) : regex :=
  match n with
  | O => Eps
  | S n' => Opt (Seq r (upto n' r))
  end.

(** [/^[a-zA-Z0-9_]{3,20}$/] *)
Definition usernamePattern : regex :=
  (Bol >> (rep 3 (Cls is_word) >> upto 17 (Cls is_word)) >> Eol)%re.

(** [o !== false] for an optional boolean. *)
Definition not_false (o : option bool) : bool :=
  match o with
  | Some false => false
  | _ => true
  end.

(** [a === b] where [a] may be [undefined]. *)
Definition same (a : option jsstring) (b : jsstring) : bool :=
  match a with
  | Some a => Relay.str_eqb a b
  | None => false
  end.

(** The users of a list registered from an address. *)
Definition registeredFrom (ip : jsstring) (users : list User) : list User :=
  List.filter (fun u => same (registrationIp u) ip) users.

Definition setCookie (env : Env) (authCookie : jsstring) : jsstring :=
  js "auth=" ++ authCookie ++ js "; Path=/; HttpOnly; SameSite=Strict; "
  ++ (if production env then js "Secure;" else [])
  ++ js " Max-Age=604800".

(** The inner [try] block of the route, entered with a valid name and
    password. *)
Definition enroll (env : Env) (req : Request)
    (username password registrationIp : jsstring) : register_result :=
  let failed cs :=
    {| response := ErrorJson 500 (js "注册失败，请稍后重试");
       calls := cs |} in
  match getConfig2 req with
  | None => failed []
  | Some config =>
    match UserConfig config with
    | None => failed []
    | Some userConfig =>
      let ipRegistrationCount :=
        length (registeredFrom registrationIp (Users userConfig)) in
      if Nat.leb 3 ipRegistrationCount then
        {| response := ErrorJson 429 (js "请不要频繁申请"); calls := [] |}
      else
        match checkUserExist req username with
        | None => failed []
        | Some true =>
          {| response := ErrorJson 400 (js "该用户名已被注册");
             calls := [] |}
        | Some false =>
          let requireApproval := not_false (RequireApproval userConfig) in
          let newUser :=
            {| username := username;
               role := user;
               approved := Some (negb requireApproval);
               createdAt := Some (now1 req);
               registrationIp := Some registrationIp;
               approvedAt :=
                 if requireApproval then None else Some (now2 req) |} in
          let config' :=
            {| UserConfig :=
                 Some {| AllowRegister := AllowRegister userConfig;
                         RequireApproval := RequireApproval userConfig;
                         Users := Users userConfig ++ [newUser] |} |} in
          let pushed := [PushUser newUser] in
          let registered := pushed ++ [RegisterUser username password] in
          let saved := registered ++ [SaveAdminConfig config'] in
          let cleared := saved ++ [ClearConfigCache] in
          if negb (registerUser req username password) then
            failed registered
          else if negb (saveAdminConfig req config') then failed saved
          else if requireApproval then
            {| response := PendingJson; calls := cleared |}
          else
            match generateAuthCookie req username password with
            | None => failed cleared
            | Some authCookie =>
              {| response := LoggedInJson (setCookie env authCookie);
                 calls := cleared |}
            end
        end
    end
  end.

Definition POST (env : Env) (req : Request) : register_result :=
  let reject status error :=
    {| response := ErrorJson status error; calls := [] |} in
  match STORAGE_TYPE env with
  | localstorage => reject 400%Z (js "localStorage 模式不支持用户注册")
  | _ =>
    match req_json req with
    | None => reject 500%Z (js "服务器错误")
    | Some body =>
      let registrationIp := getClientIp (req_headers req) in
      match getConfig1 req with
      | None => reject 500%Z (js "注册失败，请稍后重试")
      | Some config =>
        let allowRegister :=
          match UserConfig config with
          | Some userConfig => not_false (AllowRegister userConfig)
          | None => true
          end in
        if negb allowRegister then
          reject 403%Z (js "管理员已关闭用户注册功能")
        else
          match b_username body with
          | None => reject 400%Z (js "用户名不能为空")
          | Some username =>
            if negb (nonempty username) || negb (nonempty (trim username))
            then reject 400%Z (js "用户名不能为空")
            else
              match b_password body with
              | None => reject 400%Z (js "密码不能为空")
              | Some password =>
                if negb (nonempty password) then
                  reject 400%Z (js "密码不能为空")
                else if negb (same (b_confirmPassword body) password) then
                  reject 400%Z (js "两次输入的密码不一致")
                else if Nat.ltb (length password) 6 then
                  reject 400%Z (js "密码长度至少6位")
                else if same (USERNAME env) username then
                  reject 400%Z (js "该用户名已被使用")
                else if negb (test usernamePattern username) then
                  reject 400%Z
                    (js "用户名只能包含字母、数字和下划线，长度3-20位")
                else enroll env req username password registrationIp
              end
          end
      end
    end
  end.

(** An answer made before anything is written. *)
Definition rejected (r : register_result) : Prop :=
  exists status error,
    r = {| response := ErrorJson status error; calls := [] |} /\
    In status [400; 403; 429; 500]%Z.

End Register.

Module RegisterFixtures.
Import JS Register.

Definition server : Env :=
  {| STORAGE_TYPE := redis; USERNAME := Some (js "root");
     production := true |}.

Definition carol : User :=
  {| username := js "carol"; role := user; approved := Some true;
     createdAt := Some 1%Z; registrationIp := Some (js "10.0.0.7");
     approvedAt := None |}.

Definition open_config : AdminConfig :=
  {| UserConfig :=
       Some {| AllowRegister := None; RequireApproval := Some false;
               Users := [carol] |} |}.

Definition dave : Body :=
  {| b_username := Some (js "dave_01"); b_password := Some (js "secret1");
     b_confirmPassword := Some (js "secret1") |}.

(** A request for a new account from 10.0.0.7, behind a proxy. *)
Definition signup (db_up : bool) : Request :=
  {| req_headers :=
       Proxy.hset (js "X-Forwarded-For") (js " 10.0.0.7 , 172.16.0.1") ∅;
     req_json := Some dave;
     getConfig1 := Some open_config;
     getConfig2 := Some open_config;
     checkUserExist := fun _ => Some false;
     registerUser := fun _ _ => db_up;
     saveAdminConfig := fun _ => true;
     now1 := 1700000000000%Z;
     now2 := 1700000000001%Z;
     generateAuthCookie := fun _ _ => Some (js "%7B%22role%22%3A%22user%22%7D")
  |}.

(** The entry made for that request, and the configuration saved. *)
Definition dave_user : User :=
  {| username := js "dave_01"; role := user; approved := Some true;
     createdAt := Some 1700000000000%Z;
     registrationIp := Some (js "10.0.0.7");
     approvedAt := Some 1700000000001%Z |}.

Definition saved_config : AdminConfig :=
  {| UserConfig :=
       Some {| AllowRegister := None; RequireApproval := Some false;
               Users := [carol; dave_user] |} |}.

End RegisterFixtures.

(* ===================================================================== *)
(** * Properties                                                           *)
(* ===================================================================== *)

Module JSFacts.
Import JS.

Section Sound.
Context {R : Type}.
Variable inp : jsstring.

Lemma star_sound p (k : jsstring -> option R) c s x :
  star p k s = Some x ->
  exists s', den inp (Star p) s c s' c /\ k s' = Some x.
Proof.
  induction s as [|a s IH]; simpl; intros H.
  - exists []. split; [constructor | exact H].
  - destruct (p a) eqn:Hp.
    + destruct (star p k s) as [y|] eqn:E.
      * injection H as ->. destruct (IH eq_refl) as (s' & D & K).
        exists s'. split; [constructor; assumption | exact K].
      * exists (a :: s). split; [constructor | exact H].
    + exists (a :: s). split; [constructor | exact H].
Qed.

Lemma rmatch_sound r : forall s c (k : jsstring -> caps -> option R) x,
  rmatch inp r s c k = Some x ->
  exists s' c', den inp r s c s' c' /\ k s' c' = Some x.
Proof.
  induction r as [|p|r1 IH1 r2 IH2|r1 IH1 r2 IH2|r IH|p|i r IH| |];
    intros s c k x H; simpl in H.
  - exists s, c. split; [constructor | exact H].
  - destruct s as [|a s]; [discriminate|].
    destruct (p a) eqn:Hp; [|discriminate].
    exists s, c. split; [constructor; exact Hp | exact H].
  - apply IH1 in H as (s1 & c1 & D1 & H).
    apply IH2 in H as (s2 & c2 & D2 & H).
    exists s2, c2. split; [econstructor; eassumption | exact H].
  - destruct (rmatch inp r1 s c k) as [y|] eqn:E.
    + injection H as ->. apply IH1 in E as (s' & c' & D & K).
      exists s', c'. split; [apply den_alt_l; exact D | exact K].
    + apply IH2 in H as (s' & c' & D & K).
      exists s', c'. split; [apply den_alt_r; exact D | exact K].
  - destruct (rmatch inp r s c k) as [y|] eqn:E.
    + injection H as ->. apply IH in E as (s' & c' & D & K).
      exists s', c'. split; [apply den_opt_some; exact D | exact K].
    + exists s, c. split; [apply den_opt_none | exact H].
  - apply (star_sound p (fun s' => k s' c) c) in H as (s' & D & K).
    exists s', c. split; assumption.
  - apply IH in H as (s' & c' & D & K).
    exists s', ((i, consumed s s') :: c'). split; [constructor; exact D | exact K].
  - destruct (Nat.eqb_spec (length s) (length inp)) as [E|]; [|discriminate].
    exists s, c. split; [constructor; exact E | exact H].
  - destruct s; [|discriminate].
    exists [], c. split; [constructor | exact H].
Qed.

End Sound.

(** A match never reads backwards: what remains after it is a suffix of
    what remained before. *)
Lemma den_suffix inp r s c s' c' :
  den inp r s c s' c' -> exists m, s = m ++ s'.
Proof.
  induction 1.
  - by exists [].
  - by exists [x].
  - destruct IHden1 as [m1 ->], IHden2 as [m2 ->].
    exists (m1 ++ m2). by rewrite <- app_assoc.
  - assumption.
  - assumption.
  - assumption.
  - by exists [].
  - by exists [].
  - destruct IHden as [m ->]. by exists (x :: m).
  - assumption.
  - by exists [].
  - by exists [].
Qed.

Lemma consumed_app (m s' : jsstring) : consumed (m ++ s') s' = m.
Proof.
  unfold consumed. rewrite length_app.
  replace (length m + length s' - length s')%nat with (length m) by lia.
  by rewrite take_app_length.
Qed.

Lemma match_here_sound r inp s s' c :
  match_here r inp s = Some (s', c) -> den inp r s [] s' c.
Proof.
  unfold match_here. intros H.
  apply rmatch_sound in H as (s1 & c1 & D & [= <- <-]). exact D.
Qed.

Lemma match_here_consumed r inp s s' c :
  match_here r inp s = Some (s', c) ->
  s = consumed s s' ++ s' /\ den inp r (consumed s s' ++ s') [] s' c.
Proof.
  intros E. apply match_here_sound in E.
  destruct (den_suffix _ _ _ _ _ _ E) as [w ->].
  rewrite consumed_app. split; [reflexivity | exact E].
Qed.

(** What [search] returns is a match of the pattern, somewhere in [s]. *)
Lemma search_sound r inp s m :
  search r inp s = Some m ->
  exists pre, s = pre ++ m0 m ++ m_rest m /\
    den inp r (m0 m ++ m_rest m) [] (m_rest m) (m_caps m).
Proof.
  induction s as [|a s IH]; simpl; intros H.
  - destruct (match_here r inp []) as [[s' c]|] eqn:E; [|discriminate].
    injection H as <-. simpl.
    apply match_here_consumed in E as [E1 E2]. by exists [].
  - destruct (match_here r inp (a :: s)) as [[s' c]|] eqn:E.
    + injection H as <-. simpl.
      apply match_here_consumed in E as [E1 E2]. by exists [].
    + destruct (IH H) as (pre & -> & D).
      exists (a :: pre). split; [reflexivity | exact D].
Qed.

(** Inversion of the pattern forms. *)
Lemma den_lit inp l s c s' c' :
  den inp (lit l) s c s' c' -> s = l ++ s' /\ c' = c.
Proof.
  revert s. induction l as [|x l IH]; simpl; intros s H.
  - inversion H; subst. by split.
  - inversion H as [| |? ? ? ? s1 c1 ? ? H1 H2| | | | | | | | |]; subst.
    inversion H1; subst.
    match goal with Hx : (_ =? _) = true |- _ => apply N.eqb_eq in Hx; subst end.
    destruct (IH _ H2) as [-> ->]. by split.
Qed.

Lemma den_star inp p s c s' c' :
  den inp (Star p) s c s' c' ->
  exists run, s = run ++ s' /\ forallb p run = true /\ c' = c.
Proof.
  remember (Star p) as r eqn:Hr. induction 1; try discriminate.
  - by exists [].
  - injection Hr as ->. destruct (IHden eq_refl) as (run & -> & Hrun & _).
    exists (x :: run). simpl. rewrite H, Hrun. by repeat split.
Qed.

Lemma den_plus inp p s c s' c' :
  den inp (plus p) s c s' c' ->
  exists run, s = run ++ s' /\ run <> [] /\ forallb p run = true /\ c' = c.
Proof.
  unfold plus. intros H.
  inversion H as [| |? ? ? ? s1 c1 ? ? H1 H2| | | | | | | | |]; subst.
  inversion H1; subst.
  apply den_star in H2 as (run & -> & Hrun & ->).
  exists (x :: run). simpl.
  match goal with Hx : p x = true |- _ => rewrite Hx end.
  by repeat split.
Qed.

Lemma den_rep_cls inp p n s c s' c' :
  den inp (rep n (Cls p)) s c s' c' ->
  exists run, s = run ++ s' /\ length run = n /\ forallb p run = true /\ c' = c.
Proof.
  revert s. induction n as [|n IH]; simpl; intros s H.
  - inversion H; subst. by exists [].
  - inversion H as [| |? ? ? ? s1 c1 ? ? H1 H2| | | | | | | | |]; subst.
    inversion H1; subst.
    destruct (IH _ H2) as (run & -> & Hl & Hrun & ->).
    exists (x :: run). simpl.
    match goal with Hx : p x = true |- _ => rewrite Hx end.
    rewrite Hl. by repeat split.
Qed.


Lemma den_groupless inp r s c s' c' :
  den inp r s c s' c' -> groupless r = true -> c' = c.
Proof.
  induction 1; simpl; intros G; try reflexivity;
    try (apply andb_prop in G as [G1 G2]); try discriminate; auto.
  rewrite (IHden2 G2). auto.
Qed.

Lemma den_skip inp r s c s' c' :
  den inp r s c s' c' -> groupless r = true ->
  exists m, s = m ++ s' /\ c' = c.
Proof.
  intros D G. destruct (den_suffix _ _ _ _ _ _ D) as [m ->].
  exists m. split; [reflexivity | exact (den_groupless _ _ _ _ _ _ D G)].
Qed.

Ltac inv_seq H :=
  let D1 := fresh "D" in
  let D2 := fresh "D" in
  inversion H as [| |? ? ? ? ? ? ? ? D1 D2| | | | | | | | |]; subst; clear H.

Ltac inv_grp H :=
  let D1 := fresh "D" in
  inversion H as [| | | | | | | | |? ? ? ? ? ? D1| |]; subst; clear H.

End JSFacts.

Module ExtractionFacts.
Import JS Relay JSFacts.

(** A match of [youtubePattern] is a URL prefix followed by a non-empty run
    of id characters, which is group 1. *)
Lemma youtube_den inp s s' c' :
  den inp youtubePattern s [] s' c' ->
  exists prefix id,
    s = prefix ++ id ++ s' /\ id <> [] /\ forallb is_id_char id = true /\
    c' = [(1%nat, id)].
Proof.
  unfold youtubePattern. intros H.
  inv_seq H. inv_seq D0. inv_seq D2.
  apply den_skip in D as (m1 & -> & ->); [|reflexivity].
  apply den_skip in D1 as (m2 & -> & ->); [|reflexivity].
  apply den_skip in D0 as (m3 & -> & ->); [|reflexivity].
  inv_grp D3.
  apply den_plus in D as (id & -> & Hne & Hid & ->).
  rewrite consumed_app.
  exists (m1 ++ m2 ++ m3), id. rewrite <- !app_assoc. by repeat split.
Qed.

Lemma youtube_search_sound content s m :
  search youtubePattern content s = Some m ->
  exists pre prefix id,
    s = pre ++ prefix ++ id ++ m_rest m /\ m0 m = prefix ++ id /\
    group 1 m = id /\ id <> [] /\ forallb is_id_char id = true.
Proof.
  intros H. apply search_sound in H as (pre & Hs & D).
  apply youtube_den in D as (prefix & id & E & Hne & Hid & Hc).
  exists pre, prefix, id. rewrite app_assoc in E.
  apply app_inv_tail in E. unfold group. rewrite Hc, Hs, E. simpl.
  rewrite <- !app_assoc. by repeat split.
Qed.

Lemma youtube_search_shorter content s m :
  search youtubePattern content s = Some m ->
  (length (m_rest m) < length s)%nat.
Proof.
  intros H. apply youtube_search_sound in H
    as (pre & prefix & id & -> & _ & _ & Hne & _).
  rewrite !length_app. destruct id; [done | simpl; lia].
Qed.

(** The loop never runs out of rounds: any number of rounds above the
    length of the text still to scan gives the same links. *)
Lemma detect_loop_fuel content : forall n n' s,
  (length s < n)%nat -> (length s < n')%nat ->
  detect_loop n content s = detect_loop n' content s.
Proof.
  induction n as [|n IH]; intros n' s Hn Hn'; [lia|].
  destruct n' as [|n']; [lia|]. simpl.
  destruct (search youtubePattern content s) as [m|] eqn:E; [|reflexivity].
  f_equal. pose proof (youtube_search_shorter _ _ _ E). apply IH; lia.
Qed.

Lemma detect_loop_ids content : forall n s,
  Forall (fun l => id_like (videoId l) /\
                   exists prefix, originalUrl l = prefix ++ videoId l)
    (detect_loop n content s).
Proof.
  induction n as [|n IH]; intros s; simpl; [constructor|].
  destruct (search youtubePattern content s) as [m|] eqn:E; [|constructor].
  constructor; [|apply IH]. simpl.
  apply youtube_search_sound in E
    as (pre & prefix & id & _ & Hm0 & Hg & Hne & Hid).
  rewrite Hg, Hm0. split; [by split | by exists prefix].
Qed.


#[local] Opaque lit plus rep.

(** Takes a match of a sequence of literals, classes and groups apart. *)
Ltac inv_pattern :=
  repeat match goal with
         | D : den _ (Seq _ _) _ _ _ _ |- _ => inv_seq D
         end;
  repeat match goal with
         | D : den _ (Grp _ _) _ _ _ _ |- _ => inv_grp D
         end;
  repeat match goal with
         | D : den _ (lit _) _ _ _ _ |- _ => apply den_lit in D as [-> ->]
         | D : den _ (plus _) _ _ _ _ |- _ =>
           apply den_plus in D as (? & -> & ? & ? & ->)
         | D : den _ (rep _ _) _ _ _ _ |- _ =>
           apply den_rep_cls in D as (? & -> & ? & ? & ->)
         | D : den _ (Star _) _ _ _ _ |- _ =>
           apply den_star in D as (? & -> & ? & ->)
         end.


Lemma video_den inp s s' c' :
  den inp videoPattern s [] s' c' ->
  exists kw, s = js "【" ++ kw ++ js "】" ++ s' /\ kw <> [] /\
             c' = [(1%nat, kw)].
Proof.
  unfold videoPattern. intros H. inv_pattern.
  rewrite consumed_app. by eexists.
Qed.

#[local] Transparent lit plus rep.

Lemma video_search_shorter content s m :
  search videoPattern content s = Some m ->
  (length (m_rest m) < length s)%nat.
Proof.
  intros H. apply search_sound in H as (pre & Hs & D).
  apply video_den in D as (kw & E & _ & _).
  rewrite Hs, E, !length_app. simpl. lia.
Qed.

(** The loop over the bracketed titles never runs out of rounds either,
    and it keeps four titles at most. *)
Lemma keywords_loop_fuel content : forall n n' s kws,
  (length s < n)%nat -> (length s < n')%nat ->
  keywords_loop n content s kws = keywords_loop n' content s kws.
Proof.
  induction n as [|n IH]; intros n' s kws Hn Hn'; [lia|].
  destruct n' as [|n']; [lia|]. simpl.
  destruct (search videoPattern content s) as [m|] eqn:E; [|reflexivity].
  destruct (Nat.ltb (length kws) 4); [|reflexivity].
  pose proof (video_search_shorter _ _ _ E). apply IH; lia.
Qed.

Lemma keywords_loop_bound content : forall n s kws,
  (length kws <= 4)%nat ->
  (length (keywords_loop n content s kws) <= 4)%nat.
Proof.
  induction n as [|n IH]; intros s kws Hk; simpl; [exact Hk|].
  destruct (search videoPattern content s) as [m|]; [|exact Hk].
  destruct (Nat.ltb_spec (length kws) 4) as [Hlt|]; [|exact Hk].
  apply IH. rewrite length_app. simpl. lia.
Qed.


Lemma trimStart_head c s : is_space c = false -> trimStart (c :: s) = c :: s.
Proof. simpl. by intros ->. Qed.






End ExtractionFacts.

Module DispatcherFacts.
Import JS Constants Relay.

(** ** The order of numbers *)

Lemma SFcompare_antisym x y c :
  SFcompare x y = Some c -> SFcompare y x = Some (CompOpp c).
Proof.
  destruct x as [sx|sx| |sx mx ex], y as [sy|sy| |sy my ey];
    cbn [SFcompare]; try discriminate;
    try (destruct sx); try (destruct sy); intros [= <-]; try reflexivity.
  - rewrite (Z.compare_antisym ex ey).
    destruct (ex ?= ey)%Z; cbn [CompOpp]; try reflexivity.
    change (Pos.compare_cont Eq my mx) with (Pos.compare my mx).
    change (Pos.compare_cont Eq mx my) with (Pos.compare mx my).
    rewrite (Pos.compare_antisym mx my). by destruct (mx ?= my)%positive.
  - rewrite (Z.compare_antisym ex ey).
    destruct (ex ?= ey)%Z; cbn [CompOpp]; try reflexivity.
    change (Pos.compare_cont Eq my mx) with (Pos.compare my mx).
    change (Pos.compare_cont Eq mx my) with (Pos.compare mx my).
    rewrite (Pos.compare_antisym mx my). by destruct (mx ?= my)%positive.
Qed.

Lemma SFcompare_refl x : x <> S754_nan -> SFcompare x x = Some Eq.
Proof.
  destruct x as [s|s| |s m e]; cbn [SFcompare]; [done| |done|].
  - by destruct s.
  - intros _. destruct s; rewrite Z.compare_refl, Pos.compare_cont_refl;
      reflexivity.
Qed.

Lemma SFcompare_nan x y :
  SFcompare x y = None <-> x = S754_nan \/ y = S754_nan.
Proof.
  destruct x as [sx|sx| |sx mx ex], y as [sy|sy| |sy my ey];
    cbn [SFcompare]; split; intros Hn; try discriminate Hn;
    try (by left); try (by right); try reflexivity;
    by destruct Hn as [Hn|Hn].
Qed.

Lemma num_leb_refl x : x <> S754_nan -> num_leb x x = true.
Proof. intros Hx. unfold num_leb, SFleb. by rewrite SFcompare_refl. Qed.

Lemma Math_max_cases a b :
  a <> S754_nan -> b <> S754_nan ->
  (Math_max a b = a /\ num_leb b a = true) \/
  (Math_max a b = b /\ num_leb a b = true).
Proof.
  intros Ha Hb. unfold Math_max, num_leb, SFleb.
  destruct (SFcompare a b) as [[| |]|] eqn:E.
  - rewrite (SFcompare_antisym _ _ _ E). cbn [CompOpp].
    destruct a as [[|]| | |]; try (by left).
    destruct b as [[|]| | |]; try (by left). by right.
  - right. by split.
  - left. by rewrite (SFcompare_antisym _ _ _ E).
  - apply SFcompare_nan in E. by destruct E.
Qed.

Lemma Math_min_cases a b :
  a <> S754_nan -> b <> S754_nan ->
  (Math_min a b = a /\ num_leb a b = true) \/
  (Math_min a b = b /\ num_leb b a = true).
Proof.
  intros Ha Hb. unfold Math_min, num_leb, SFleb.
  destruct (SFcompare a b) as [[| |]|] eqn:E.
  - rewrite (SFcompare_antisym _ _ _ E). cbn [CompOpp].
    destruct a as [[|]| | |]; try (by left).
    destruct b as [[|]| | |]; try (by left). by right.
  - left. by split.
  - right. by rewrite (SFcompare_antisym _ _ _ E).
  - apply SFcompare_nan in E. by destruct E.
Qed.

Lemma Math_max_nan_l b : Math_max S754_nan b = S754_nan.
Proof. reflexivity. Qed.

Lemma Math_min_nan_l b : Math_min S754_nan b = S754_nan.
Proof. reflexivity. Qed.

Lemma num_leb_not_nan a b : num_leb a b = true -> b <> S754_nan.
Proof. intros Hl ->. by destruct a. Qed.

(** A number between two positive finite ones is written as it is. *)
Lemma between_is_sent lo hi t :
  positive_finite lo -> positive_finite hi ->
  num_leb lo t = true -> num_leb t hi = true ->
  stringify_number t = JsonNumber t.
Proof.
  intros (ml & el & ->) (mh & eh & ->) Hlo Hhi.
  destruct t as [s|[|]| |s m e]; try reflexivity; discriminate.
Qed.

(** The larger of a number and a positive finite one is infinite only
    when that number is. *)
Lemma floor_is_sent r lo :
  positive_finite lo -> r <> S754_nan ->
  let t := Math_max r lo in
  num_leb lo t = true /\
  stringify_number t =
    match t with S754_infinity _ => JsonNull | _ => JsonNumber t end /\
  (t = S754_infinity false <-> r = S754_infinity false).
Proof.
  intros (ml & el & ->) Hr t. subst t.
  destruct (Math_max_cases r (S754_finite false ml el) Hr ltac:(done))
    as [[-> Hle]|[-> Hle]].
  - split; [exact Hle|].
    destruct r as [s|[|]| |s m e]; try discriminate Hle; by repeat split.
  - split; [by apply num_leb_refl|]. split; [reflexivity|].
    split; [discriminate|]. intros ->. discriminate Hle.
Qed.

Lemma clamp_is_within r lo hi :
  positive_finite lo -> positive_finite hi -> num_leb lo hi = true ->
  r <> S754_nan ->
  let t := Math_min (Math_max r lo) hi in
  num_leb lo t = true /\ num_leb t hi = true /\
  stringify_number t = JsonNumber t.
Proof.
  intros Plo Phi Hlh Hr t. subst t.
  assert (Hlo : lo <> S754_nan) by (destruct Plo as (? & ? & ->); done).
  assert (Hhi : hi <> S754_nan) by (destruct Phi as (? & ? & ->); done).
  assert (Hm : num_leb lo (Math_max r lo) = true).
  { destruct (Math_max_cases r lo Hr Hlo) as [[-> Hle]|[-> Hle]];
      [exact Hle|by apply num_leb_refl]. }
  assert (Hmn : Math_max r lo <> S754_nan) by (by eapply num_leb_not_nan).
  assert (Hb : num_leb lo (Math_min (Math_max r lo) hi) = true /\
               num_leb (Math_min (Math_max r lo) hi) hi = true).
  { destruct (Math_min_cases _ hi Hmn Hhi) as [[-> Hle]|[-> Hle]].
    - by split.
    - split; [exact Hlh|by apply num_leb_refl]. }
  destruct Hb as [Hb1 Hb2]. split; [exact Hb1|]. split; [exact Hb2|].
  exact (between_is_sent lo hi _ Plo Phi Hb1 Hb2).
Qed.

Lemma num_positive_finite z :
  match num z with S754_finite false _ _ => True | _ => False end ->
  positive_finite (num z).
Proof. destruct (num z) as [| | |[|] m e]; try done. intros _. by eexists _, _. Qed.

Section Facts.
Context {Temp : Type}.

Lemma classify_reasoning (m : jsstring) :
  isReasoningModel m =
  match classify m with Standard => false | _ => true end.
Proof.
  unfold isReasoningModel, REASONING_MODEL_PREFIXES, classify.
  cbn [existsb].
  destruct (includes (js "gpt-5") m), (startsWith (js "o1") m),
    (startsWith (js "o3") m), (startsWith (js "o4") m); reflexivity.
Qed.

(** C3 (as the code has it).  The body sent upstream names the model of
    the request, or that of the configuration when the request names
    none, and the class of that model decides the limit.  A reasoning
    class sends it as [max_completion_tokens] without a temperature, a
    standard model as [max_tokens] with the temperature.  When the limit
    asked for is a number, the gpt-5 class sends a number within
    [2000, 128000], the o3/o4 class within [1500, 100000] and a standard
    model of the gpt-4 family within [500, 32768], also for an infinite
    limit; the other reasoning models send a number of at least 1000 and
    the other standard models one of at least 500, unless the limit asked
    for is infinite, which is then sent as [null].  A limit that is not a
    number is sent as [null]. *)
Theorem token_limit_within_bounds (aiConfig : AIConfig Temp)
    (req : ChatRequest Temp) (systemPrompt : jsstring) :
  let body := buildRequestBody aiConfig req systemPrompt in
  let m := str_or_default (model req) (cfg_model aiConfig) in
  let requested := requestedLimit aiConfig req in
  rb_model body = m /\
  exists t,
    match classify m with
    | Standard =>
      rb_max_tokens body = Some t /\
      rb_max_completion_tokens body = None /\
      rb_temperature body =
        Some (nullish (temperature req) (cfg_temperature aiConfig))
    | _ =>
      rb_max_completion_tokens body = Some t /\
      rb_max_tokens body = None /\ rb_temperature body = None
    end /\
    transmitted_limit body = Some (stringify_number t) /\
    match requested with
    | S754_nan => stringify_number t = JsonNull
    | _ =>
      match classify m with
      | Gpt5Class => sent_within 2000 128000 t
      | O3O4Class => sent_within 1500 100000 t
      | OtherReasoning =>
        sent_from 1000 t /\
        (t = S754_infinity false <-> requested = S754_infinity false)
      | Standard =>
        if includes (js "gpt-4") m then sent_within 500 32768 t
        else
          sent_from 500 t /\
          (t = S754_infinity false <-> requested = S754_infinity false)
      end
    end.
Proof.
  intros body m requested. subst body.
  unfold buildRequestBody, transmitted_limit.
  cbn [rb_model rb_max_tokens rb_max_completion_tokens rb_temperature].
  fold m. fold requested. split; [reflexivity|].
  exists (clampTokenLimit m requested).
  rewrite (classify_reasoning m).
  split; [by destruct (classify m)|]. split; [by destruct (classify m)|].
  assert (P : forall z,
            match num z with S754_finite false _ _ => True | _ => False end ->
            positive_finite (num z)) by apply num_positive_finite.
  unfold clampTokenLimit. rewrite (classify_reasoning m).
  unfold classify, TOKEN_LIMITS.GPT5_MIN, TOKEN_LIMITS.GPT5_MAX,
    TOKEN_LIMITS.O3_O4_MIN, TOKEN_LIMITS.O3_O4_MAX,
    TOKEN_LIMITS.REASONING_MIN, TOKEN_LIMITS.NORMAL_MIN,
    TOKEN_LIMITS.GPT4_MAX, sent_within, sent_from.
  assert (Hcases : requested = S754_nan \/ requested <> S754_nan).
  { destruct requested; (by left) || (by right). }
  destruct Hcases as [->|Hr].
  { destruct (includes (js "gpt-5") m); [reflexivity|].
    destruct (startsWith (js "o3") m || startsWith (js "o4") m);
      [reflexivity|].
    destruct (startsWith (js "o1") m); [reflexivity|].
    by destruct (includes (js "gpt-4") m). }
  assert (Hgoal :
    if includes (js "gpt-5") m then
      sent_within 2000 128000
        (Math_min (Math_max requested (num 2000)) (num 128000))
    else if startsWith (js "o3") m || startsWith (js "o4") m then
      sent_within 1500 100000
        (Math_min (Math_max requested (num 1500)) (num 100000))
    else if startsWith (js "o1") m then
      sent_from 1000 (Math_max requested (num 1000)) /\
      (Math_max requested (num 1000) = S754_infinity false <->
       requested = S754_infinity false)
    else if includes (js "gpt-4") m then
      sent_within 500 32768
        (Math_min (Math_max requested (num 500)) (num 32768))
    else
      sent_from 500 (Math_max requested (num 500)) /\
      (Math_max requested (num 500) = S754_infinity false <->
       requested = S754_infinity false)).
  { unfold sent_within, sent_from.
    destruct (includes (js "gpt-5") m).
    { apply clamp_is_within; try apply P; try exact Hr;
        vm_compute; done. }
    destruct (startsWith (js "o3") m || startsWith (js "o4") m).
    { apply clamp_is_within; try apply P; try exact Hr;
        vm_compute; done. }
    destruct (startsWith (js "o1") m).
    { destruct (floor_is_sent requested (num 1000)) as (H1 & H2 & H3);
        [apply P; vm_compute; done|exact Hr|].
      split; [split; [exact H1|]|exact H3].
      rewrite H2. by destruct (Math_max requested (num 1000)). }
    destruct (includes (js "gpt-4") m).
    { apply clamp_is_within; try apply P; try exact Hr;
        vm_compute; done. }
    destruct (floor_is_sent requested (num 500)) as (H1 & H2 & H3);
      [apply P; vm_compute; done|exact Hr|].
    split; [split; [exact H1|]|exact H3].
    rewrite H2. by destruct (Math_max requested (num 500)). }
  unfold sent_within, sent_from in Hgoal.
  destruct (includes (js "gpt-5") m); [by destruct requested|].
  destruct (startsWith (js "o3") m || startsWith (js "o4") m);
    [by destruct requested|].
  destruct (startsWith (js "o1") m); [by destruct requested|].
  destruct (includes (js "gpt-4") m); by destruct requested.
Qed.

End Facts.

(** A limit of 100 for a model of the gpt-5 class is sent as 2000, in
    [max_completion_tokens]. *)
Lemma token_limit_within_bounds_witness :
  let body := buildRequestBody Fixtures.deepseek Fixtures.small_request
                (js "You recommend films.") in
  rb_model body = js "gpt-5-mini" /\
  rb_max_completion_tokens body = Some (num 2000) /\
  transmitted_limit body = Some (JsonNumber (num 2000)).
Proof.
  destruct (token_limit_within_bounds Fixtures.deepseek
              Fixtures.small_request (js "You recommend films."))
    as (Hm & t & Hplace & Hsent & _).
  split; [rewrite Hm; vm_compute; reflexivity|].
  assert (Ht : rb_max_completion_tokens
                 (buildRequestBody Fixtures.deepseek Fixtures.small_request
                    (js "You recommend films.")) = Some (num 2000))
    by (vm_compute; reflexivity).
  split; [exact Ht|]. rewrite Hsent.
  assert (Hc : classify (str_or_default (model Fixtures.small_request)
                           (cfg_model Fixtures.deepseek)) = Gpt5Class)
    by (vm_compute; reflexivity).
  rewrite Hc in Hplace. destruct Hplace as (Hp & _).
  rewrite Ht in Hp. injection Hp as <-. vm_compute. reflexivity.
Defined.

(** The claim as the specification words it fails for a limit beyond the
    range of numbers: [max_tokens: 1e400] is read as [Infinity], which no
    lower bound changes, and a standard model outside the gpt-4 family is
    sent [max_tokens: null]. *)
Lemma infinite_limit_sent_as_null :
  let body := buildRequestBody Fixtures.deepseek Fixtures.unbounded_request
                (js "You recommend films.") in
  classify (rb_model body) = Standard /\
  rb_max_tokens body = Some (S754_infinity false) /\
  transmitted_limit body = Some JsonNull.
Proof. repeat split; vm_compute; reflexivity. Qed.

End DispatcherFacts.

Module EnrichmentFacts.
Import JS Relay.

Section Facts.
Context `{Services}.

Lemma handleVideoLinkParsing_length links : forall h,
  length (fst (handleVideoLinkParsing links h)) = length links.
Proof.
  induction links as [|l links IH]; intros h; simpl; [reflexivity|].
  specialize (IH (h ++ [OembedRequest (oembedUrl (videoId l))])).
  destruct (handleVideoLinkParsing links _). simpl in *. by rewrite IH.
Qed.

Lemma handleVideoLinkParsing_lookup links : forall h i link,
  links !! i = Some link ->
  fst (handleVideoLinkParsing links h) !! i =
  Some (parsedVideo link
          (oembed (h ++ lookups (take i links)) (oembedUrl (videoId link)))).
Proof.
  induction links as [|l links IH]; intros h i link Hi; [done|].
  cbn [handleVideoLinkParsing].
  specialize (IH (h ++ [OembedRequest (oembedUrl (videoId l))])).
  destruct (handleVideoLinkParsing links _) as [out h'].
  destruct i as [|i]; simpl in *.
  - injection Hi as ->. by rewrite app_nil_r.
  - rewrite (IH i link Hi). by rewrite <- app_assoc.
Qed.

(** C6 (as the code has it).  [handleVideoLinkParsing] gives one entry per
    link, in order, each carrying the id and the URL of its link, whatever
    happens to the other lookups.  A lookup that fails on the network
    gives an entry with [playable = false], the error marker, the title
    of a failed parse and neither channel, thumbnail nor embed URL; a
    lookup answered outside 2xx gives a playable entry with the default
    title and channel, the thumbnail and the embed URL of the video and
    no error marker; a lookup answered within 2xx gives the same entry
    with the title and the author of the answer where it has them. *)
Theorem link_failures_isolated (links : list VideoLink) (h : history) :
  let out := fst (handleVideoLinkParsing links h) in
  length out = length links /\
  forall i link, links !! i = Some link ->
    exists e,
      out !! i = Some e /\
      vr_videoId e = videoId link /\ vr_originalUrl e = originalUrl link /\
      match oembed (h ++ lookups (take i links)) (oembedUrl (videoId link))
      with
      | OembedRejects =>
        vr_playable e = false /\ vr_error e = Some (js "无法获取视频信息") /\
        vr_title e = js "解析失败的视频" /\
        vr_channelName e = None /\
        vr_thumbnail e = None /\ vr_embedUrl e = None
      | OembedNotOk =>
        vr_playable e = true /\ vr_error e = None /\
        vr_title e = js "直接播放的YouTube视频" /\
        vr_channelName e = Some (js "未知频道") /\
        vr_thumbnail e =
          Some (js "https://img.youtube.com/vi/" ++ videoId link
                ++ js "/mqdefault.jpg") /\
        vr_embedUrl e =
          Some (js "https://www.youtube.com/embed/" ++ videoId link
                ++ js "?autoplay=1&rel=0")
      | OembedOk videoTitle author_name =>
        vr_playable e = true /\ vr_error e = None /\
        vr_title e = str_or_default videoTitle (js "直接播放的YouTube视频") /\
        vr_channelName e =
          Some (str_or_default author_name (js "未知频道")) /\
        vr_thumbnail e =
          Some (js "https://img.youtube.com/vi/" ++ videoId link
                ++ js "/mqdefault.jpg") /\
        vr_embedUrl e =
          Some (js "https://www.youtube.com/embed/" ++ videoId link
                ++ js "?autoplay=1&rel=0")
      end.
Proof.
  intros out. split; [apply handleVideoLinkParsing_length|].
  intros i link Hi. eexists. split.
  - by apply handleVideoLinkParsing_lookup.
  - destruct (oembed _ _); by repeat split.
Qed.

End Facts.

Lemma link_failures_isolated_witness :
  let links :=
    detectVideoLinks (js "youtu.be/aaa youtu.be/bbb youtu.be/ccc") in
  let out := fst (handleVideoLinkParsing (H := Fixtures.flaky) links []) in
  length out = 3%nat /\
  (exists e, out !! 0%nat = Some e /\ vr_videoId e = js "aaa" /\
             vr_playable e = false /\
             vr_error e = Some (js "无法获取视频信息") /\
             vr_thumbnail e = None /\ vr_embedUrl e = None) /\
  (exists e, out !! 1%nat = Some e /\ vr_videoId e = js "bbb" /\
             vr_playable e = true /\ vr_error e = None /\
             vr_thumbnail e =
               Some (js "https://img.youtube.com/vi/bbb/mqdefault.jpg") /\
             vr_embedUrl e =
               Some (js "https://www.youtube.com/embed/bbb?autoplay=1&rel=0")).
Proof.
  intros links out.
  destruct (link_failures_isolated (H := Fixtures.flaky) links [])
    as [Hlen Hall].
  split; [exact Hlen|]. split.
  - destruct (Hall 0%nat {| originalUrl := js "youtu.be/aaa";
                            videoId := js "aaa";
                            fullMatch := js "youtu.be/aaa" |})
      as (e & He & Hid & _ & Hp & Herr & _ & _ & Hth & Hem);
      [vm_compute; reflexivity|].
    exists e. by repeat split.
  - destruct (Hall 1%nat {| originalUrl := js "youtu.be/bbb";
                            videoId := js "bbb";
                            fullMatch := js "youtu.be/bbb" |})
      as (e & He & Hid & _ & Hp & Herr & _ & _ & Hth & Hem);
      [vm_compute; reflexivity|].
    exists e. split; [exact He|]. split; [exact Hid|].
    split; [exact Hp|]. split; [exact Herr|].
    split; [rewrite Hth|rewrite Hem]; vm_compute; reflexivity.
Defined.

(** The claim as the specification words it fails on a lookup answered
    outside 2xx: the entry is playable and has no error marker. *)
Lemma non_2xx_lookup_is_playable :
  exists e,
    fst (handleVideoLinkParsing (H := Fixtures.unknown_videos)
           (detectVideoLinks Fixtures.link_message) []) = [e] /\
    vr_playable e = true /\ vr_error e = None.
Proof. eexists. split; [vm_compute; reflexivity|]. by split. Qed.

End EnrichmentFacts.

Module TranscoderFacts.
Import JS Relay.

Lemma split_nonempty sep s : split sep s <> [].
Proof.
  destruct s as [|c s]; simpl; [discriminate|].
  destruct (c =? sep); [discriminate|].
  destruct (split sep s); discriminate.
Qed.

(** Splitting a text that arrives in two parts: the lines completed by the
    first part, then the lines of its unfinished last line followed by the
    second part. *)
Lemma split_app sep x y :
  split sep (x ++ y) =
  removelast (split sep x) ++ split sep (List.last (split sep x) [] ++ y).
Proof.
  induction x as [|c x IH]; [reflexivity|].
  cbn [app split]. destruct (c =? sep) eqn:Ec.
  - rewrite IH. pose proof (split_nonempty sep x) as Hne.
    destruct (split sep x) as [|l ls]; [done|]. reflexivity.
  - rewrite IH. pose proof (split_nonempty sep x) as Hne.
    destruct (split sep x) as [|l [|l2 ls]]; [done| |].
    + cbn [removelast List.last app split]. rewrite Ec. reflexivity.
    + cbn [removelast List.last app]. reflexivity.
Qed.

Lemma last_app_ne {A} (l1 l2 : list A) d :
  l2 <> [] -> List.last (l1 ++ l2) d = List.last l2 d.
Proof.
  intros Hne. induction l1 as [|x l1 IH]; [reflexivity|].
  simpl. rewrite IH. destruct (l1 ++ l2) eqn:E; [|reflexivity].
  by apply app_eq_nil in E as [_ ->].
Qed.

Section Facts.
Context `{Runtime} `{Services}.

Lemma decode_app d a b :
  decode d (a ++ b) =
  let (d1, t1) := decode d a in
  let (d2, t2) := decode d1 b in
  (d2, t1 ++ t2).
Proof.
  revert d. induction a as [|x a IH]; intros d; simpl.
  - by destruct (decode d b).
  - destruct (dstep d x) as [d1 t1]. rewrite IH.
    destruct (decode d1 a) as [d2 t2]. destruct (decode d2 b) as [d3 t3].
    by rewrite app_assoc.
Qed.

(** Two reads in a row do what one read of both chunks does. *)
Lemma on_chunk_app st a b :
  on_chunk (on_chunk st a) b = on_chunk st (a ++ b).
Proof.
  unfold on_chunk. rewrite decode_app.
  destruct (decode (decoder st) a) as [d1 t1].
  destruct (decode d1 b) as [d2 t2] eqn:E2.
  rewrite (app_assoc (buffer st) t1 t2).
  rewrite (split_app LF (buffer st ++ t1) t2).
  set (ls := split LF (buffer st ++ t1)).
  destruct (fold_left process_line (removelast ls) (fullContent st, sent st))
    as [fc1 sent1] eqn:E1.
  cbn [decoder buffer fullContent sent]. rewrite E2.
  set (ls2 := split LF (List.last ls [] ++ t2)).
  assert (Hne : ls2 <> []) by apply split_nonempty.
  rewrite removelast_app by exact Hne.
  rewrite fold_left_app, E1.
  by rewrite (last_app_ne _ _ _ Hne).
Qed.

Lemma on_chunk_nil st :
  buffer st = [] -> on_chunk st [] = st.
Proof.
  intros Hb. unfold on_chunk. simpl. rewrite Hb. simpl.
  destruct st; simpl in *. by subst.
Qed.

Lemma read_loop_cons videoLinks cfg fin h : forall chunks c st,
  read_loop videoLinks cfg (c :: chunks) fin st h =
  read_loop videoLinks cfg [c ++ concat chunks] fin st h.
Proof.
  induction chunks as [|c' chunks IH]; intros c st.
  - simpl. by rewrite app_nil_r.
  - change (read_loop videoLinks cfg (c :: c' :: chunks) fin st h)
      with (read_loop videoLinks cfg (c' :: chunks) fin (on_chunk st c) h).
    rewrite IH. simpl. by rewrite on_chunk_app.
Qed.

(** C4.  Delivering the upstream bytes in any chunks gives the same
    accumulated text as delivering them in one chunk -- and the same
    events, end state and requests: the text after the last newline waits
    in the buffer for the next read, so where the chunks are cut does not
    matter. *)
Theorem chunk_boundary_independence d0 userMessage cfg chunks fin h :
  let split_run := start d0 userMessage cfg (Body chunks fin) h in
  let whole_run := start d0 userMessage cfg (Body [concat chunks] fin) h in
  accumulated split_run = accumulated whole_run /\ split_run = whole_run.
Proof.
  assert (E : start d0 userMessage cfg (Body chunks fin) h =
              start d0 userMessage cfg (Body [concat chunks] fin) h).
  { unfold start. destruct chunks as [|c chunks].
    - cbn [concat read_loop]. by rewrite on_chunk_nil.
    - apply read_loop_cons. }
  intros split_run whole_run. subst split_run whole_run. by rewrite E.
Qed.

(** A line leaves the accumulator and the events alone, or appends one
    truthy fragment to both. *)
Lemma process_line_cases acc line :
  process_line acc line = acc \/
  exists parsed content,
    JSON_parse (slice 6 (trim line)) = Some parsed /\
    delta_content parsed = Some content /\
    truthy content = true /\
    process_line acc line =
      (fst acc ++ ToString content, snd acc ++ [ContentDelta content]).
Proof.
  unfold process_line.
  destruct (negb (nonempty (trim line))
            || str_eqb (trim line) (js "data: [DONE]")); [by left|].
  destruct (startsWith (js "data: ") (trim line)); [|by left].
  destruct (JSON_parse (slice 6 (trim line))) as [parsed|] eqn:Ep;
    [|by left].
  destruct (delta_content parsed) as [content|] eqn:Ec; [|by left].
  destruct (truthy content) eqn:Ht; [|by left].
  right. by exists parsed, content.
Qed.

Lemma process_line_content acc line :
  Forall (fun e => is_content e = true) (snd acc) ->
  Forall (fun e => is_content e = true) (snd (process_line acc line)).
Proof.
  intros Hacc.
  destruct (process_line_cases acc line) as [->|(p & c & _ & _ & _ & ->)];
    [exact Hacc|].
  simpl. apply Forall_app. split; [exact Hacc | by repeat constructor].
Qed.

Lemma fold_process_content lines : forall acc,
  Forall (fun e => is_content e = true) (snd acc) ->
  Forall (fun e => is_content e = true)
    (snd (fold_left process_line lines acc)).
Proof.
  induction lines as [|l lines IH]; intros acc Hacc; simpl; [exact Hacc|].
  apply IH. by apply process_line_content.
Qed.

Lemma on_chunk_content st value :
  Forall (fun e => is_content e = true) (sent st) ->
  Forall (fun e => is_content e = true) (sent (on_chunk st value)).
Proof.
  intros Hst. unfold on_chunk.
  destruct (decode (decoder st) value) as [d text].
  pose proof (fold_process_content
                (removelast (split LF (buffer st ++ text)))
                (fullContent st, sent st) Hst) as Hf.
  destruct (fold_left process_line _ _) as [fc sn]. exact Hf.
Qed.

(** What the last round enqueues: structured events, then [Done]. *)
Lemma on_done_shape videoLinks cfg fc h :
  exists evs,
    fst (on_done videoLinks cfg fc h) = evs ++ [Done] /\
    Forall (fun e => structured e = true) evs.
Proof.
  unfold on_done. destruct (nonempty fc); [|by exists []].
  destruct (Nat.ltb 0 (length videoLinks)).
  - destruct (handleVideoLinkParsing videoLinks h) as [pv h1].
    destruct (isYouTubeRecommendation cfg fc).
    + destruct (searchYouTubeVideos _ cfg h1) as [[vs|] h2].
      * exists [VideoLinks pv; YoutubeVideos vs]. by repeat constructor.
      * exists [VideoLinks pv]. by repeat constructor.
    + destruct (Nat.ltb 0 (length (extractRecommendations fc))).
      * eexists [VideoLinks pv; Recommendations _]. by repeat constructor.
      * exists [VideoLinks pv]. by repeat constructor.
  - destruct (isYouTubeRecommendation cfg fc).
    + destruct (searchYouTubeVideos _ cfg h) as [[vs|] h2].
      * exists [YoutubeVideos vs]. by repeat constructor.
      * by exists [].
    + destruct (Nat.ltb 0 (length (extractRecommendations fc))).
      * eexists [Recommendations _]. by repeat constructor.
      * by exists [].
Qed.

Lemma read_loop_shape videoLinks cfg fin h : forall chunks st,
  Forall (fun e => is_content e = true) (sent st) ->
  let r := read_loop videoLinks cfg chunks fin st h in
  match fin with
  | EndOfStream =>
    status r = Closed /\
    exists deltas evs,
      enqueued r = deltas ++ evs ++ [Done] /\
      Forall (fun e => is_content e = true) deltas /\
      Forall (fun e => structured e = true) evs
  | ReadFails =>
    status r = Errored /\ Forall (fun e => is_content e = true) (enqueued r)
  end.
Proof.
  induction chunks as [|c chunks IH]; intros st Hst.
  - simpl. destruct fin.
    + destruct (on_done_shape videoLinks cfg (fullContent st) h)
        as (evs & Hev & Hs).
      destruct (on_done videoLinks cfg (fullContent st) h) as [final h'].
      simpl in *. subst final. split; [reflexivity|].
      by exists (sent st), evs.
    + by split.
  - simpl. apply IH. by apply on_chunk_content.
Qed.


Lemma content_not_done (e : SSEEvent) : is_content e = true -> e <> Done.
Proof. by destruct e. Qed.

Lemma structured_not_done (e : SSEEvent) : structured e = true -> e <> Done.
Proof. by destruct e. Qed.

(** C5 (as the code has it).  When the upstream body is read to its end,
    the stream is closed and the last thing enqueued is the literal line
    [data: [DONE]] followed by two newlines, enqueued once.  When a read
    fails the stream is errored and no such line is enqueued, and when the
    upstream answer has no body the stream is closed with nothing
    enqueued. *)
Theorem stream_final_event d0 userMessage cfg h :
  (forall chunks,
     let r := start d0 userMessage cfg (Body chunks EndOfStream) h in
     status r = Closed /\
     last (wire_stream r) = Some DONE_LINE /\
     exists before,
       enqueued r = before ++ [Done] /\
       Forall (fun e => e <> Done) before) /\
  (forall chunks,
     let r := start d0 userMessage cfg (Body chunks ReadFails) h in
     status r = Errored /\ Forall (fun e => e <> Done) (enqueued r)) /\
  (let r := start d0 userMessage cfg NoBody h in
   status r = Closed /\ enqueued r = []).
Proof.
  split; [|split].
  - intros chunks r. subst r. unfold start, wire_stream.
    destruct (read_loop_shape (detectVideoLinks userMessage) cfg EndOfStream
                h chunks
                {| decoder := d0; buffer := []; fullContent := [];
                   sent := [] |}) as (Hst & deltas & evs & He & Hd & Hs);
      [constructor|].
    split; [exact Hst|]. rewrite He. split.
    + rewrite !map_app. cbn [map]. by rewrite !app_assoc, last_snoc.
    + exists (deltas ++ evs). split; [by rewrite app_assoc|].
      apply Forall_app. split.
      * eapply Forall_impl; [exact Hd|]. apply content_not_done.
      * eapply Forall_impl; [exact Hs|]. apply structured_not_done.
  - intros chunks r. subst r. unfold start.
    destruct (read_loop_shape (detectVideoLinks userMessage) cfg ReadFails
                h chunks
                {| decoder := d0; buffer := []; fullContent := [];
                   sent := [] |}) as (Hst & Hd); [constructor|].
    split; [exact Hst|].
    eapply Forall_impl; [exact Hd|]. apply content_not_done.
  - by split.
Qed.

(** C10.  A data line that parses and whose delta has no content, or the
    empty string for content, leaves the accumulated text and the events
    as they were.  In general a line either changes nothing or appends one
    truthy fragment to the text and forwards it as one content event; a
    fragment that is a string is then not empty. *)
Theorem empty_delta_ignored (acc : jsstring * list SSEEvent)
    (line : jsstring) :
  (forall parsed,
     startsWith (js "data: ") (trim line) = true ->
     JSON_parse (slice 6 (trim line)) = Some parsed ->
     delta_content parsed = Some JUndefined \/
     delta_content parsed = Some (JStr []) ->
     process_line acc line = acc) /\
  (process_line acc line = acc \/
   exists parsed content,
     JSON_parse (slice 6 (trim line)) = Some parsed /\
     delta_content parsed = Some content /\
     truthy content = true /\
     (forall s, content = JStr s -> s <> []) /\
     process_line acc line =
       (fst acc ++ ToString content, snd acc ++ [ContentDelta content])).
Proof.
  split.
  - intros parsed Hstart Hparse Hcontent. unfold process_line.
    destruct (negb (nonempty (trim line))
              || str_eqb (trim line) (js "data: [DONE]")); [reflexivity|].
    rewrite Hstart, Hparse. by destruct Hcontent as [-> | ->].
  - destruct (process_line_cases acc line)
      as [E|(parsed & content & Hp & Hc & Ht & E)]; [by left|].
    right. exists parsed, content. repeat split; try assumption.
    intros s -> ->. discriminate Ht.
Qed.

(** An object with one payload and the matching [type]. *)
Lemma one_payload (c : Completion) :
  (exists pv, c = {| c_videoLinks := Some pv; c_youtubeVideos := None;
                     c_recommendations := None;
                     c_type := Some (js "video_link_parse") |}) \/
  (exists vs, c = {| c_videoLinks := None; c_youtubeVideos := Some vs;
                     c_recommendations := None;
                     c_type := Some (js "youtube_recommend") |}) \/
  (exists rs, c = {| c_videoLinks := None; c_youtubeVideos := None;
                     c_recommendations := Some rs; c_type := None |}) ->
  payload_count c = 1%nat /\
  (is_Some (c_videoLinks c) <-> c_type c = Some (js "video_link_parse")) /\
  (is_Some (c_youtubeVideos c) <->
     c_type c = Some (js "youtube_recommend")) /\
  (is_Some (c_recommendations c) <-> c_type c = None).
Proof.
  assert (Hne : js "video_link_parse" <> js "youtube_recommend")
    by (vm_compute; discriminate).
  assert (Hno : forall A, ~ is_Some (@None A)) by (by intros A [? [=]]).
  intros [[pv ->]|[[vs ->]|[rs ->]]];
    cbn [payload_count carried c_videoLinks c_youtubeVideos
           c_recommendations c_type];
    (split; [reflexivity|]); (split; [|split]); split; intros Hx;
    first [ reflexivity
          | exact (ex_intro _ _ eq_refl)
          | exfalso; exact (Hno _ Hx)
          | discriminate Hx
          | exfalso; injection Hx as Hx;
            first [exact (Hne Hx) | exact (Hne (eq_sym Hx))] ].
Qed.

(** The payloads of the answer without streaming. *)
Lemma nonStreaming_payload userMessage cfg aiResult h :
  match aiResult with
  | Message (Some content) =>
    if nonempty (trim content) then
      exists c,
        fst (nonStreaming userMessage cfg aiResult h) = CompletionResponse c /\
        payload_count c = 1%nat /\
        (is_Some (c_videoLinks c) <-> detectVideoLinks userMessage <> []) /\
        (is_Some (c_videoLinks c) <->
           c_type c = Some (js "video_link_parse")) /\
        (is_Some (c_youtubeVideos c) <->
           c_type c = Some (js "youtube_recommend")) /\
        (is_Some (c_recommendations c) <-> c_type c = None) /\
        (forall pv, c_videoLinks c = Some pv ->
           pv = fst (handleVideoLinkParsing
                       (detectVideoLinks userMessage) h)) /\
        (is_Some (c_youtubeVideos c) ->
           isYouTubeRecommendation cfg content = true) /\
        (forall rs, c_recommendations c = Some rs ->
           rs = extractRecommendations content) /\
        (detectVideoLinks userMessage = [] ->
         isYouTubeRecommendation cfg content = true ->
         forall vs h',
           searchYouTubeVideos (extractYouTubeSearchKeywords content) cfg h =
             (Some vs, h') ->
           c_youtubeVideos c = Some vs)
    else
      exists error,
        fst (nonStreaming userMessage cfg aiResult h) =
          ErrorResponse 500 error
  | _ =>
    exists error,
      fst (nonStreaming userMessage cfg aiResult h) = ErrorResponse 500 error
  end.
Proof.
  unfold nonStreaming. destruct aiResult as [|[content|]];
    [by eexists| |by eexists].
  change (default [] (Some content)) with content.
  destruct (nonempty (trim content)) eqn:Et;
    [|cbn [negb]; rewrite orb_true_r; by eexists].
  assert (Hc : nonempty content = true).
  { destruct content; [discriminate Et|reflexivity]. }
  rewrite Hc. cbn [negb orb].
  assert (Hnone : forall A, ~ is_Some (@None A)) by (by intros A [? [=]]).
  destruct (detectVideoLinks userMessage) as [|l ls] eqn:El;
    cbn [length Nat.ltb Nat.leb].
  - assert (Hno : forall c : Completion,
              c_videoLinks c = None ->
              (is_Some (c_videoLinks c) <-> @nil VideoLink <> [])).
    { intros c ->. split; [by intros [? [=]] | done]. }
    destruct (isYouTubeRecommendation cfg content) eqn:Ey.
    + destruct (searchYouTubeVideos _ cfg h) as [[vs|] h'] eqn:Es;
        cbn [fst].
      * eexists. split; [reflexivity|].
        match goal with
        | |- payload_count ?c = _ /\ _ =>
          destruct (one_payload c) as (P1 & P2 & P3 & P4);
            [right; left; by eexists|]
        end.
        split; [exact P1|]. split; [by apply Hno|].
        split; [exact P2|]. split; [exact P3|]. split; [exact P4|].
        cbn [c_videoLinks c_youtubeVideos c_recommendations].
        split; [discriminate|]. split; [done|]. split; [discriminate|].
        intros _ _ vs' h'' [= <- _]. reflexivity.
      * eexists. split; [reflexivity|].
        match goal with
        | |- payload_count ?c = _ /\ _ =>
          destruct (one_payload c) as (P1 & P2 & P3 & P4);
            [right; right; by eexists|]
        end.
        split; [exact P1|]. split; [by apply Hno|].
        split; [exact P2|]. split; [exact P3|]. split; [exact P4|].
        cbn [c_videoLinks c_youtubeVideos c_recommendations].
        split; [discriminate|]. split; [done|].
        split; [by intros rs [= <-]|]. by intros _ _ vs' h''.
    + cbn [fst]. eexists. split; [reflexivity|].
      match goal with
      | |- payload_count ?c = _ /\ _ =>
        destruct (one_payload c) as (P1 & P2 & P3 & P4);
          [right; right; by eexists|]
      end.
      split; [exact P1|]. split; [by apply Hno|].
      split; [exact P2|]. split; [exact P3|]. split; [exact P4|].
      cbn [c_videoLinks c_youtubeVideos c_recommendations].
      split; [discriminate|].
      split; [intros Hs; destruct (Hnone _ Hs)|].
      split; [by intros rs [= <-]|]. by intros _ [=].
  - destruct (handleVideoLinkParsing (l :: ls) h) as [pv h'] eqn:Ep.
    cbn [fst]. eexists. split; [reflexivity|].
    match goal with
    | |- payload_count ?c = _ /\ _ =>
      destruct (one_payload c) as (P1 & P2 & P3 & P4);
        [left; by eexists|]
    end.
    split; [exact P1|].
    split; [cbn [c_videoLinks]; split; [done | by eexists]|].
    split; [exact P2|]. split; [exact P3|]. split; [exact P4|].
    cbn [c_videoLinks c_youtubeVideos c_recommendations].
    split; [by intros ? [= <-]|].
    split; [intros Hs; destruct (Hnone _ Hs)|].
    split; [discriminate|]. by intros [=].
Qed.

#[local] Ltac payload_tail :=
  repeat split; intros;
  repeat match goal with
         | Hin : In _ (_ :: _) |- _ => destruct Hin as [Hin|Hin]
         | Hin : In _ [] |- _ => destruct Hin
         end;
  repeat split; try done; try congruence.

(** The structured events of the last round of a stream. *)
Lemma on_done_payload videoLinks cfg fc h :
  exists evs,
    fst (on_done videoLinks cfg fc h) = evs ++ [Done] /\
    Forall (fun e => structured e = true) evs /\
    match videoLinks with
    | [] =>
      evs = [] \/ (exists vs, evs = [YoutubeVideos vs]) \/
      (exists rs, evs = [Recommendations rs])
    | _ :: _ =>
      (fc = [] /\ evs = []) \/ (exists pv rest, evs = VideoLinks pv :: rest)
    end /\
    (forall pv, In (VideoLinks pv) evs ->
       pv = fst (handleVideoLinkParsing videoLinks h)) /\
    (forall vs, In (YoutubeVideos vs) evs ->
       isYouTubeRecommendation cfg fc = true) /\
    (forall rs, In (Recommendations rs) evs ->
       rs = extractRecommendations fc /\ rs <> []) /\
    (videoLinks = [] -> isYouTubeRecommendation cfg fc = false ->
     extractRecommendations fc = [] -> evs = []) /\
    (videoLinks = [] -> isYouTubeRecommendation cfg fc = false ->
     extractRecommendations fc <> [] ->
     evs = [Recommendations (extractRecommendations fc)]) /\
    (videoLinks = [] -> isYouTubeRecommendation cfg fc = true ->
     forall vs h',
       searchYouTubeVideos (extractYouTubeSearchKeywords fc) cfg h =
         (Some vs, h') ->
       evs = [YoutubeVideos vs]).
Proof.
  unfold on_done. destruct fc as [|x fc]; cbn [nonempty].
  { exists []. split; [reflexivity|]. split; [constructor|].
    split; [destruct videoLinks; left; [reflexivity | by split]|].
    assert (Hy : isYouTubeRecommendation cfg [] = false).
    { unfold isYouTubeRecommendation.
      replace (includes (js "【") []) with false by (vm_compute; reflexivity).
      by rewrite andb_false_r. }
    assert (Hr : extractRecommendations [] = [])
      by (vm_compute; reflexivity).
    rewrite Hy, Hr. payload_tail. }
  set (content := x :: fc).
  destruct videoLinks as [|l ls]; cbn [length Nat.ltb Nat.leb].
  - destruct (isYouTubeRecommendation cfg content) eqn:Ey.
    + destruct (searchYouTubeVideos _ cfg h) as [[vs|] h2] eqn:Es.
      * exists [YoutubeVideos vs]. split; [reflexivity|].
        split; [by repeat constructor|].
        split; [right; left; by exists vs|]. payload_tail.
      * exists []. split; [reflexivity|]. split; [constructor|].
        split; [by left|]. payload_tail.
    + destruct (extractRecommendations content) as [|r rs] eqn:Er.
      * exists []. split; [reflexivity|]. split; [constructor|].
        split; [by left|]. payload_tail.
      * exists [Recommendations (r :: rs)].
        split; [reflexivity|]. split; [by repeat constructor|].
        split; [right; right; by eexists|]. payload_tail.
  - destruct (handleVideoLinkParsing (l :: ls) h) as [pv h1] eqn:Ep.
    cbn [fst].
    destruct (isYouTubeRecommendation cfg content) eqn:Ey.
    + destruct (searchYouTubeVideos _ cfg h1) as [[vs|] h2] eqn:Es.
      * exists [VideoLinks pv; YoutubeVideos vs]. split; [reflexivity|].
        split; [by repeat constructor|].
        split; [right; by eexists _, _|]. payload_tail.
      * exists [VideoLinks pv]. split; [reflexivity|].
        split; [by repeat constructor|].
        split; [right; by eexists _, _|]. payload_tail.
    + destruct (extractRecommendations content) as [|r rs] eqn:Er.
      * exists [VideoLinks pv]. split; [reflexivity|].
        split; [by repeat constructor|].
        split; [right; by eexists _, _|]. payload_tail.
      * exists [VideoLinks pv; Recommendations (r :: rs)].
        split; [reflexivity|]. split; [by repeat constructor|].
        split; [right; by eexists _, _|]. payload_tail.
Qed.

(** C1 (as the code has it).  Without streaming, a reply that is not
    blank is answered with an object that carries exactly one of
    [videoLinks], [youtubeVideos] and [recommendations] (any other upstream
    answer is answered 500); [videoLinks] is the one exactly when the user
    message has a video link, and the answer has the [type]
    [video_link_parse] or [youtube_recommend] with the first two and no
    [type] with [recommendations].  The links carried are the results for
    the links of the message; without a link, a reply classified as a
    YouTube recommendation carries the videos that the search gives, and
    videos are carried for no other reply; the recommendations carried
    are the lines extracted from the reply.  With streaming, what
    is enqueued at the end of the upstream is a list of structured events
    and then [Done]; when the user message has no video link the list has
    at most one event: for a reply classified as a YouTube recommendation
    the videos found, where the search gives any, and for another reply
    the recommendation lines extracted from it, where there are any; when
    the message has a link and the reply is not empty the list starts
    with [video_links].  A [recommendations] event carries the lines
    extracted from the reply and is never empty. *)
Theorem one_payload_per_reply userMessage cfg h :
  (forall aiResult,
     match aiResult with
     | Message (Some content) =>
       if nonempty (trim content) then
         exists c,
           fst (nonStreaming userMessage cfg aiResult h) =
             CompletionResponse c /\
           payload_count c = 1%nat /\
           (is_Some (c_videoLinks c) <->
              detectVideoLinks userMessage <> []) /\
           (is_Some (c_videoLinks c) <->
              c_type c = Some (js "video_link_parse")) /\
           (is_Some (c_youtubeVideos c) <->
              c_type c = Some (js "youtube_recommend")) /\
           (is_Some (c_recommendations c) <-> c_type c = None) /\
           (forall pv, c_videoLinks c = Some pv ->
              pv = fst (handleVideoLinkParsing
                          (detectVideoLinks userMessage) h)) /\
           (is_Some (c_youtubeVideos c) ->
              isYouTubeRecommendation cfg content = true) /\
           (forall rs, c_recommendations c = Some rs ->
              rs = extractRecommendations content) /\
           (detectVideoLinks userMessage = [] ->
            isYouTubeRecommendation cfg content = true ->
            forall vs h',
              searchYouTubeVideos (extractYouTubeSearchKeywords content)
                cfg h = (Some vs, h') ->
              c_youtubeVideos c = Some vs)
       else
         exists error,
           fst (nonStreaming userMessage cfg aiResult h) =
             ErrorResponse 500 error
     | _ =>
       exists error,
         fst (nonStreaming userMessage cfg aiResult h) =
           ErrorResponse 500 error
     end) /\
  (forall fullContent,
     exists evs,
       fst (on_done (detectVideoLinks userMessage) cfg fullContent h) =
         evs ++ [Done] /\
       Forall (fun e => structured e = true) evs /\
       match detectVideoLinks userMessage with
       | [] =>
         evs = [] \/ (exists vs, evs = [YoutubeVideos vs]) \/
         (exists rs, evs = [Recommendations rs])
       | _ :: _ =>
         (fullContent = [] /\ evs = []) \/
         (exists pv rest, evs = VideoLinks pv :: rest)
       end /\
       (forall pv, In (VideoLinks pv) evs ->
          pv = fst (handleVideoLinkParsing
                      (detectVideoLinks userMessage) h)) /\
       (forall vs, In (YoutubeVideos vs) evs ->
          isYouTubeRecommendation cfg fullContent = true) /\
       (forall rs, In (Recommendations rs) evs ->
          rs = extractRecommendations fullContent /\ rs <> []) /\
       (detectVideoLinks userMessage = [] ->
        isYouTubeRecommendation cfg fullContent = false ->
        extractRecommendations fullContent = [] -> evs = []) /\
       (detectVideoLinks userMessage = [] ->
        isYouTubeRecommendation cfg fullContent = false ->
        extractRecommendations fullContent <> [] ->
        evs = [Recommendations (extractRecommendations fullContent)]) /\
       (detectVideoLinks userMessage = [] ->
        isYouTubeRecommendation cfg fullContent = true ->
        forall vs h',
          searchYouTubeVideos (extractYouTubeSearchKeywords fullContent)
            cfg h = (Some vs, h') ->
          evs = [YoutubeVideos vs])).
Proof.
  split.
  - intros aiResult. apply nonStreaming_payload.
  - intros fullContent. apply on_done_payload.
Qed.

End Facts.

Lemma empty_delta_ignored_witness :
  process_line (H := Fixtures.runtime) (js "Hi", [])
    (js "data: " ++ Fixtures.json_empty) = (js "Hi", []) /\
  process_line (H := Fixtures.runtime) (js "Hi", [])
    (js "data: " ++ Fixtures.json_absent) = (js "Hi", []).
Proof.
  split.
  - apply (proj1 (empty_delta_ignored (H := Fixtures.runtime) (js "Hi", [])
                    (js "data: " ++ Fixtures.json_empty))
             (Fixtures.chunk_value [(js "content", JStr [])])).
    + vm_compute. reflexivity.
    + vm_compute. reflexivity.
    + right. vm_compute. reflexivity.
  - apply (proj1 (empty_delta_ignored (H := Fixtures.runtime) (js "Hi", [])
                    (js "data: " ++ Fixtures.json_absent))
             (Fixtures.chunk_value [(js "role", JStr (js "assistant"))])).
    + vm_compute. reflexivity.
    + vm_compute. reflexivity.
    + left. vm_compute. reflexivity.
Defined.

Lemma one_payload_per_reply_witness :
  exists c,
    fst (nonStreaming (H := Fixtures.offline) (js "recommend a film")
           Fixtures.youtube_off (Message (Some Fixtures.movie_reply)) []) =
      CompletionResponse c /\
    payload_count c = 1%nat /\
    c_recommendations c = Some (extractRecommendations Fixtures.movie_reply).
Proof.
  pose proof (proj1 (one_payload_per_reply (H := Fixtures.runtime)
                       (H0 := Fixtures.offline) (js "recommend a film")
                       Fixtures.youtube_off [])
                (Message (Some Fixtures.movie_reply))) as Hw.
  cbv beta iota in Hw.
  assert (E : nonempty (trim Fixtures.movie_reply) = true)
    by (vm_compute; reflexivity).
  rewrite E in Hw.
  destruct Hw as (c & Hc & Hn & _ & _ & _ & Hr & _ & _ & Hrs & _).
  exists c. split; [exact Hc|]. split; [exact Hn|].
  assert (Ht : c_type c = None).
  { vm_compute in Hc. by injection Hc as <-. }
  destruct (proj2 Hr Ht) as [rs Hsome]. rewrite Hsome.
  by rewrite (Hrs rs Hsome).
Defined.

(** The claim as the specification words it fails on both paths: a stream
    for a message with a link and a reply with a recommendation line
    carries two structured events, and the answer without streaming that
    carries [recommendations] has no [type]. *)
Lemma two_payloads_in_one_stream :
  let evs :=
    fst (on_done (H := Fixtures.runtime) (H0 := Fixtures.offline)
           (detectVideoLinks Fixtures.link_message) Fixtures.youtube_off
           Fixtures.movie_reply []) in
  length (List.filter structured evs) = 2%nat /\
  exists c,
    fst (nonStreaming (H := Fixtures.offline) (js "recommend a film")
           Fixtures.youtube_off (Message (Some Fixtures.movie_reply)) []) =
      CompletionResponse c /\
    c_type c = None.
Proof.
  split; [vm_compute; reflexivity|].
  eexists. split; [vm_compute; reflexivity | reflexivity].
Qed.

(** The claim as the specification words it fails when the upstream
    answer has no body: the stream is closed and nothing was enqueued. *)
Lemma stream_closed_without_done :
  let r := start (H := Fixtures.runtime) (H0 := Fixtures.offline) tt
             Fixtures.link_message Fixtures.youtube_off NoBody [] in
  status r = Closed /\
  last (wire_stream r) <> Some DONE_LINE.
Proof. split; [reflexivity | discriminate]. Qed.

(** A stream whose second read fails forwards the fragment of the first
    read and is then errored; no [Done] follows. *)
Example stream_errored_without_done :
  let r := start (H := Fixtures.runtime) (H0 := Fixtures.offline) tt
             Fixtures.link_message Fixtures.youtube_off
             (Body [js "data: " ++ Fixtures.json_hi ++ [LF]] ReadFails) [] in
  status r = Errored /\
  enqueued r = [ContentDelta (JStr (js "Hi"))] /\
  accumulated r = js "Hi".
Proof. repeat split; vm_compute; reflexivity. Qed.

(** The same upstream read to its end: the fragment, the links of the
    user message, and [Done]. *)
Example stream_with_link :
  let r := start (H := Fixtures.runtime) (H0 := Fixtures.offline) tt
             Fixtures.link_message Fixtures.youtube_off
             (Body [js "data: " ++ Fixtures.json_hi ++ [LF]] EndOfStream)
             [] in
  status r = Closed /\
  map is_content (enqueued r) = [true; false; false] /\
  last (enqueued r) = Some Done.
Proof. repeat split; vm_compute; reflexivity. Qed.

End TranscoderFacts.

Module ProxyFacts.
Import JS Proxy JSFacts.

#[local] Opaque lit plus rep.

Lemma videoIdPattern_sound v :
  test videoIdPattern v = true ->
  length v = 11%nat /\ forallb is_id_char v = true.
Proof.
  unfold test, exec.
  destruct (search videoIdPattern v v) as [m|] eqn:E; [|discriminate].
  intros _. apply search_sound in E as (pre & Hv & D).
  unfold videoIdPattern in D. inv_seq D. inv_seq D1.
  inversion D0; subst. inversion D2; subst.
  apply den_rep_cls in D as (run & E & Hlen & Hrun & _).
  match goal with Hr : [] = m_rest _ |- _ => rewrite <- Hr in * end.
  rewrite !app_nil_r in *. subst run.
  match goal with
  | Hl : length _ = length (_ ++ _) |- _ =>
    rewrite length_app in Hl; destruct pre; [|simpl in Hl; lia]
  end.
  by split.
Qed.

#[local] Transparent lit plus rep.

Lemma search_here r inp s s' c :
  match_here r inp s = Some (s', c) ->
  search r inp s =
    Some {| m_index := length inp - length s; m0 := consumed s s';
            m_caps := c; m_rest := s' |}.
Proof. intros E. destruct s; simpl; by rewrite E. Qed.

Lemma videoIdPattern_complete v :
  length v = 11%nat -> forallb is_id_char v = true ->
  test videoIdPattern v = true.
Proof.
  intros Hlen Hv.
  do 11 (destruct v as [|? v]; [discriminate|]).
  destruct v; [|discriminate].
  cbn [forallb] in Hv.
  repeat match goal with
         | Hx : _ && _ = true |- _ => apply andb_prop in Hx as [? Hx]
         end.
  unfold test, exec. erewrite search_here; [reflexivity|].
  unfold match_here, videoIdPattern.
  cbn [rmatch rep length Nat.eqb].
  repeat match goal with
         | Hx : is_id_char _ = true |- _ => rewrite Hx; clear Hx
         end.
  reflexivity.
Qed.

Section Facts.
Context `{Network}.

Lemma probe_instances_first instances : forall h k instance,
  instances !! k = Some instance ->
  (forall j inst, (j < k)%nat -> instances !! j = Some inst ->
     alive (h ++ probes (take j instances)) inst = false) ->
  alive (h ++ probes (take k instances)) instance = true ->
  probe_instances instances h =
    (Some instance, h ++ probes (take (S k) instances)).
Proof.
  induction instances as [|i0 rest IH]; intros h k instance Hk Hdead Hlive;
    [done|].
  destruct k as [|k]; cbn [probe_instances].
  - injection Hk as ->. cbn [take probes map] in *.
    rewrite app_nil_r in Hlive. unfold alive in Hlive.
    destruct (net h (statsRequest instance)) as [|r]; [discriminate|].
    by rewrite Hlive.
  - pose proof (Hdead 0%nat i0 ltac:(lia) eq_refl) as H0.
    cbn [take probes map] in H0. rewrite app_nil_r in H0.
    unfold alive in H0.
    assert (Hrec : probe_instances rest (h ++ [statsRequest i0]) =
                   (Some instance,
                    h ++ probes (take (S (S k)) (i0 :: rest)))).
    { rewrite (IH (h ++ [statsRequest i0]) k instance Hk).
      - cbn [take probes map]. by rewrite <- app_assoc.
      - intros j inst Hj Hl.
        specialize (Hdead (S j) inst ltac:(lia) Hl).
        cbn [take probes map] in Hdead. by rewrite <- app_assoc.
      - cbn [take probes map] in Hlive. by rewrite <- app_assoc. }
    destruct (net h (statsRequest i0)) as [|r]; [exact Hrec|].
    rewrite H0. exact Hrec.
Qed.

Lemma probe_instances_none instances : forall h,
  (forall j inst, instances !! j = Some inst ->
     alive (h ++ probes (take j instances)) inst = false) ->
  probe_instances instances h = (None, h ++ probes instances).
Proof.
  induction instances as [|i0 rest IH]; intros h Hdead;
    cbn [probe_instances].
  - by rewrite app_nil_r.
  - pose proof (Hdead 0%nat i0 eq_refl) as H0.
    cbn [take probes map] in H0. rewrite app_nil_r in H0.
    unfold alive in H0.
    assert (Hrec : probe_instances rest (h ++ [statsRequest i0]) =
                   (None, h ++ probes (i0 :: rest))).
    { rewrite (IH (h ++ [statsRequest i0])).
      - cbn [probes map]. by rewrite <- app_assoc.
      - intros j inst Hl. specialize (Hdead (S j) inst Hl).
        cbn [take probes map] in Hdead. by rewrite <- app_assoc. }
    destruct (net h (statsRequest i0)) as [|r]; [exact Hrec|].
    rewrite H0. exact Hrec.
Qed.

(** C8.  Discovery probes the instances in order and returns the first
    whose probe succeeds: when the probes of the first [k] instances fail
    and that of the next one succeeds, that one is returned and the
    fetches made are the probes of these [k + 1] instances and no other.
    When every probe fails, the route answers a request for a well-formed
    id with 503, and the fetches made are the probes of the instances of
    the list and nothing else -- no request for the data of the video. *)
Theorem first_live_mirror :
  (forall instances h k instance,
     instances !! k = Some instance ->
     (forall j inst, (j < k)%nat -> instances !! j = Some inst ->
        alive (h ++ probes (take j instances)) inst = false) ->
     alive (h ++ probes (take k instances)) instance = true ->
     probe_instances instances h =
       (Some instance, h ++ probes (take (S k) instances))) /\
  (forall request h videoId,
     q_v request = Some videoId ->
     test videoIdPattern videoId = true ->
     (forall j inst, INVIDIOUS_INSTANCES !! j = Some inst ->
        alive (h ++ probes (take j INVIDIOUS_INSTANCES)) inst = false) ->
     GET request h =
       (JsonError 503 (js "No available proxy instance"),
        h ++ probes INVIDIOUS_INSTANCES)).
Proof.
  split.
  - intros instances. apply probe_instances_first.
  - intros request h videoId Hv Hid Hdead. unfold GET. rewrite Hv, Hid.
    destruct (videoIdPattern_sound _ Hid) as [Hlen _].
    destruct videoId; [discriminate|]. cbn [nonempty negb].
    unfold getWorkingInstance. by rewrite probe_instances_none.
Qed.

Lemma not_ok_not_206 (r : fetch_response) :
  ok r = false -> (rs_status r =? 206)%Z = false.
Proof.
  unfold ok. intros Hok. apply Z.eqb_neq. intros E. rewrite E in Hok.
  discriminate Hok.
Qed.

Ltac header_lookup :=
  unfold hget, hset;
  repeat match goal with
         | |- context [map lower (js ?s)] =>
           let k := eval vm_compute in (map lower (js s)) in
           change (map lower (js s)) with k
         end;
  repeat first
    [ rewrite lookup_insert_eq
    | rewrite lookup_insert_ne by (vm_compute; discriminate)
    | rewrite lookup_empty ];
  try reflexivity.

Lemma streamRequestHeaders_range range :
  hget (js "Range") (streamRequestHeaders range) = truthy_header range.
Proof.
  unfold streamRequestHeaders, truthy_header.
  destruct range as [r|]; [destruct (nonempty r)|]; header_lookup.
Qed.

Lemma header_value_normal v :
  is_header_value v = true -> header_value v = Some v.
Proof.
  unfold is_header_value, header_value. intros Hv.
  apply andb_prop in Hv as [Hv Hlast]. apply andb_prop in Hv as [Hb Hfirst].
  assert (Hbytes : forallb (fun c => c <=? 0xFF) v = true).
  { apply forallb_forall. intros c Hc.
    pose proof (proj1 (forallb_forall _ _) Hb c Hc) as Hx.
    unfold is_value_byte in Hx. by apply andb_prop in Hx as [Hx _]. }
  assert (Hn : normalize v = v).
  { unfold normalize.
    assert (Hs : forall s : jsstring,
              match s with
              | c :: _ => negb (is_http_whitespace c)
              | [] => true
              end = true -> strip_start s = s).
    { intros [|c s] Hc; [reflexivity|]. cbn [strip_start].
      apply negb_true_iff in Hc. by rewrite Hc. }
    rewrite (Hs v Hfirst), (Hs (rev v) Hlast). apply rev_involutive. }
  by rewrite Hbytes, Hn, Hb.
Qed.

Lemma json_status_refused status :
  ((200 <=? status) && (status <=? 299))%Z = false ->
  (json_status status = true <->
   (300 <= status <= 599)%Z /\ status <> 304%Z).
Proof.
  unfold json_status, null_body_status. intros Hok.
  destruct (Z.leb_spec 200 status), (Z.leb_spec status 299),
    (Z.leb_spec status 599); cbn [andb] in *; try discriminate Hok;
    destruct (Z.eqb_spec status 101), (Z.eqb_spec status 103),
      (Z.eqb_spec status 204), (Z.eqb_spec status 205),
      (Z.eqb_spec status 304); cbn [orb negb];
    (split; [intros Hj; try discriminate Hj; lia
            |intros [? ?]; try reflexivity; lia]).
Qed.

Lemma hget_hset (name k v : jsstring) (hs : headers) :
  hget name (hset k v hs) <> None ->
  map lower name = map lower k \/ hget name hs <> None.
Proof.
  unfold hget, hset. intros Hn.
  destruct (decide (map lower k = map lower name)) as [E|E]; [by left|].
  right. by rewrite lookup_insert_ne in Hn.
Qed.

Lemma hget_hset_in (name k v : jsstring) (hs : headers)
    (keys : list jsstring) :
  (hget name hs <> None -> In (map lower name) keys) ->
  In (map lower k) keys ->
  hget name (hset k v hs) <> None -> In (map lower name) keys.
Proof.
  intros Hrest Hk Hn. apply hget_hset in Hn as [->|Hn]; [exact Hk|].
  by apply Hrest.
Qed.

Lemma hget_empty (name : jsstring) : hget name (∅ : headers) = None.
Proof. apply lookup_empty. Qed.

Lemma streamResponseHeaders_lookup format up :
  match header_value (str_or_default (f_type format) (js "video/mp4")),
        stored (truthy_header (hget (js "Content-Length") (rs_headers up))),
        stored (truthy_header (hget (js "Content-Range") (rs_headers up)))
  with
  | Some contentType, Some contentLength, Some contentRange =>
    exists hs,
      streamResponseHeaders format up = Some hs /\
      hget (js "Content-Length") hs = contentLength /\
      hget (js "Content-Range") hs = contentRange /\
      hget (js "Content-Type") hs = Some contentType /\
      hget (js "Accept-Ranges") hs = Some (js "bytes") /\
      hget (js "Access-Control-Allow-Origin") hs = Some (js "*") /\
      hget (js "Access-Control-Allow-Methods") hs =
        Some (js "GET, HEAD, OPTIONS") /\
      hget (js "Access-Control-Allow-Headers") hs = Some (js "Range") /\
      (forall name, hget name hs <> None ->
         In (map lower name)
            [js "content-type"; js "content-length"; js "content-range";
             js "accept-ranges"; js "access-control-allow-origin";
             js "access-control-allow-methods";
             js "access-control-allow-headers"])
  | _, _, _ => streamResponseHeaders format up = None
  end.
Proof.
  unfold streamResponseHeaders, set_if_present, Headers_set, stored,
    truthy_header.
  assert (E1 : header_value (js "*") = Some (js "*"))
    by (vm_compute; reflexivity).
  assert (E2 : header_value (js "GET, HEAD, OPTIONS") =
               Some (js "GET, HEAD, OPTIONS")) by (vm_compute; reflexivity).
  assert (E3 : header_value (js "Range") = Some (js "Range"))
    by (vm_compute; reflexivity).
  assert (E4 : header_value (js "bytes") = Some (js "bytes"))
    by (vm_compute; reflexivity).
  rewrite E1, E2, E3, E4.
  destruct (header_value (str_or_default _ _)) as [ct|];
    cbn [mbind option_bind]; [|reflexivity].
  destruct (hget (js "Content-Length") (rs_headers up)) as [cl|];
    [destruct (nonempty cl); [destruct (header_value cl) as [cl'|]|]|];
    cbn [mbind option_bind fmap option_fmap option_map]; try reflexivity;
    (destruct (hget (js "Content-Range") (rs_headers up)) as [cr|];
     [destruct (nonempty cr); [destruct (header_value cr) as [cr'|]|]|]);
    cbn [mbind option_bind fmap option_fmap option_map]; try reflexivity;
    (eexists; split; [reflexivity|];
     do 7 (split; [header_lookup|]);
     intros name;
     repeat match goal with
            | |- hget _ (hset _ _ _) <> None -> _ =>
              apply hget_hset_in;
                [|vm_compute; solve [repeat (first [left; reflexivity | right])]]
            end;
     intros Hname; by rewrite hget_empty in Hname).
Qed.

(** C7 (as the code has it).  In stream mode the one fetch made is for the
    direct URL of the format, and it carries the [Range] header of the
    inbound request unchanged when that header is present and not empty.
    When the media host answers with a 2xx status (206 among them), the
    route answers with the same status and body, with the
    [Content-Length] and [Content-Range] of the answer where present and
    not empty, with the CORS headers, with [Accept-Ranges: bytes], and
    with the [Content-Type] of the format descriptor ([video/mp4] when it
    has none), each as [Headers.set] stores it -- unchanged for a value
    that a [Headers] object returned -- and with no other header; when
    the type of the format is no header value, the answer is 500
    instead.  Another status from 300 to
    599 is answered by a JSON error with that status, except 304; a 304
    and a status outside 200..599 are answered 500, as a fetch that
    fails is. *)
Theorem stream_passthrough (format : Format) (directUrl : jsstring)
    (range : option jsstring) (h : history) :
  let rq := {| rq_url := directUrl;
               rq_headers := streamRequestHeaders range |} in
  let result := proxyStream format directUrl range h in
  snd result = h ++ [rq] /\
  hget (js "Range") (rq_headers rq) = truthy_header range /\
  (forall v, is_header_value v = true -> header_value v = Some v) /\
  match net h rq with
  | Rejects => fst result = JsonError 500 (js "Proxy failed")
  | Responds up =>
    if ok up then
      match
        header_value (str_or_default (f_type format) (js "video/mp4")),
        stored (truthy_header (hget (js "Content-Length") (rs_headers up))),
        stored (truthy_header (hget (js "Content-Range") (rs_headers up)))
      with
      | Some contentType, Some contentLength, Some contentRange =>
        exists hs,
          fst result = Stream (rs_status up) hs (rs_body up) /\
          hget (js "Content-Length") hs = contentLength /\
          hget (js "Content-Range") hs = contentRange /\
          hget (js "Content-Type") hs = Some contentType /\
          hget (js "Accept-Ranges") hs = Some (js "bytes") /\
          hget (js "Access-Control-Allow-Origin") hs = Some (js "*") /\
          hget (js "Access-Control-Allow-Methods") hs =
            Some (js "GET, HEAD, OPTIONS") /\
          hget (js "Access-Control-Allow-Headers") hs =
            Some (js "Range") /\
          (forall name, hget name hs <> None ->
             In (map lower name)
                [js "content-type"; js "content-length";
                 js "content-range"; js "accept-ranges";
                 js "access-control-allow-origin";
                 js "access-control-allow-methods";
                 js "access-control-allow-headers"])
      | _, _, _ => fst result = JsonError 500 (js "Proxy failed")
      end
    else
      (json_status (rs_status up) = true <->
       (300 <= rs_status up <= 599)%Z /\ rs_status up <> 304%Z) /\
      fst result =
        if json_status (rs_status up)
        then JsonError (rs_status up) (js "Failed to fetch stream")
        else JsonError 500 (js "Proxy failed")
  end.
Proof.
  intros rq result. subst result. unfold proxyStream. fold rq. cbv zeta.
  split; [|split; [|split]].
  - destruct (net h rq) as [|up]; [reflexivity|].
    destruct (negb (ok up) && negb (rs_status up =? 206)%Z); [reflexivity|].
    by destruct (streamResponseHeaders format up).
  - apply streamRequestHeaders_range.
  - apply header_value_normal.
  - destruct (net h rq) as [|up]; [reflexivity|].
    destruct (ok up) eqn:Hok; cbn [negb andb].
    + pose proof (streamResponseHeaders_lookup format up) as Hl.
      destruct (header_value (str_or_default _ _)) as [ct|];
        [|by rewrite Hl].
      destruct (stored (truthy_header (hget (js "Content-Length") _)))
        as [cl|]; [|by rewrite Hl].
      destruct (stored (truthy_header (hget (js "Content-Range") _)))
        as [cr|]; [|by rewrite Hl].
      destruct Hl as (hs & -> & Hl). by exists hs.
    + rewrite (not_ok_not_206 up Hok). cbn [fst].
      split; [|reflexivity]. by apply json_status_refused.
Qed.

End Facts.

(** The claim as the specification words it fails on the [Content-Type]
    and the [Accept-Ranges] of the media host, which are not relayed: the
    answer to a range request carries the type of the format descriptor
    and [Accept-Ranges: bytes]. *)
Lemma content_type_not_relayed :
  let r := fst (proxyStream (H := Fixtures.media_host) Fixtures.mp4_format
                  (js "https://media.example/videoplayback")
                  (Some (js "bytes=100-199")) []) in
  response_status r = 206%Z /\
  hget (js "Content-Type") (rs_headers Fixtures.partial_content) =
    Some (js "audio/webm") /\
  hget (js "Content-Type") (response_headers r) = Some (js "video/mp4") /\
  hget (js "Accept-Ranges") (rs_headers Fixtures.partial_content) =
    Some (js "none") /\
  hget (js "Accept-Ranges") (response_headers r) = Some (js "bytes").
Proof. repeat split; vm_compute; reflexivity. Qed.

(** A 304 of the media host and a type that is no header value are both
    answered 500. *)
Example stream_answered_500 :
  fst (proxyStream (H := Fixtures.not_modified) Fixtures.mp4_format
         (js "https://media.example/videoplayback") None []) =
    JsonError 500 (js "Proxy failed") /\
  fst (proxyStream (H := Fixtures.media_host) Fixtures.labelled_format
         (js "https://media.example/videoplayback") None []) =
    JsonError 500 (js "Proxy failed").
Proof. split; vm_compute; reflexivity. Qed.

Lemma first_live_mirror_witness :
  getWorkingInstance (H := Fixtures.third_alive) [] =
    (Some (js "https://invidious.jing.rocks"),
     probes (take 3 INVIDIOUS_INSTANCES)) /\
  GET (H := Fixtures.all_down) Fixtures.info_request [] =
    (JsonError 503 (js "No available proxy instance"),
     probes INVIDIOUS_INSTANCES).
Proof.
  split.
  - apply (proj1 (first_live_mirror (H := Fixtures.third_alive))
             INVIDIOUS_INSTANCES [] 2%nat).
    + vm_compute. reflexivity.
    + intros [|[|j]] inst Hj Hl; [| |lia];
        vm_compute in Hl; injection Hl as <-; vm_compute; reflexivity.
    + vm_compute. reflexivity.
  - apply (proj2 (first_live_mirror (H := Fixtures.all_down))
             Fixtures.info_request [] (js "dQw4w9WgXcQ")).
    + reflexivity.
    + vm_compute. reflexivity.
    + intros j inst _. reflexivity.
Defined.

End ProxyFacts.

Module VideoIdFacts.
Import JS Relay Proxy JSFacts ExtractionFacts ProxyFacts.

Lemma parsedVideo_id link o : vr_videoId (parsedVideo link o) = videoId link.
Proof. by destruct o. Qed.

Lemma handleVideoLinkParsing_ids `{Services} links : forall h,
  map vr_videoId (fst (handleVideoLinkParsing links h)) = map videoId links.
Proof.
  induction links as [|l links IH]; intros h; [reflexivity|].
  cbn [handleVideoLinkParsing].
  specialize (IH (h ++ [OembedRequest (oembedUrl (videoId l))])).
  destruct (handleVideoLinkParsing links _) as [out h'].
  cbn [fst map] in *. by rewrite parsedVideo_id, IH.
Qed.

(** C2 (as the code has it).  The proxy accepts exactly the ids of eleven
    id characters (letters, digits, underscore, hyphen) and turns every
    other id down with 400 before any fetch.  The relay takes the id of a
    link to be the run of id characters after the URL prefix: the id of
    every [VideoLinkResult] is a non-empty text of id characters, of
    whatever length; for [https://youtu.be/dQw4w9WgXcQ] it is
    [dQw4w9WgXcQ]. *)
Theorem video_ids_are_id_like :
  (forall v, test videoIdPattern v = true <->
             length v = 11%nat /\ forallb is_id_char v = true) /\
  (forall (nw : Network) request h v,
     q_v request = Some v -> test videoIdPattern v = false ->
     exists error, GET request h = (JsonError 400 error, h)) /\
  (forall (svc : Services) userMessage h e,
     In e (fst (handleVideoLinkParsing (detectVideoLinks userMessage) h)) ->
     id_like (vr_videoId e)) /\
  (forall (svc : Services) h,
     map vr_videoId
       (fst (handleVideoLinkParsing
               (detectVideoLinks (js "https://youtu.be/dQw4w9WgXcQ")) h)) =
     [js "dQw4w9WgXcQ"]).
Proof.
  split; [|split; [|split]].
  - intros v. split; [apply videoIdPattern_sound|].
    intros [Hl Hv]. by apply videoIdPattern_complete.
  - intros nw request h v Hv Hid. unfold GET. rewrite Hv, Hid.
    destruct (negb (nonempty v)); by eexists.
  - intros svc userMessage h e He.
    apply (in_map vr_videoId) in He.
    rewrite handleVideoLinkParsing_ids in He.
    apply in_map_iff in He as (link & <- & Hlink).
    pose proof (detect_loop_ids userMessage (S (length userMessage))
                  userMessage) as Hall.
    rewrite List.Forall_forall in Hall.
    exact (proj1 (Hall link Hlink)).
  - intros svc h. rewrite handleVideoLinkParsing_ids.
    vm_compute. reflexivity.
Qed.

Lemma video_ids_are_id_like_witness :
  (exists error,
     GET (H := Fixtures.all_down)
       {| q_v := Some (js "abc"); q_type := None; q_itag := None;
          h_range := None; origin := js "https://tv.example" |} [] =
     (JsonError 400 error, [])) /\
  (exists e,
     In e (fst (handleVideoLinkParsing (H := Fixtures.flaky)
                  (detectVideoLinks Fixtures.short_link_message) [])) /\
     id_like (vr_videoId e)).
Proof.
  destruct video_ids_are_id_like as (_ & Hproxy & Hrelay & _).
  split.
  - apply (Hproxy Fixtures.all_down _ [] (js "abc")).
    + reflexivity.
    + vm_compute. reflexivity.
  - eexists. split.
    + vm_compute. left. reflexivity.
    + apply (Hrelay Fixtures.flaky Fixtures.short_link_message []).
      vm_compute. left. reflexivity.
Defined.

(** The claim as the specification words it fails on a link whose id part
    is not eleven characters long: the relay makes a [VideoLinkResult]
    for [https://youtu.be/abc] whose id is [abc]. *)
Lemma relay_accepts_short_id :
  exists e,
    fst (handleVideoLinkParsing (H := Fixtures.unknown_videos)
           (detectVideoLinks Fixtures.short_link_message) []) = [e] /\
    vr_videoId e = js "abc" /\
    test videoIdPattern (vr_videoId e) = false.
Proof.
  eexists. split; [vm_compute; reflexivity|].
  split; vm_compute; reflexivity.
Qed.

End VideoIdFacts.

Module StringFacts.
Import JS.

Lemma startsWith_app p s : startsWith p (p ++ s) = true.
Proof.
  induction p as [|a p IH]; [by destruct s|].
  simpl. by rewrite N.eqb_refl, IH.
Qed.

Lemma endsWith_app p s : endsWith p (s ++ p) = true.
Proof. unfold endsWith. rewrite rev_app_distr. apply startsWith_app. Qed.

Lemma includes_startsWith p s : startsWith p s = true -> includes p s = true.
Proof. intros E. destruct s; simpl; by rewrite E. Qed.

Lemma includes_app p a b : includes p (a ++ p ++ b) = true.
Proof.
  induction a as [|x a IH].
  - change ([] ++ p ++ b) with (p ++ b).
    apply includes_startsWith, startsWith_app.
  - change ((x :: a) ++ p ++ b) with (x :: (a ++ p ++ b)).
    cbn [includes]. rewrite IH. apply orb_true_r.
Qed.

Lemma trimStart_space c s : is_space c = true -> trimStart (c :: s) = trimStart s.
Proof. simpl. by intros ->. Qed.

Lemma trimStart_app_space s c :
  is_space c = true ->
  trimStart (s ++ [c]) =
  match trimStart s with [] => [] | t => t ++ [c] end.
Proof.
  intros Hc. induction s as [|x s IH]; simpl.
  - by rewrite Hc.
  - destruct (is_space x); [exact IH | reflexivity].
Qed.

Lemma trimEnd_app_space s c : is_space c = true -> trimEnd (s ++ [c]) = trimEnd s.
Proof.
  intros Hc. unfold trimEnd. rewrite rev_app_distr. simpl. by rewrite Hc.
Qed.

(** White space at either end of a text does not survive [trim]. *)
Lemma trim_app_space s c : is_space c = true -> trim (s ++ [c]) = trim s.
Proof.
  intros Hc. unfold trim. rewrite (trimStart_app_space s c Hc).
  destruct (trimStart s) as [|x t] eqn:E; [reflexivity|].
  by rewrite trimEnd_app_space.
Qed.

Lemma trim_cons_space s c : is_space c = true -> trim (c :: s) = trim s.
Proof. intros Hc. unfold trim. by rewrite trimStart_space. Qed.

End StringFacts.

Module RelayMore.
Import JS Relay RelayNotions JSFacts ExtractionFacts StringFacts.

Lemma buildEndpoint_endsWith (apiUrl : jsstring) :
  endsWith (js "/chat/completions") (buildEndpoint apiUrl) = true.
Proof.
  unfold buildEndpoint.
  destruct (endsWith (js "/chat/completions") apiUrl) eqn:E; [exact E|].
  apply endsWith_app.
Qed.

(** X1.  The endpoint the body is posted to always ends with
    [/chat/completions].  A base URL that already ends so is used as it
    is, so building the endpoint twice changes nothing; otherwise the
    path is added to the base URL, after one slash at its end is
    dropped. *)
Theorem buildEndpoint_completions (apiUrl : jsstring) :
  endsWith (js "/chat/completions") (buildEndpoint apiUrl) = true /\
  buildEndpoint (buildEndpoint apiUrl) = buildEndpoint apiUrl /\
  (endsWith (js "/chat/completions") apiUrl = true ->
   buildEndpoint apiUrl = apiUrl) /\
  (endsWith (js "/chat/completions") apiUrl = false ->
   endsWith (js "/") apiUrl = false ->
   buildEndpoint apiUrl = apiUrl ++ js "/chat/completions") /\
  buildEndpoint (apiUrl ++ js "/") = apiUrl ++ js "/chat/completions".
Proof.
  pose proof (buildEndpoint_endsWith apiUrl) as E1.
  split; [exact E1|]. split; [|split; [|split]].
  - unfold buildEndpoint at 1. by rewrite E1.
  - intros E. unfold buildEndpoint. by rewrite E.
  - intros E Es. unfold buildEndpoint. by rewrite E, Es.
  - unfold buildEndpoint.
    assert (E2 : endsWith (js "/chat/completions") (apiUrl ++ js "/")
                 = false).
    { unfold endsWith. rewrite rev_app_distr.
      change (rev (js "/")) with [0x2F].
      replace (rev (js "/chat/completions"))
        with (0x73 :: rev (js "/chat/completion")) by (by vm_compute).
      reflexivity. }
    rewrite E2, endsWith_app. change (js "/") with [0x2F].
    by rewrite removelast_last.
Qed.

Lemma buildEndpoint_completions_witness :
  buildEndpoint (js "https://api.openai.com/v1") =
    js "https://api.openai.com/v1/chat/completions" /\
  buildEndpoint (js "https://api.deepseek.com/chat/completions") =
    js "https://api.deepseek.com/chat/completions".
Proof.
  split.
  - refine (eq_trans
      (proj1 (proj2 (proj2 (proj2
         (buildEndpoint_completions (js "https://api.openai.com/v1")))))
         _ _) _).
    + vm_compute. reflexivity.
    + vm_compute. reflexivity.
    + vm_compute. reflexivity.
  - apply (proj1 (proj2 (proj2
      (buildEndpoint_completions
         (js "https://api.deepseek.com/chat/completions"))))).
    vm_compute. reflexivity.
Defined.

Lemma detect_loop_weave content : forall n s,
  exists gaps rest,
    length gaps = length (detect_loop n content s) /\
    s = weave gaps (map originalUrl (detect_loop n content s)) ++ rest.
Proof.
  induction n as [|n IH]; intros s; cbn [detect_loop].
  { exists [], s. by split. }
  destruct (search youtubePattern content s) as [m|] eqn:E.
  - apply youtube_search_sound in E as (pre & prefix & id & Hs & Hm0 & _).
    destruct (IH (m_rest m)) as (gaps & rest & Hlen & Hrest).
    exists (pre :: gaps), rest. cbn [length map weave originalUrl].
    split; [by rewrite Hlen|].
    rewrite <- !app_assoc, <- Hrest, Hm0, Hs. by rewrite <- !app_assoc.
  - exists [], s. by split.
Qed.

Lemma detect_loop_urls content : forall n s,
  Forall (fun l => fullMatch l = originalUrl l /\
                   exists prefix, originalUrl l = prefix ++ videoId l)
    (detect_loop n content s).
Proof.
  induction n as [|n IH]; intros s; cbn [detect_loop]; [constructor|].
  destruct (search youtubePattern content s) as [m|] eqn:E; [|constructor].
  constructor; [|apply IH]. cbn [fullMatch originalUrl videoId].
  split; [reflexivity|].
  apply youtube_search_sound in E as (pre & prefix & id & _ & Hm0 & Hg & _).
  exists prefix. by rewrite Hg, Hm0.
Qed.

(** X2.  The links found in a message are pieces of the message that do
    not overlap and come in the order they are found in: the message is a
    gap, the first URL, a gap, the second URL and so on, then a rest.
    Each link records its URL twice and its id is the end of its URL.
    The bound on the rounds of the loop is never what ends it: any
    larger bound gives the same links. *)
Theorem detectVideoLinks_in_order (content : jsstring) :
  let links := detectVideoLinks content in
  (exists gaps rest,
     length gaps = length links /\
     content = weave gaps (map originalUrl links) ++ rest) /\
  Forall (fun l => fullMatch l = originalUrl l /\
                   exists prefix, originalUrl l = prefix ++ videoId l)
    links /\
  (forall n, (length content < n)%nat ->
     detect_loop n content content = links).
Proof.
  intros links. subst links. unfold detectVideoLinks.
  split; [apply detect_loop_weave|]. split; [apply detect_loop_urls|].
  intros n Hn. apply detect_loop_fuel; lia.
Qed.

#[local] Opaque lit plus rep.

Lemma video_den_class inp s s' c' :
  den inp videoPattern s [] s' c' ->
  exists raw, s = js "【" ++ raw ++ js "】" ++ s' /\ raw <> [] /\
              forallb (is_not (code "】")) raw = true /\
              c' = [(1%nat, raw)].
Proof.
  unfold videoPattern. intros H.
  repeat match goal with
         | D : den _ (Seq _ _) _ _ _ _ |- _ => inv_seq D
         end.
  repeat match goal with
         | D : den _ (Grp _ _) _ _ _ _ |- _ => inv_grp D
         end.
  repeat match goal with
         | D : den _ (lit _) _ _ _ _ |- _ => apply den_lit in D as [-> ->]
         end.
  match goal with
  | D : den _ (plus _) _ _ _ _ |- _ =>
    apply den_plus in D as (raw & -> & Hne & Hraw & ->)
  end.
  rewrite consumed_app. by exists raw.
Qed.

#[local] Transparent lit plus rep.

Lemma keywords_loop_bracketed content : forall n s kws,
  (exists pre, content = pre ++ s) ->
  Forall (bracketed_in content) kws ->
  Forall (bracketed_in content) (keywords_loop n content s kws).
Proof.
  induction n as [|n IH]; intros s kws [pre Hpre] Hk; cbn [keywords_loop];
    [exact Hk|].
  destruct (search videoPattern content s) as [m|] eqn:E; [|exact Hk].
  destruct (Nat.ltb (length kws) 4); [|exact Hk].
  apply search_sound in E as (pre' & Hs & D).
  apply video_den_class in D as (raw & Hm & Hne & Hraw & Hc).
  apply IH.
  - exists (pre ++ pre' ++ m0 m). rewrite Hpre, Hs.
    by rewrite <- !app_assoc.
  - apply Forall_app. split; [exact Hk|]. constructor; [|constructor].
    exists raw. unfold group. rewrite Hc. cbn [capture Nat.eqb default].
    repeat split; try assumption.
    rewrite Hpre, Hs, Hm.
    replace (pre ++ pre' ++ js "【" ++ raw ++ js "】" ++ m_rest m)
      with ((pre ++ pre') ++ (js "【" ++ raw ++ js "】") ++ m_rest m)
      by (by rewrite <- !app_assoc).
    apply includes_app.
Qed.

(** X3.  The keywords taken from a reply are at most four, and each is
    the trimmed text of a pair of full-width brackets of the reply whose
    content is not empty and has no closing bracket in it.  The bound on
    the rounds of the loop is never what ends it. *)
Theorem keywords_are_bracketed_titles (content : jsstring) :
  let keywords := extractYouTubeSearchKeywords content in
  (length keywords <= 4)%nat /\
  Forall (bracketed_in content) keywords /\
  (forall n, (length content < n)%nat ->
     keywords_loop n content content [] = keywords).
Proof.
  intros keywords. subst keywords. unfold extractYouTubeSearchKeywords.
  split; [|split].
  - apply keywords_loop_bound. simpl. lia.
  - apply keywords_loop_bracketed; [by exists [] | constructor].
  - intros n Hn. apply keywords_loop_fuel; lia.
Qed.

Section Enrichment.
Context `{Services}.



Lemma handleVideoLinkParsing_requests links : forall h,
  snd (handleVideoLinkParsing links h) = h ++ lookups links.
Proof.
  induction links as [|l links IH]; intros h; cbn [handleVideoLinkParsing].
  - by rewrite app_nil_r.
  - specialize (IH (h ++ [OembedRequest (oembedUrl (videoId l))])).
    destruct (handleVideoLinkParsing links _) as [out h'].
    cbn [snd] in *. rewrite IH. cbn [lookups map].
    by rewrite <- app_assoc.
Qed.

(** X5.  Parsing links asks the oEmbed endpoint once per link, in the
    order of the links and about the id of each, whatever the answers
    are.  A lookup that succeeds gives a playable entry with the title
    and channel of the answer (the defaults where the answer has none),
    and with the thumbnail and the embed URL made from the id. *)
Theorem link_lookups_in_order (links : list VideoLink) (h : history) :
  snd (handleVideoLinkParsing links h) = h ++ lookups links /\
  forall i link t a,
    links !! i = Some link ->
    oembed (h ++ lookups (take i links)) (oembedUrl (videoId link)) =
      OembedOk t a ->
    fst (handleVideoLinkParsing links h) !! i =
    Some {| vr_videoId := videoId link;
            vr_originalUrl := originalUrl link;
            vr_title := str_or_default t (js "直接播放的YouTube视频");
            vr_channelName := Some (str_or_default a (js "未知频道"));
            vr_thumbnail :=
              Some (js "https://img.youtube.com/vi/" ++ videoId link
                      ++ js "/mqdefault.jpg");
            vr_playable := true;
            vr_embedUrl :=
              Some (js "https://www.youtube.com/embed/" ++ videoId link
                      ++ js "?autoplay=1&rel=0");
            vr_error := None |}.
Proof.
  split; [apply handleVideoLinkParsing_requests|].
  intros i link t a Hi Ho.
  rewrite (EnrichmentFacts.handleVideoLinkParsing_lookup links h i link Hi).
  by rewrite Ho.
Qed.

End Enrichment.

Lemma link_lookups_in_order_witness :
  exists e,
    fst (handleVideoLinkParsing (H := Fixtures.flaky)
           (detectVideoLinks (js "youtu.be/aaa youtu.be/bbb youtu.be/ccc"))
           []) !! 2%nat = Some e /\
    vr_title e = js "Never Gonna Give You Up" /\
    vr_channelName e = Some (js "未知频道") /\
    vr_playable e = true.
Proof.
  eexists. split.
  - apply (proj2 (link_lookups_in_order (H := Fixtures.flaky)
                    (detectVideoLinks
                       (js "youtu.be/aaa youtu.be/bbb youtu.be/ccc")) [])
             2%nat
             {| originalUrl := js "youtu.be/ccc"; videoId := js "ccc";
                fullMatch := js "youtu.be/ccc" |}
             (Some (js "Never Gonna Give You Up")) None).
    + vm_compute. reflexivity.
    + vm_compute. reflexivity.
  - split; [|split]; vm_compute; reflexivity.
Defined.

End RelayMore.

Module TranscoderMore.
Import JS Relay RelayNotions StringFacts TranscoderFacts.

Section Facts.
Context `{Runtime} `{Services}.

Lemma process_line_skipped acc line :
  skipped line = true -> process_line acc line = acc.
Proof.
  unfold skipped, process_line.
  destruct (negb (nonempty (trim line))
            || str_eqb (trim line) (js "data: [DONE]")); [reflexivity|].
  cbn [orb].
  destruct (startsWith (js "data: ") (trim line)); [|reflexivity].
  cbn [negb orb].
  destruct (JSON_parse (slice 6 (trim line))) as [parsed|]; [|reflexivity].
  by destruct (delta_content parsed).
Qed.

(** X6.  A line the loop passes over -- a blank line, the upstream
    sentinel, a line that is no data line, a data line whose text is not
    JSON -- changes neither the accumulated text nor the events, whatever
    lines come before and after it: the lines around a malformed line
    give what they give without it. *)
Theorem malformed_line_is_skipped (before after : list jsstring)
    (bad : jsstring) (acc : jsstring * list SSEEvent) :
  skipped bad = true ->
  fold_left process_line (before ++ bad :: after) acc =
  fold_left process_line (before ++ after) acc.
Proof.
  intros Hbad. rewrite !fold_left_app. cbn [fold_left].
  by rewrite process_line_skipped.
Qed.

Lemma fragments_snoc (events : list SSEEvent) (e : SSEEvent) :
  fragments (events ++ [e]) = fragments events ++ fragment e.
Proof.
  unfold fragments. rewrite map_app, concat_app. cbn [map concat].
  by rewrite app_nil_r.
Qed.

Lemma fragments_app (l1 l2 : list SSEEvent) :
  fragments (l1 ++ l2) = fragments l1 ++ fragments l2.
Proof. unfold fragments. by rewrite map_app, concat_app. Qed.

Lemma process_line_fragments acc line :
  fst acc = fragments (snd acc) ->
  fst (process_line acc line) = fragments (snd (process_line acc line)).
Proof.
  intros Hacc.
  destruct (process_line_cases acc line) as [->|(p & c & _ & _ & _ & ->)];
    [exact Hacc|].
  cbn [fst snd]. by rewrite fragments_snoc, Hacc.
Qed.

Lemma fold_process_fragments lines : forall acc,
  fst acc = fragments (snd acc) ->
  fst (fold_left process_line lines acc) =
  fragments (snd (fold_left process_line lines acc)).
Proof.
  induction lines as [|l lines IH]; intros acc Hacc; [exact Hacc|].
  cbn [fold_left]. apply IH. by apply process_line_fragments.
Qed.

Lemma on_chunk_fragments st value :
  fullContent st = fragments (sent st) ->
  fullContent (on_chunk st value) = fragments (sent (on_chunk st value)).
Proof.
  intros Hst. unfold on_chunk.
  destruct (decode (decoder st) value) as [d text].
  pose proof (fold_process_fragments
                (removelast (split LF (buffer st ++ text)))
                (fullContent st, sent st) Hst) as Hf.
  destruct (fold_left process_line _ _) as [fc sn]. exact Hf.
Qed.

Lemma structured_fragments (events : list SSEEvent) :
  Forall (fun e => structured e = true) events -> fragments events = [].
Proof.
  induction 1 as [|e events He _ IH]; [reflexivity|].
  unfold fragments in *. cbn [map concat]. rewrite IH.
  by destruct e.
Qed.

Lemma read_loop_fragments videoLinks cfg fin h : forall chunks st,
  fullContent st = fragments (sent st) ->
  let r := read_loop videoLinks cfg chunks fin st h in
  accumulated r = fragments (enqueued r).
Proof.
  induction chunks as [|c chunks IH]; intros st Hst.
  - cbn [read_loop]. destruct fin.
    + destruct (on_done_shape videoLinks cfg (fullContent st) h)
        as (evs & Hev & Hs).
      destruct (on_done videoLinks cfg (fullContent st) h) as [final h'].
      cbn [fst] in Hev. subst final. cbn [accumulated enqueued].
      rewrite !fragments_app, (structured_fragments evs Hs).
      change (fragments [Done]) with (@nil N).
      by rewrite !app_nil_r.
    + exact Hst.
  - cbn [read_loop]. apply IH. by apply on_chunk_fragments.
Qed.

(** X7.  The text the extraction works on is the text the client was
    sent: when the loop is left, the accumulated text is the
    concatenation, in order, of the fragments of the content events
    enqueued; the other events add nothing to it. *)
Theorem accumulated_is_forwarded d0 userMessage cfg body h :
  let r := start d0 userMessage cfg body h in
  accumulated r = fragments (enqueued r).
Proof.
  unfold start. destruct body as [|chunks fin]; [reflexivity|].
  by apply read_loop_fragments.
Qed.

Lemma read_loop_empty videoLinks cfg h : forall chunks st,
  Forall (fun e => is_content e = true) (sent st) ->
  let r := read_loop videoLinks cfg chunks EndOfStream st h in
  accumulated r = [] ->
  requests r = h /\
  Forall (fun e => structured e = false) (enqueued r) /\
  last (enqueued r) = Some Done.
Proof.
  induction chunks as [|c chunks IH]; intros st Hst.
  - cbn [read_loop]. unfold on_done.
    destruct (fullContent st) as [|x fc] eqn:Hfc.
    + cbn [nonempty accumulated requests enqueued]. intros _.
      split; [reflexivity|]. split; [|by rewrite last_snoc].
      apply Forall_app. split; [|by repeat constructor].
      eapply Forall_impl; [exact Hst|]. by intros [].
    + cbn [nonempty]. set (content := x :: fc).
      destruct (if Nat.ltb 0 (length videoLinks) then _ else _) as [ev1 h1].
      destruct (if isYouTubeRecommendation cfg content then _ else _)
        as [ev2 h2].
      cbn [accumulated]. discriminate.
  - cbn [read_loop]. apply IH. by apply on_chunk_content.
Qed.

(** X8.  A reply without text is not enriched: when the upstream is read
    to its end and no text was accumulated, no lookup or search is made,
    no structured event is enqueued, and the stream still ends with
    [Done]. *)
Theorem empty_reply_is_not_enriched d0 userMessage cfg chunks h :
  let r := start d0 userMessage cfg (Body chunks EndOfStream) h in
  accumulated r = [] ->
  requests r = h /\
  Forall (fun e => structured e = false) (enqueued r) /\
  last (enqueued r) = Some Done.
Proof. unfold start. apply read_loop_empty. constructor. Qed.

(** X9.  White space around a line does not count: a line with a white
    space character more at its end or at its start is handled as the
    line without it.  So the carriage return of a line that ends in CR LF
    is harmless. *)
Theorem line_padding_is_ignored (acc : jsstring * list SSEEvent)
    (line : jsstring) (c : N) :
  is_space c = true ->
  process_line acc (line ++ [c]) = process_line acc line /\
  process_line acc (c :: line) = process_line acc line.
Proof.
  intros Hc. unfold process_line.
  by rewrite (trim_app_space line c Hc), (trim_cons_space line c Hc).
Qed.

Lemma trim_nonempty (s : jsstring) : trim s <> [] -> s <> [].
Proof. intros Ht ->. by apply Ht. Qed.

(** X10.  A video link in the user message decides the answer whatever
    the reply says: for any two replies that are not blank, the answer
    without streaming is the same one, with the links parsed as its
    [videoLinks], and with streaming the first event of the last round
    is [video_links] with the same parsed links. *)
Theorem link_decides_whatever_the_reply userMessage cfg h
    (reply1 reply2 : jsstring) :
  detectVideoLinks userMessage <> [] ->
  trim reply1 <> [] -> trim reply2 <> [] ->
  let links := detectVideoLinks userMessage in
  nonStreaming userMessage cfg (Message (Some reply1)) h =
    nonStreaming userMessage cfg (Message (Some reply2)) h /\
  nonStreaming userMessage cfg (Message (Some reply1)) h =
    (CompletionResponse
       {| c_videoLinks := Some (fst (handleVideoLinkParsing links h));
          c_youtubeVideos := None;
          c_recommendations := None;
          c_type := Some (js "video_link_parse") |},
     snd (handleVideoLinkParsing links h)) /\
  exists rest,
    fst (on_done links cfg reply1 h) =
    VideoLinks (fst (handleVideoLinkParsing links h)) :: rest.
Proof.
  intros Hlinks Hr1 Hr2 links. subst links.
  assert (Hns : forall reply, trim reply <> [] ->
    nonStreaming userMessage cfg (Message (Some reply)) h =
    (CompletionResponse
       {| c_videoLinks :=
            Some (fst (handleVideoLinkParsing
                         (detectVideoLinks userMessage) h));
          c_youtubeVideos := None;
          c_recommendations := None;
          c_type := Some (js "video_link_parse") |},
     snd (handleVideoLinkParsing (detectVideoLinks userMessage) h))).
  { intros reply Hr. unfold nonStreaming.
    change (default [] (Some reply)) with reply. pose proof (trim_nonempty reply Hr) as Hne.
    destruct reply as [|x reply]; [done|].
    destruct (trim (x :: reply)) as [|y t]; [done|].
    cbn [nonempty negb orb].
    destruct (detectVideoLinks userMessage) as [|l ls]; [done|].
    cbn [length Nat.ltb Nat.leb].
    by destruct (handleVideoLinkParsing (l :: ls) h). }
  split; [by rewrite !Hns|]. split; [by apply Hns|].
  unfold on_done. pose proof (trim_nonempty reply1 Hr1) as Hne.
  destruct reply1 as [|x reply1]; [done|]. cbn [nonempty].
  destruct (detectVideoLinks userMessage) as [|l ls]; [done|].
  cbn [length Nat.ltb Nat.leb].
  destruct (handleVideoLinkParsing (l :: ls) h) as [pv h1].
  destruct (if isYouTubeRecommendation cfg (x :: reply1) then _ else _)
    as [ev2 h2].
  by eexists.
Qed.

(** X11.  An upstream answer without a message, or whose message is
    blank, is answered 500, and no lookup or search is made for it. *)
Theorem blank_reply_is_an_error userMessage cfg h (content : option jsstring) :
  (exists error,
     nonStreaming userMessage cfg NoMessage h = (ErrorResponse 500 error, h))
  /\
  (trim (default [] content) = [] ->
   exists error,
     nonStreaming userMessage cfg (Message content) h =
       (ErrorResponse 500 error, h)).
Proof.
  split; [by eexists|]. intros Hblank. unfold nonStreaming.
  rewrite Hblank. cbn [nonempty negb]. rewrite orb_true_r. by eexists.
Qed.

End Facts.

Lemma malformed_line_is_skipped_witness :
  fold_left (process_line (H := Fixtures.runtime))
    [js "data: " ++ Fixtures.json_hi; js "data: {oops";
     js "data: " ++ Fixtures.json_hi] ([], []) =
  (js "HiHi",
   [ContentDelta (JStr (js "Hi")); ContentDelta (JStr (js "Hi"))]).
Proof.
  refine (eq_trans
            (malformed_line_is_skipped (H := Fixtures.runtime)
               [js "data: " ++ Fixtures.json_hi]
               [js "data: " ++ Fixtures.json_hi] (js "data: {oops")
               ([], []) _) _).
  - vm_compute. reflexivity.
  - vm_compute. reflexivity.
Defined.

Lemma empty_reply_is_not_enriched_witness :
  let r := start (H := Fixtures.runtime) (H0 := Fixtures.offline) tt
             Fixtures.link_message Fixtures.youtube_off
             (Body [js "data: " ++ Fixtures.json_empty ++ [LF]] EndOfStream)
             [] in
  requests r = [] /\ last (enqueued r) = Some Done.
Proof.
  destruct (empty_reply_is_not_enriched (H := Fixtures.runtime)
              (H0 := Fixtures.offline) tt Fixtures.link_message
              Fixtures.youtube_off
              [js "data: " ++ Fixtures.json_empty ++ [LF]] [])
    as (Hr & _ & Hl).
  - vm_compute. reflexivity.
  - split; [exact Hr | exact Hl].
Defined.

Lemma line_padding_is_ignored_witness :
  process_line (H := Fixtures.runtime) ([], [])
    ((js "data: " ++ Fixtures.json_hi) ++ [0x0D]) =
  process_line (H := Fixtures.runtime) ([], [])
    (js "data: " ++ Fixtures.json_hi).
Proof.
  apply (proj1 (line_padding_is_ignored (H := Fixtures.runtime) ([], [])
                  (js "data: " ++ Fixtures.json_hi) 0x0D eq_refl)).
Defined.

Lemma link_decides_whatever_the_reply_witness :
  nonStreaming (H := Fixtures.flaky) Fixtures.link_message
    Fixtures.youtube_off (Message (Some Fixtures.movie_reply)) [] =
  nonStreaming (H := Fixtures.flaky) Fixtures.link_message
    Fixtures.youtube_off (Message (Some (js "ok"))) [].
Proof.
  apply (link_decides_whatever_the_reply (H := Fixtures.runtime)
           (H0 := Fixtures.flaky) Fixtures.link_message
           Fixtures.youtube_off [] Fixtures.movie_reply (js "ok")).
  - vm_compute. discriminate.
  - vm_compute. discriminate.
  - vm_compute. discriminate.
Defined.

Lemma blank_reply_is_an_error_witness :
  exists error,
    nonStreaming (H := Fixtures.offline) Fixtures.link_message
      Fixtures.youtube_off (Message (Some (js "  "))) [] =
    (ErrorResponse 500 error, []).
Proof.
  apply (proj2 (blank_reply_is_an_error (H0 := Fixtures.offline)
                  Fixtures.link_message Fixtures.youtube_off []
                  (Some (js "  ")))).
  vm_compute. reflexivity.
Defined.

End TranscoderMore.

Module ProxyMore.
Import JS Proxy RelayNotions JSFacts ProxyFacts.

Section Facts.
Context `{Network}.

Lemma probe_instances_prefix instances : forall h,
  exists k,
    (k <= length instances)%nat /\
    snd (probe_instances instances h) = h ++ probes (take k instances) /\
    (fst (probe_instances instances h) = None -> k = length instances).
Proof.
  induction instances as [|i0 rest IH]; intros h; cbn [probe_instances].
  - exists 0%nat. cbn. rewrite app_nil_r. by repeat split.
  - destruct (IH (h ++ [statsRequest i0])) as (k & Hk & Hs & Hn).
    assert (Hrec :
      exists k',
        (k' <= length (i0 :: rest))%nat /\
        snd (probe_instances rest (h ++ [statsRequest i0])) =
          h ++ probes (take k' (i0 :: rest)) /\
        (fst (probe_instances rest (h ++ [statsRequest i0])) = None ->
         k' = length (i0 :: rest))).
    { exists (S k). cbn [length take probes map]. rewrite Hs.
      rewrite <- app_assoc. repeat split; [lia|].
      intros Hnone. by rewrite (Hn Hnone). }
    destruct (net h (statsRequest i0)) as [|r]; [exact Hrec|].
    destruct (ok r); [|exact Hrec].
    exists 1%nat. cbn [length take probes map fst snd].
    repeat split; [lia|discriminate].
Qed.

Lemma getVideoInfo_requests videoId instance h :
  snd (getVideoInfo videoId instance h) = h ++ [videoRequest instance videoId].
Proof.
  unfold getVideoInfo.
  destruct (net h (videoRequest instance videoId)) as [|r]; [reflexivity|].
  by destruct (negb (ok r)).
Qed.

Lemma proxyStream_requests format url range h :
  snd (proxyStream format url range h) =
  h ++ [{| rq_url := url; rq_headers := streamRequestHeaders range |}].
Proof.
  unfold proxyStream. cbv zeta.
  destruct (net h _) as [|r]; [reflexivity|].
  destruct (negb (ok r) && negb (rs_status r =? 206)%Z); [reflexivity|].
  by destruct (streamResponseHeaders format r).
Qed.

(** X12.  What a request to the proxy may fetch: nothing at all when the
    id is missing or malformed; otherwise probes of the first instances
    of the list, in order, then at most one request for the data of the
    video, to an instance, then at most one request for the media bytes,
    which carries the [Range] header of the inbound request.  So a
    request never costs more than seven fetches. *)
Theorem GET_fetch_discipline (request : GetRequest) (h : history) :
  let videoId := default [] (q_v request) in
  (test videoIdPattern videoId = false -> snd (GET request h) = h) /\
  exists k rest,
    snd (GET request h) = h ++ probes (take k INVIDIOUS_INSTANCES) ++ rest /\
    (k <= 5)%nat /\
    (rest = [] \/
     (exists instance, rest = [videoRequest instance videoId]) \/
     (exists instance url,
        rest = [videoRequest instance videoId;
                {| rq_url := url;
                   rq_headers := streamRequestHeaders (h_range request) |}]))
    /\ (length (snd (GET request h)) <= length h + 7)%nat.
Proof.
  intros videoId. subst videoId.
  assert (Hnone : forall msg st,
    exists k rest,
      snd (JsonError st msg, h) =
        h ++ probes (take k INVIDIOUS_INSTANCES) ++ rest /\
      (k <= 5)%nat /\
      (rest = [] \/
       (exists instance,
          rest = [videoRequest instance (default [] (q_v request))]) \/
       (exists instance url,
          rest = [videoRequest instance (default [] (q_v request));
                  {| rq_url := url;
                     rq_headers :=
                       streamRequestHeaders (h_range request) |}])) /\
      (length (snd (JsonError st msg, h)) <= length h + 7)%nat).
  { intros msg st. exists 0%nat, []. cbn [take probes map snd].
    rewrite !app_nil_r. repeat split; [lia | by left | lia]. }
  unfold GET. destruct (q_v request) as [v|].
  2: { split; [reflexivity | apply Hnone]. }
  change (default [] (Some v)) with v in *.
  destruct (negb (nonempty v)).
  { split; [reflexivity | apply Hnone]. }
  destruct (test videoIdPattern v) eqn:Hid; cbn [negb].
  2: { split; [reflexivity | apply Hnone]. }
  split; [by intros [=]|].
  unfold getWorkingInstance.
  destruct (probe_instances_prefix INVIDIOUS_INSTANCES h)
    as (k & Hk & Hs & _).
  change (length INVIDIOUS_INSTANCES) with 5%nat in Hk.
  destruct (probe_instances INVIDIOUS_INSTANCES h) as [[instance|] h1];
    cbn [snd] in Hs; subst h1.
  2: { exists k, []. cbn [snd]. rewrite app_nil_r, length_app.
       unfold probes. rewrite length_map, length_take.
       repeat split; [lia | by left | lia]. }
  set (h1 := h ++ probes (take k INVIDIOUS_INSTANCES)).
  assert (Hlen1 : (length h1 <= length h + 5)%nat).
  { unfold h1, probes. rewrite length_app, length_map, length_take. lia. }
  pose proof (getVideoInfo_requests v instance h1) as Hinfo.
  assert (Hmeta : forall msg st,
    exists k0 rest,
      snd (JsonError st msg, h1 ++ [videoRequest instance v]) =
        h ++ probes (take k0 INVIDIOUS_INSTANCES) ++ rest /\
      (k0 <= 5)%nat /\
      (rest = [] \/
       (exists instance0, rest = [videoRequest instance0 v]) \/
       (exists instance0 url,
          rest = [videoRequest instance0 v;
                  {| rq_url := url;
                     rq_headers :=
                       streamRequestHeaders (h_range request) |}])) /\
      (length (snd (JsonError st msg, h1 ++ [videoRequest instance v]))
       <= length h + 7)%nat).
  { intros msg st. exists k, [videoRequest instance v]. cbn [snd].
    unfold h1. rewrite <- app_assoc, !length_app. cbn [length].
    fold h1. repeat split; [lia | right; left; by eexists |].
    unfold h1 in Hlen1. rewrite length_app in Hlen1. lia. }
  destruct (bool_decide (str_or_default (q_type request) (js "info")
                         = js "info")).
  - destruct (getVideoInfo v instance h1) as [[info|] h2];
      cbn [snd] in Hinfo; subst h2; [|apply Hmeta].
    destruct (Hmeta [] 0%Z) as (k0 & rest & E & Hrest). by exists k0, rest.
  - destruct (negb (present (q_itag request))).
    { exists k, []. cbn [snd]. rewrite app_nil_r. fold h1.
      repeat split; [lia | by left | lia]. }
    destruct (getVideoInfo v instance h1) as [[info|] h2];
      cbn [snd] in Hinfo; subst h2; [|apply Hmeta].
    destruct (List.find _ _) as [format|]; [|apply Hmeta].
    destruct (negb (present (f_url format))); [apply Hmeta|].
    rewrite proxyStream_requests.
    exists k, [videoRequest instance v;
               {| rq_url := default [] (f_url format);
                  rq_headers := streamRequestHeaders (h_range request) |}].
    unfold h1. rewrite <- !app_assoc, !length_app. cbn [length app].
    fold h1. repeat split; [lia | right; right; by eexists _, _ |].
    unfold h1 in Hlen1. rewrite length_app in Hlen1. lia.
Qed.



End Facts.

(** The URL listed for a format whose itag is [null]. *)
Example info_url_of_null_itag :
  ib_videoStreams
    (infoBody (js "https://tv.example") (js "dQw4w9WgXcQ")
       (js "https://inv.nadeko.net")
       {| vi_title := None; vi_author := None; vi_thumbnail := None;
          vi_adaptiveFormats := None;
          vi_formatStreams := Some [Fixtures.labelled_format] |}) =
  [{| se_quality := Some (js "360p");
      se_url :=
        js "https://tv.example/api/proxy/youtube?v=dQw4w9WgXcQ&type=video&itag=null";
      se_directUrl := Some (js "https://media.example/videoplayback");
      se_type := Some (js "video/mp4; 高清");
      se_bitrate := None |}].
Proof. vm_compute. reflexivity. Qed.

End ProxyMore.

Module RouteFacts.
Import JS Constants Relay RelayNotions RelayRoute StringFacts RelayMore.

Section Facts.
Context {Temp : Type} `{Runtime} `{Services}.

Lemma forward_dispatched (call : Call Temp) aiConfig h :
  dispatched (forward call aiConfig h) =
    Some (buildEndpoint (apiUrl aiConfig), apiKey aiConfig,
          buildRequestBody (settings aiConfig) (chat call)
            (systemPrompt call)).
Proof.
  unfold forward. cbv zeta.
  destruct (upstream call _ _ _) as [|?|? ?|json ?]; try reflexivity.
  destruct (negb (rb_stream _)); [|reflexivity].
  destruct json as [?|aiResult]; [reflexivity|].
  by destruct (nonStreaming _ _ aiResult h).
Qed.

(** The gates of the route: a call that made an upstream request passed
    them all, and is answered by [forward]. *)
Lemma POST_gates (call : Call Temp) h sent :
  dispatched (POST call h) = Some sent ->
  exists name aiConfig,
    authUser call = Some name /\ name <> [] /\
    hasPermission call = true /\
    aiRecommendConfig call = Some aiConfig /\
    enabled aiConfig = true /\
    apiKey aiConfig <> [] /\ apiUrl aiConfig <> [] /\
    messages (chat call) <> [] /\
    POST call h = forward call aiConfig h.
Proof.
  unfold POST. cbv zeta.
  destruct (authUser call) as [name|] eqn:Eu;
    [|cbn [dispatched]; discriminate].
  change (default [] (Some name)) with name.
  destruct name as [|c name]; cbn [JS.nonempty nonempty negb];
    [cbn [dispatched]; discriminate|].
  destruct (hasPermission call); cbn [negb];
    [|cbn [dispatched]; discriminate].
  destruct (aiRecommendConfig call) as [aiConfig|] eqn:Ec;
    [|cbn [dispatched]; discriminate].
  destruct (enabled aiConfig) eqn:Een; cbn [negb];
    [|cbn [dispatched]; discriminate].
  destruct (apiKey aiConfig) as [|k key'] eqn:Ek;
    cbn [nonempty negb orb]; [cbn [dispatched]; discriminate|].
  destruct (apiUrl aiConfig) as [|u url'] eqn:Eurl;
    cbn [nonempty negb orb]; [cbn [dispatched]; discriminate|].
  destruct (messages (chat call)) as [|m ms] eqn:Em;
    [cbn [dispatched]; discriminate|].
  destruct (truthy _); [cbn [dispatched]; discriminate|].
  intros _. exists (c :: name), aiConfig.
  rewrite Ek, Eurl. by repeat (split; [done|]).
Qed.

(** A call that made no upstream request was answered before [forward]. *)
Lemma POST_quiet (call : Call Temp) h :
  dispatched (POST call h) = None -> lookups (POST call h) = h.
Proof.
  unfold POST. cbv zeta.
  destruct (negb (JS.nonempty (default [] (authUser call))));
    [reflexivity|].
  destruct (negb (hasPermission call)); [reflexivity|].
  destruct (aiRecommendConfig call) as [aiConfig|]; [|reflexivity].
  destruct (negb (enabled aiConfig)); [reflexivity|].
  destruct (negb (nonempty (apiKey aiConfig))
            || negb (nonempty (apiUrl aiConfig))); [reflexivity|].
  destruct (messages (chat call)) as [|m ms]; [reflexivity|].
  destruct (truthy _); [reflexivity|].
  by rewrite forward_dispatched.
Qed.

Lemma nonStreaming_status userMessage cfg aiResult h :
  match fst (nonStreaming userMessage cfg aiResult h) with
  | ErrorResponse status _ => status = 500%Z
  | CompletionResponse _ => True
  end.
Proof.
  unfold nonStreaming. cbv zeta.
  destruct aiResult as [|content]; [reflexivity|].
  destruct (_ || _); [reflexivity|].
  destruct (Nat.ltb _ _).
  { by destruct (handleVideoLinkParsing _ h). }
  destruct (isYouTubeRecommendation _ _); [|done].
  by destruct (searchYouTubeVideos _ _ h) as [[?|] ?].
Qed.

(** X14.  Nothing goes out before the gates are passed: a request is made
    to the upstream API only for an authenticated user who has the
    permission, with the feature enabled, a key and a URL configured and
    at least one message; it goes to the completions endpoint of the
    configured URL with the configured key, and its body is the one
    built by the dispatcher.  And no lookup or search is made in a call
    that made no upstream request. *)
Theorem upstream_only_behind_gates (call : Call Temp) (h : history) :
  let r := POST call h in
  (forall endpoint key body,
     dispatched r = Some (endpoint, key, body) ->
     (exists name, authUser call = Some name /\ name <> []) /\
     hasPermission call = true /\
     messages (chat call) <> [] /\
     exists aiConfig,
       aiRecommendConfig call = Some aiConfig /\
       enabled aiConfig = true /\
       key = apiKey aiConfig /\ key <> [] /\
       apiUrl aiConfig <> [] /\
       endpoint = buildEndpoint (apiUrl aiConfig) /\
       endsWith (js "/chat/completions") endpoint = true /\
       body = buildRequestBody (settings aiConfig) (chat call)
                (systemPrompt call)) /\
  (dispatched r = None -> lookups r = h).
Proof.
  intros r. subst r. split; [|apply POST_quiet].
  intros endpoint key body Hd.
  destruct (POST_gates _ _ _ Hd)
    as (name & aiConfig & Hu & Hname & Hp & Hc & He & Hk & Hurl & Hm & Hf).
  rewrite Hf, forward_dispatched in Hd. injection Hd as <- <- <-.
  split; [by exists name|]. split; [done|]. split; [done|].
  exists aiConfig. repeat (split; [done|]). split; [|done].
  apply buildEndpoint_endsWith.
Qed.

Lemma message_by_status (a b c d e : jsstring) (status : Z) :
  let error :=
    if (status =? 401)%Z then a
    else if (status =? 429)%Z then b
    else if (status =? 400)%Z then c
    else if (500 <=? status)%Z then d
    else e in
  (status = 401%Z -> error = a) /\
  (status = 429%Z -> error = b) /\
  (status = 400%Z -> error = c) /\
  ((500 <= status)%Z -> error = d) /\
  ((status < 500)%Z -> status <> 401%Z -> status <> 429%Z ->
   status <> 400%Z -> error = e).
Proof.
  intros error. subst error.
  destruct (Z.eqb_spec status 401), (Z.eqb_spec status 429),
    (Z.eqb_spec status 400), (Z.leb_spec 500 status);
    repeat split; intros; try reflexivity; lia.
Qed.

(** X15.  An upstream failure is answered without enrichment.  When the
    upstream request times out the answer is 504; when it fails otherwise
    the answer is 500; when the upstream answers outside 2xx the answer
    is 500 whatever that status was, with the status in its body and a
    message chosen by it: one for 401, one for 429, one for 400, one for
    500 and above and one for the rest.  Where the error body is not JSON
    the details are exactly its first 200 code units, the whole body when
    it is no longer.  In all these cases no lookup or search is made. *)
Theorem upstream_failure_is_not_enriched (call : Call Temp) (h : history)
    endpoint key body :
  let r := POST call h in
  dispatched r = Some (endpoint, key, body) ->
  match upstream call endpoint key body with
  | UpTimeout => http_status (answer r) = 504%Z /\ lookups r = h
  | UpRejects _ => http_status (answer r) = 500%Z /\ lookups r = h
  | UpError status errorData =>
    (exists error,
       answer r =
         UpstreamError error (upstreamErrorDetails errorData) status /\
       (status = 401%Z -> error = js "API密钥无效，请联系管理员检查配置") /\
       (status = 429%Z -> error = js "API请求频率限制，请稍后重试") /\
       (status = 400%Z -> error = js "请求参数错误，请检查输入内容") /\
       ((500 <= status)%Z -> error = js "AI服务器错误，请稍后重试") /\
       ((status < 500)%Z -> status <> 401%Z -> status <> 429%Z ->
        status <> 400%Z -> error = js "AI服务暂时不可用，请稍后重试")) /\
    http_status (answer r) = 500%Z /\ lookups r = h /\
    (JSON_parse errorData = None ->
     upstreamErrorDetails errorData = JStr (take 200 errorData) /\
     ((length errorData <= 200)%nat ->
      upstreamErrorDetails errorData = JStr errorData))
  | UpOk _ _ => True
  end.
Proof.
  intros r Hd. subst r.
  destruct (POST_gates _ _ _ Hd) as (name & aiConfig & Hgates).
  destruct Hgates as (_ & _ & _ & _ & _ & _ & _ & _ & Hf).
  rewrite Hf, forward_dispatched in Hd. injection Hd as <- <- <-.
  rewrite Hf. unfold forward. cbv zeta.
  destruct (upstream call _ _ _) as [|message|status errorData|json b];
    cbn [answer lookups http_status]; [done|done| |done].
  split; [|split; [done|split; [done|]]].
  - eexists. split; [reflexivity|]. unfold upstreamErrorMessage.
    apply message_by_status.
  - intros Hparse. unfold upstreamErrorDetails. rewrite Hparse.
    split; [reflexivity|]. intros Hlen. by rewrite take_ge.
Qed.

(** X16.  An answer comes from the cache only for a conversation of a
    single message, of the user, shorter than 50 code units; it is the
    cached value, and the call makes no upstream request and no lookup. *)
Theorem cached_only_for_one_short_question (call : Call Temp)
    (h : history) value :
  let r := POST call h in
  answer r = Cached value ->
  (exists m,
     messages (chat call) = [m] /\ msg_role m = user /\
     (length (msg_content m) < 50)%nat /\
     value = getCache call (msg_content m)) /\
  truthy value = true /\
  dispatched r = None /\ lookups r = h.
Proof.
  intros r. subst r. unfold POST. cbv zeta.
  destruct (negb (JS.nonempty (default [] (authUser call))));
    [cbn [answer]; discriminate|].
  destruct (negb (hasPermission call)); [cbn [answer]; discriminate|].
  destruct (aiRecommendConfig call) as [aiConfig|];
    [|cbn [answer]; discriminate].
  destruct (negb (enabled aiConfig)); [cbn [answer]; discriminate|].
  destruct (negb (nonempty (apiKey aiConfig))
            || negb (nonempty (apiUrl aiConfig)));
    [cbn [answer]; discriminate|].
  destruct (messages (chat call)) as [|m ms]; [cbn [answer]; discriminate|].
  destruct (truthy _) eqn:Ht.
  - cbn [answer dispatched lookups]. intros [= <-].
    split; [|by repeat split].
    unfold cacheable in *.
    destruct ms as [|m' ms]; [|by cbn [truthy] in Ht].
    destruct (msg_role m) eqn:Er; try by cbn [truthy] in Ht.
    destruct (Nat.ltb _ 50) eqn:El; [|by cbn [truthy] in Ht].
    exists m. apply Nat.ltb_lt in El. by repeat split.
  - unfold forward. cbv zeta.
    destruct (upstream call _ _ _) as [|?|? ?|json ?];
      try (cbn [answer]; discriminate).
    destruct (negb (rb_stream _)); [|cbn [answer]; discriminate].
    destruct json as [?|aiResult]; [cbn [answer]; discriminate|].
    destruct (nonStreaming _ _ aiResult h). cbn [answer]. discriminate.
Qed.

#[local] Ltac one_of :=
  cbn [answer http_status In]; solve [repeat (first [by left | right])].

(** X17.  The route answers 200, 400, 401, 403, 500 or 504 and nothing
    else: the status of an upstream error is never the status of the
    answer. *)
Theorem POST_statuses (call : Call Temp) (h : history) :
  In (http_status (answer (POST call h)))
     [200; 400; 401; 403; 500; 504]%Z.
Proof.
  unfold POST. cbv beta zeta.
  destruct (negb (JS.nonempty (default [] (authUser call))));
    [one_of|].
  destruct (negb (hasPermission call));
    [one_of|].
  destruct (aiRecommendConfig call) as [aiConfig|];
    [|one_of].
  destruct (negb (enabled aiConfig));
    [one_of|].
  destruct (negb (nonempty (apiKey aiConfig))
            || negb (nonempty (apiUrl aiConfig)));
    [one_of|].
  destruct (messages (chat call)) as [|m ms];
    [one_of|].
  destruct (truthy _); [one_of|].
  unfold forward. cbv zeta.
  destruct (upstream call _ _ _) as [|?|? ?|json ?];
    try (one_of).
  destruct (negb (rb_stream _)); [|one_of].
  destruct json as [?|aiResult]; [one_of|].
  pose proof (nonStreaming_status (userMessageOf (messages (chat call)))
                (youtubeConfig call) aiResult h) as Hs.
  destruct (nonStreaming _ _ aiResult h) as [[status error|c] h'].
  - cbn [fst] in Hs. subst status. one_of.
  - one_of.
Qed.

End Facts.

Lemma upstream_only_behind_gates_witness :
  hasPermission (RouteFixtures.call_with RouteFixtures.rate_limited) = true.
Proof.
  refine (proj1 (proj2 (proj1
    (upstream_only_behind_gates (H := Fixtures.runtime)
       (H0 := Fixtures.offline)
       (RouteFixtures.call_with RouteFixtures.rate_limited) [])
    (buildEndpoint (apiUrl RouteFixtures.openai))
    (apiKey RouteFixtures.openai)
    (buildRequestBody (settings RouteFixtures.openai) RouteFixtures.hello
       (js "You recommend films.")) _))).
  vm_compute. reflexivity.
Defined.

Lemma upstream_failure_is_not_enriched_witness :
  let r := POST (H := Fixtures.runtime) (H0 := Fixtures.offline)
             (RouteFixtures.call_with RouteFixtures.rate_limited) [] in
  http_status (answer r) = 500%Z /\ lookups r = [].
Proof.
  pose proof
    (upstream_failure_is_not_enriched (H := Fixtures.runtime)
       (H0 := Fixtures.offline)
       (RouteFixtures.call_with RouteFixtures.rate_limited) []
       (buildEndpoint (apiUrl RouteFixtures.openai))
       (apiKey RouteFixtures.openai)
       (buildRequestBody (settings RouteFixtures.openai)
          RouteFixtures.hello (js "You recommend films."))) as Hw.
  cbv zeta in Hw.
  assert (Hd : dispatched
            (POST (H := Fixtures.runtime) (H0 := Fixtures.offline)
               (RouteFixtures.call_with RouteFixtures.rate_limited) []) =
          Some (buildEndpoint (apiUrl RouteFixtures.openai),
                apiKey RouteFixtures.openai,
                buildRequestBody (settings RouteFixtures.openai)
                  RouteFixtures.hello (js "You recommend films.")))
    by (vm_compute; reflexivity).
  specialize (Hw Hd).
  change (upstream (RouteFixtures.call_with RouteFixtures.rate_limited)
            _ _ _) with RouteFixtures.rate_limited in Hw.
  unfold RouteFixtures.rate_limited in Hw.
  destruct Hw as (_ & Hs & Hl & _). split; [exact Hs|exact Hl].
Defined.

Lemma cached_only_for_one_short_question_witness :
  let r := POST (H := Fixtures.runtime) (H0 := Fixtures.offline)
             RouteFixtures.cached_call [] in
  dispatched r = None /\ lookups r = [].
Proof.
  destruct (cached_only_for_one_short_question (H := Fixtures.runtime)
              (H0 := Fixtures.offline) RouteFixtures.cached_call []
              (JStr (js "cached")))
    as (_ & _ & Hd & Hl).
  - vm_compute. reflexivity.
  - split; [exact Hd|exact Hl].
Defined.

End RouteFacts.

Module RegisterFacts.
Import JS Register JSFacts.

Lemma str_eqb_eq a : forall b, Relay.str_eqb a b = true <-> a = b.
Proof.
  induction a as [|x a IH]; intros [|y b]; cbn [Relay.str_eqb]; try done.
  rewrite andb_true_iff, N.eqb_eq, IH. split; [by intros [-> ->]|].
  by intros [= -> ->].
Qed.

Lemma same_eq o s : same o s = true <-> o = Some s.
Proof.
  destruct o as [a|]; cbn [same]; [|done].
  rewrite str_eqb_eq. split; [by intros ->|by intros [= ->]].
Qed.

Lemma den_upto_cls inp p n : forall s c s' c',
  den inp (upto n (Cls p)) s c s' c' ->
  exists run,
    s = run ++ s' /\ (length run <= n)%nat /\ forallb p run = true /\ c' = c.
Proof.
  induction n as [|n IH]; cbn [upto]; intros s c s' c' D.
  - inversion D; subst. by exists [].
  - inversion D as [| | | | |? ? ? ? ? D1|? ? ?| | | | |]; subst;
      [|by exists []; repeat split; cbn; try lia].
    inv_seq D1. inversion D0; subst.
    apply IH in D2 as (run & -> & Hlen & Hrun & ->).
    exists (x :: run). cbn [app length forallb].
    repeat split; [lia|]. by rewrite Hrun, andb_true_r.
Qed.

(** The greedy quantifier takes a whole run that fits its bound when the
    text ends there. *)
Lemma rmatch_upto_end {R} inp p n : forall run c (k : _ -> _ -> option R) y,
  (length run <= n)%nat -> forallb p run = true ->
  k [] c = Some y ->
  exists y', rmatch inp (upto n (Cls p)) run c k = Some y'.
Proof.
  induction n as [|n IH]; intros run c k y Hlen Hrun Hk.
  - destruct run; [|cbn in Hlen; lia]. cbn. by eexists.
  - cbn [upto rmatch]. destruct run as [|x run].
    + rewrite Hk. by eexists.
    + cbn [forallb] in Hrun. apply andb_prop in Hrun as [Hx Hrun].
      rewrite Hx. cbn [length] in Hlen.
      destruct (IH run c k y ltac:(lia) Hrun Hk) as [y' ->]. by eexists.
Qed.

#[local] Opaque rep upto.

Lemma usernamePattern_sound v :
  test usernamePattern v = true ->
  (3 <= length v <= 20)%nat /\ forallb is_word v = true.
Proof.
  unfold test, exec.
  destruct (search usernamePattern v v) as [m|] eqn:E; [|discriminate].
  intros _. apply search_sound in E as (pre & Hv & D).
  unfold usernamePattern in D.
  repeat match goal with
         | D : den _ (Seq _ _) _ _ _ _ |- _ => inv_seq D
         end.
  repeat match goal with
         | D : den _ Bol _ _ _ _ |- _ => inversion D; subst; clear D
         | D : den _ Eol _ _ _ _ |- _ => inversion D; subst; clear D
         end.
  match goal with
  | D : den _ (rep _ _) _ _ _ _ |- _ =>
    apply den_rep_cls in D as (run1 & E1 & Hlen1 & Hrun1 & _)
  end.
  match goal with
  | D : den _ (upto _ _) _ _ _ _ |- _ =>
    apply den_upto_cls in D as (run2 & E2 & Hlen2 & Hrun2 & _)
  end.
  match goal with Hr : [] = m_rest _ |- _ => rewrite <- Hr in * end.
  rewrite !app_nil_r in *. subst s2.
  match goal with
  | Hl : length _ = length (_ ++ _) |- _ =>
    rewrite length_app in Hl; destruct pre; [|simpl in Hl; lia]
  end.
  cbn [app]. rewrite E1, length_app, forallb_app, Hrun1, Hrun2.
  split; [lia|done].
Qed.

#[local] Transparent rep upto.

Lemma usernamePattern_complete v :
  (3 <= length v <= 20)%nat -> forallb is_word v = true ->
  test usernamePattern v = true.
Proof.
  intros Hlen Hv.
  do 3 (destruct v as [|? v]; [cbn in Hlen; lia|]).
  cbn [forallb] in Hv.
  do 3 (apply andb_prop in Hv as [? Hv]).
  unfold test, exec.
  assert (Hm : exists y, match_here usernamePattern (n :: n0 :: n1 :: v)
                           (n :: n0 :: n1 :: v) = Some y).
  { unfold match_here, usernamePattern.
    cbn [rmatch rep]. rewrite Nat.eqb_refl.
    repeat match goal with
           | Hx : is_word _ = true |- _ => rewrite Hx; clear Hx
           end.
    eapply rmatch_upto_end; [|exact Hv|reflexivity].
    cbn [length] in Hlen. lia. }
  destruct Hm as [[s' c] Hm]. by erewrite ProxyFacts.search_here.
Qed.

Lemma split_first first : forall rest,
  forallb (is_not COMMA) first = true ->
  (rest = [] \/ exists rest', rest = COMMA :: rest') ->
  hd [] (split COMMA (first ++ rest)) = first.
Proof.
  induction first as [|c first IH]; intros rest Hf Hrest.
  - destruct Hrest as [->|[rest' ->]]; [reflexivity|].
    cbn [app split]. by rewrite N.eqb_refl.
  - cbn [forallb] in Hf. apply andb_prop in Hf as [Hc Hf].
    unfold is_not in Hc. apply negb_true_iff in Hc.
    cbn [app split]. rewrite Hc.
    specialize (IH rest Hf Hrest).
    destruct (split COMMA (first ++ rest)) as [|l ls] eqn:E.
    + by destruct (TranscoderFacts.split_nonempty _ _ E).
    + cbn [hd] in *. by rewrite IH.
Qed.

Lemma registeredFrom_snoc ip users u :
  registrationIp u = Some ip ->
  registeredFrom ip (users ++ [u]) = registeredFrom ip users ++ [u].
Proof.
  intros Hu. unfold registeredFrom. rewrite List.filter_app.
  cbn [List.filter]. by rewrite (proj2 (same_eq _ _) Hu).
Qed.

#[local] Ltac reject :=
  left; do 2 eexists; split; [reflexivity|];
  cbn [In]; solve [repeat (first [by left | right])].

(** A call is rejected by a check, or passes every check before the inner
    [try] block and is answered by [enroll]. *)
Lemma POST_cases env req :
  rejected (POST env req) \/
  STORAGE_TYPE env <> localstorage /\
  exists body username password,
    req_json req = Some body /\
    b_username body = Some username /\
    b_password body = Some password /\
    b_confirmPassword body = Some password /\
    test usernamePattern username = true /\
    (6 <= length password)%nat /\
    USERNAME env <> Some username /\
    POST env req =
      enroll env req username password (getClientIp (req_headers req)).
Proof.
  unfold POST, rejected. cbv beta zeta.
  destruct (STORAGE_TYPE env) eqn:Est; [reject|..].
  all: destruct (req_json req) as [body|]; [|reject].
  all: destruct (getConfig1 req) as [config|]; [|reject].
  all: destruct (negb _); [reject|].
  all: destruct (b_username body) as [username|] eqn:Ebu; [|reject].
  all: destruct (_ || _); [reject|].
  all: destruct (b_password body) as [password|] eqn:Ebp; [|reject].
  all: destruct (negb (nonempty password)); [reject|].
  all: destruct (same (b_confirmPassword body) password) eqn:Hc;
    cbn [negb]; [|reject].
  all: destruct (Nat.ltb _ 6) eqn:Hl; [reject|].
  all: destruct (same (USERNAME env) username) eqn:Hu; [reject|].
  all: destruct (test usernamePattern username) eqn:Ht; cbn [negb];
    [|reject].
  all: apply same_eq in Hc; apply Nat.ltb_ge in Hl.
  all: assert (Hne : USERNAME env <> Some username)
    by (intros Heq; apply same_eq in Heq; congruence).
  all: right; split; [done|]; exists body, username, password;
    by repeat split.
Qed.

(** What [enroll] does, by the point it reaches. *)
Lemma enroll_cases env req username password ip :
  let r := enroll env req username password ip in
  rejected r \/
  exists config userConfig,
    getConfig2 req = Some config /\ UserConfig config = Some userConfig /\
    (length (registeredFrom ip (Users userConfig)) < 3)%nat /\
    checkUserExist req username = Some false /\
    let requireApproval := not_false (RequireApproval userConfig) in
    let newUser :=
      {| username := username; role := user;
         approved := Some (negb requireApproval);
         createdAt := Some (now1 req);
         registrationIp := Some ip;
         approvedAt := if requireApproval then None else Some (now2 req) |}
    in
    let config' :=
      {| UserConfig :=
           Some {| AllowRegister := AllowRegister userConfig;
                   RequireApproval := RequireApproval userConfig;
                   Users := Users userConfig ++ [newUser] |} |} in
    let written :=
      [PushUser newUser; RegisterUser username password;
       SaveAdminConfig config'; ClearConfigCache] in
    (registerUser req username password = false /\
     r = {| response := ErrorJson 500 (js "注册失败，请稍后重试");
            calls := take 2 written |}) \/
    (registerUser req username password = true /\
     saveAdminConfig req config' = false /\
     r = {| response := ErrorJson 500 (js "注册失败，请稍后重试");
            calls := take 3 written |}) \/
    (registerUser req username password = true /\
     saveAdminConfig req config' = true /\
     requireApproval = true /\
     r = {| response := PendingJson; calls := written |}) \/
    (registerUser req username password = true /\
     saveAdminConfig req config' = true /\
     requireApproval = false /\
     generateAuthCookie req username password = None /\
     r = {| response := ErrorJson 500 (js "注册失败，请稍后重试");
            calls := written |}) \/
    (registerUser req username password = true /\
     saveAdminConfig req config' = true /\
     requireApproval = false /\
     exists authCookie,
       generateAuthCookie req username password = Some authCookie /\
       r = {| response := LoggedInJson (setCookie env authCookie);
              calls := written |}).
Proof.
  intros r. subst r. unfold enroll, rejected. cbv beta zeta.
  destruct (getConfig2 req) as [config|] eqn:Ec; [|reject].
  destruct (UserConfig config) as [userConfig|] eqn:Eu; [|reject].
  destruct (Nat.leb 3 _) eqn:Hcount; [reject|].
  destruct (checkUserExist req username) as [[|]|] eqn:Ex;
    [reject| |reject].
  right. exists config, userConfig. apply Nat.leb_gt in Hcount.
  do 4 (split; [done|]).
  destruct (registerUser req username password) eqn:Er; cbn [negb];
    [|by left].
  destruct (saveAdminConfig req _) eqn:Es; cbn [negb];
    [|by right; left].
  destruct (not_false (RequireApproval userConfig)) eqn:Hreq.
  { by right; right; left. }
  destruct (generateAuthCookie req username password) as [authCookie|].
  - right; right; right; right. do 3 (split; [done|]). by exists authCookie.
  - by right; right; right; left.
Qed.

Lemma rejected_calls r : rejected r -> calls r = [].
Proof. by intros (status & error & -> & _). Qed.

Lemma rejected_status r :
  rejected r -> In (status_of (response r)) [400; 403; 429; 500]%Z.
Proof. by intros (status & error & -> & Hs). Qed.

Lemma truthy_header_present o :
  Proxy.present o = false -> Proxy.truthy_header o = None.
Proof.
  destruct o as [v|]; cbn [Proxy.present Proxy.truthy_header]; [|done].
  by intros ->.
Qed.

(** X18.  The name check accepts exactly the names of 3 to 20 code
    units, each a letter, a digit or an underscore. *)
Theorem username_check_exact (username : jsstring) :
  test usernamePattern username = true <->
  (3 <= length username <= 20)%nat /\ forallb is_word username = true.
Proof.
  split; [apply usernamePattern_sound|].
  intros [Hlen Hword]. by apply usernamePattern_complete.
Qed.

(** X19.  The address of the client is read from three headers in this
    order: [cf-connecting-ip] as it is; else the text of
    [x-forwarded-for] before its first comma, trimmed; else [x-real-ip];
    and it is [unknown] when none of them has a value. *)
Theorem client_ip_precedence (hs : Proxy.headers) :
  (forall ip,
     Proxy.hget (js "cf-connecting-ip") hs = Some ip -> ip <> [] ->
     getClientIp hs = ip) /\
  (Proxy.present (Proxy.hget (js "cf-connecting-ip") hs) = false ->
   (forall first rest,
      Proxy.hget (js "x-forwarded-for") hs = Some (first ++ rest) ->
      first ++ rest <> [] ->
      forallb (is_not COMMA) first = true ->
      (rest = [] \/ exists rest', rest = COMMA :: rest') ->
      getClientIp hs = trim first) /\
   (Proxy.present (Proxy.hget (js "x-forwarded-for") hs) = false ->
    (forall ip,
       Proxy.hget (js "x-real-ip") hs = Some ip -> ip <> [] ->
       getClientIp hs = ip) /\
    (Proxy.present (Proxy.hget (js "x-real-ip") hs) = false ->
     getClientIp hs = js "unknown"))).
Proof.
  unfold getClientIp. cbv zeta. split.
  { intros ip -> Hip. cbn [Proxy.truthy_header]. by destruct ip. }
  intros Hcf. rewrite (truthy_header_present _ Hcf). split.
  { intros first rest -> Hne Hfirst Hrest. cbn [Proxy.truthy_header].
    assert (Hn : nonempty (first ++ rest) = true)
      by (by destruct (first ++ rest)).
    rewrite Hn. by rewrite split_first. }
  intros Hxff. rewrite (truthy_header_present _ Hxff). split.
  - intros ip -> Hip. cbn [Proxy.truthy_header]. by destruct ip.
  - intros Hreal. by rewrite (truthy_header_present _ Hreal).
Qed.

(** X20.  Nothing is written for a request that fails a check: when the
    route pushes a user, registers or saves anything, the storage is not
    the local one, the name has 3 to 20 letters, digits or underscores
    and is not the name of the owner, the password has at least 6 code
    units and was confirmed, fewer than 3 users are registered from the
    address of the client, and no user of that name exists. *)
Theorem nothing_written_for_invalid_input (env : Env) (req : Request) :
  calls (POST env req) <> [] ->
  STORAGE_TYPE env <> localstorage /\
  exists body username password config userConfig,
    req_json req = Some body /\
    b_username body = Some username /\
    b_password body = Some password /\
    b_confirmPassword body = Some password /\
    (3 <= length username <= 20)%nat /\
    forallb is_word username = true /\
    (6 <= length password)%nat /\
    USERNAME env <> Some username /\
    getConfig2 req = Some config /\
    UserConfig config = Some userConfig /\
    (length (registeredFrom (getClientIp (req_headers req))
               (Users userConfig)) < 3)%nat /\
    checkUserExist req username = Some false.
Proof.
  intros Hcalls.
  destruct (POST_cases env req) as [Hrej|Hpass];
    [by apply rejected_calls in Hrej|].
  destruct Hpass
    as (Hst & body & username & password & Hb & Hu & Hp & Hc & Ht & Hl
        & Hne & Hpost).
  split; [exact Hst|]. rewrite Hpost in Hcalls.
  destruct (enroll_cases env req username password
              (getClientIp (req_headers req))) as [Hrej|Hen];
    [by apply rejected_calls in Hrej|].
  destruct Hen as (config & userConfig & Hc2 & Huc & Hcount & Hex & _).
  apply usernamePattern_sound in Ht as [Hlen Hword].
  exists body, username, password, config, userConfig.
  by repeat (split; [done|]).
Qed.

(** X21.  A registration that is answered 200 or 202 made exactly four
    calls, in this order: the new user is pushed to the list of the
    configuration, registered in the database, the configuration with
    that list is saved and the cache of the configuration cleared.  The
    new user has the role [user] and the address of the client; it is
    approved, with a time of approval, exactly when the answer is 200,
    which is when approval is switched off. *)
Theorem successful_registration (env : Env) (req : Request) :
  let r := POST env req in
  (status_of (response r) = 200 \/ status_of (response r) = 202)%Z ->
  exists name password config userConfig newUser userConfig',
    getConfig2 req = Some config /\ UserConfig config = Some userConfig /\
    calls r = [PushUser newUser; RegisterUser name password;
               SaveAdminConfig {| UserConfig := Some userConfig' |};
               ClearConfigCache] /\
    Users userConfig' = Users userConfig ++ [newUser] /\
    AllowRegister userConfig' = AllowRegister userConfig /\
    RequireApproval userConfig' = RequireApproval userConfig /\
    b_username <$> req_json req = Some (Some name) /\
    username newUser = name /\ role newUser = user /\
    registrationIp newUser = Some (getClientIp (req_headers req)) /\
    createdAt newUser = Some (now1 req) /\
    (status_of (response r) = 200%Z <->
     RequireApproval userConfig = Some false) /\
    (approved newUser = Some true <-> status_of (response r) = 200%Z) /\
    (approved newUser = Some false <-> status_of (response r) = 202%Z) /\
    (approvedAt newUser <> None <-> status_of (response r) = 200%Z).
Proof.
  intros r Hstatus. subst r.
  destruct (POST_cases env req) as [Hrej|Hpass].
  { apply rejected_status in Hrej. cbn [In] in Hrej. lia. }
  destruct Hpass
    as (Hst & body & name & password & Hb & Hu & Hp & Hc & Ht & Hl
        & Hne & Hpost).
  rewrite Hpost in *. clear Hpost.
  destruct (enroll_cases env req name password
              (getClientIp (req_headers req))) as [Hrej|Hen].
  { apply rejected_status in Hrej. cbn [In] in Hrej. lia. }
  destruct Hen as (config & userConfig & Hc2 & Huc & _ & _ & Hen).
  cbv zeta in Hen.
  assert (Hnf : forall o, not_false o = false <-> o = Some false).
  { intros [[|]|]; cbn; split; congruence. }
  destruct Hen as [[_ Hr]|[(_ & _ & Hr)|[(_ & _ & Hreq & Hr)|
                  [(_ & _ & _ & _ & Hr)|(_ & _ & Hreq & cookie & _ & Hr)]]]];
    rewrite Hr in *; cbn [response status_of calls] in *; try lia.
  - (* 202 *)
    rewrite Hreq. exists name, password, config, userConfig.
    do 2 eexists. rewrite Hb. cbn [fmap option_fmap option_map]. rewrite Hu.
    do 2 (split; [done|]). do 9 (split; [reflexivity|]).
    cbn [approved approvedAt negb].
    assert (Hno : RequireApproval userConfig <> Some false).
    { intros Hf. apply Hnf in Hf. congruence. }
    repeat split; intros; try done; try lia.
  - (* 200 *)
    rewrite Hreq. exists name, password, config, userConfig.
    do 2 eexists. rewrite Hb. cbn [fmap option_fmap option_map]. rewrite Hu.
    do 2 (split; [done|]). do 9 (split; [reflexivity|]).
    cbn [approved approvedAt negb]. apply Hnf in Hreq.
    repeat split; intros; try done; try lia.
Qed.

(** X22.  A configuration the route saves lists at most 3 users
    registered from the address of the client. *)
Theorem at_most_three_per_address (env : Env) (req : Request)
    (config : AdminConfig) :
  In (SaveAdminConfig config) (calls (POST env req)) ->
  exists userConfig,
    UserConfig config = Some userConfig /\
    (length (registeredFrom (getClientIp (req_headers req))
               (Users userConfig)) <= 3)%nat.
Proof.
  intros Hin.
  destruct (POST_cases env req) as [Hrej|Hpass].
  { apply rejected_calls in Hrej. by rewrite Hrej in Hin. }
  destruct Hpass as (_ & body & name & password & Hpass).
  destruct Hpass as (_ & _ & _ & _ & _ & _ & _ & Hpost).
  rewrite Hpost in Hin. clear Hpost.
  destruct (enroll_cases env req name password
              (getClientIp (req_headers req))) as [Hrej|Hen].
  { apply rejected_calls in Hrej. by rewrite Hrej in Hin. }
  destruct Hen as (cfg & userConfig & _ & _ & Hcount & _ & Hen).
  cbv zeta in Hen.
  assert (Hsaved : config =
    {| UserConfig :=
         Some {| AllowRegister := AllowRegister userConfig;
                 RequireApproval := RequireApproval userConfig;
                 Users := Users userConfig ++
                   [{| username := name; role := user;
                       approved :=
                         Some (negb (not_false (RequireApproval userConfig)));
                       createdAt := Some (now1 req);
                       registrationIp :=
                         Some (getClientIp (req_headers req));
                       approvedAt :=
                         if not_false (RequireApproval userConfig)
                         then None else Some (now2 req) |}] |} |}).
  { destruct Hen as [[_ Hr]|[(_ & _ & Hr)|[(_ & _ & _ & Hr)|
                    [(_ & _ & _ & _ & Hr)|(_ & _ & _ & cookie & _ & Hr)]]]];
      rewrite Hr in Hin; cbn [calls take In] in Hin;
      repeat (destruct Hin as [Hin|Hin]; try discriminate Hin);
      try done; by injection Hin. }
  subst config. eexists. split; [reflexivity|]. cbn [Users].
  rewrite registeredFrom_snoc by reflexivity.
  rewrite length_app. cbn [length]. lia.
Qed.

(** X23.  An error answer does not mean that nothing was written.  When
    the route answers with an error after a write, the status is 500 and
    the new user is already in the list of the configuration object; the
    calls stop at the registration that failed, at the save that failed,
    or are complete when only the cookie could not be made. *)
Theorem failure_after_writing (env : Env) (req : Request) status error :
  let r := POST env req in
  response r = ErrorJson status error -> calls r <> [] ->
  status = 500%Z /\
  exists newUser name password,
    take 2 (calls r) = [PushUser newUser; RegisterUser name password] /\
    ((calls r = [PushUser newUser; RegisterUser name password] /\
      registerUser req name password = false) \/
     (exists config',
        calls r = [PushUser newUser; RegisterUser name password;
                   SaveAdminConfig config'] /\
        registerUser req name password = true /\
        saveAdminConfig req config' = false) \/
     (exists config',
        calls r = [PushUser newUser; RegisterUser name password;
                   SaveAdminConfig config'; ClearConfigCache] /\
        registerUser req name password = true /\
        saveAdminConfig req config' = true /\
        generateAuthCookie req name password = None)).
Proof.
  intros r Hresp Hcalls. subst r.
  destruct (POST_cases env req) as [Hrej|Hpass];
    [by apply rejected_calls in Hrej|].
  destruct Hpass as (_ & body & name & password & Hpass).
  destruct Hpass as (_ & _ & _ & _ & _ & _ & _ & Hpost).
  rewrite Hpost in *. clear Hpost.
  destruct (enroll_cases env req name password
              (getClientIp (req_headers req))) as [Hrej|Hen];
    [by apply rejected_calls in Hrej|].
  destruct Hen as (cfg & userConfig & _ & _ & _ & _ & Hen).
  cbv zeta in Hen.
  destruct Hen as [[Hreg Hr]|[(Hreg & Hsave & Hr)|[(_ & _ & _ & Hr)|
                  [(Hreg & Hsave & _ & Hcookie & Hr)|
                   (_ & _ & _ & cookie & _ & Hr)]]]];
    rewrite Hr in *; cbn [response calls take] in *; try discriminate Hresp;
    injection Hresp as <- _; (split; [reflexivity|]);
    do 3 eexists; (split; [reflexivity|]).
  - by left.
  - right; left. eexists. by repeat split.
  - right; right. eexists. by repeat split.
Qed.

Lemma client_ip_precedence_witness :
  getClientIp (req_headers (RegisterFixtures.signup true)) = js "10.0.0.7".
Proof.
  refine (eq_trans
    (proj1 (proj2 (client_ip_precedence
                     (req_headers (RegisterFixtures.signup true))) _)
       (js " 10.0.0.7 ") (js ", 172.16.0.1") _ _ _ _) _).
  - vm_compute. reflexivity.
  - vm_compute. reflexivity.
  - vm_compute. discriminate.
  - vm_compute. reflexivity.
  - right. eexists. vm_compute. reflexivity.
  - vm_compute. reflexivity.
Defined.

Lemma nothing_written_for_invalid_input_witness :
  STORAGE_TYPE RegisterFixtures.server <> localstorage.
Proof.
  refine (proj1 (nothing_written_for_invalid_input RegisterFixtures.server
                   (RegisterFixtures.signup true) _)).
  vm_compute. discriminate.
Defined.

Lemma successful_registration_witness :
  exists newUser,
    In (PushUser newUser)
       (calls (POST RegisterFixtures.server (RegisterFixtures.signup true)))
    /\ role newUser = user.
Proof.
  destruct (successful_registration RegisterFixtures.server
              (RegisterFixtures.signup true))
    as (name & password & config & userConfig & newUser & userConfig'
        & _ & _ & Hcalls & _ & _ & _ & _ & _ & Hrole & _).
  - left. vm_compute. reflexivity.
  - exists newUser. split; [|exact Hrole].
    rewrite Hcalls. by left.
Defined.

Lemma at_most_three_per_address_witness :
  exists userConfig,
    UserConfig RegisterFixtures.saved_config = Some userConfig /\
    (length (registeredFrom
               (getClientIp (req_headers (RegisterFixtures.signup true)))
               (Users userConfig)) <= 3)%nat.
Proof.
  apply (at_most_three_per_address RegisterFixtures.server
           (RegisterFixtures.signup true) RegisterFixtures.saved_config).
  vm_compute. right; right; left. reflexivity.
Defined.

Lemma failure_after_writing_witness :
  exists newUser name password,
    calls (POST RegisterFixtures.server (RegisterFixtures.signup false)) =
      [PushUser newUser; RegisterUser name password].
Proof.
  destruct (failure_after_writing RegisterFixtures.server
              (RegisterFixtures.signup false) 500%Z
              (js "注册失败，请稍后重试"))
    as (_ & newUser & name & password & _ & Hcases).
  - vm_compute. reflexivity.
  - vm_compute. discriminate.
  - exists newUser, name, password.
    destruct Hcases as [[Hc _]|[(? & _ & Hreg & _)|(? & _ & Hreg & _)]];
      [exact Hc|discriminate Hreg|discriminate Hreg].
Defined.

End RegisterFacts.
